(** * webScrapping: chunking, index build and query of the SENAC course corpus

    A shallow embedding of the text pipeline of [rag_index.py] and
    [json_to_pdf.py], of the text repair of [senac_cursos.py] and of the
    document loader of [json_cursos_loader.py]:

    - Python [str] values are lists of Unicode code points;
    - regular expressions are written out as the scanners they denote;
    - [while] loops whose termination is not structural carry fuel and
      return [None] when it runs out;
    - the JSON corpus, the artifact directory and the exceptions raised by
      [build_index] and [query_index] are explicit. *)

From stdpp Require Import base option list strings gmap.
From Stdlib Require Import ZArith NArith Lia.

Local Open Scope Z_scope.

(** ** Python strings *)

Abbreviation char := N (only parsing).
Abbreviation pystr := (list N) (only parsing).

(** A literal: each byte of the Rocq string is one code point (Latin-1). *)
Definition py (s : string) : pystr :=
  map Ascii.N_of_ascii (String.list_ascii_of_string s).

Definition SP : char := 32%N.
Definition NL : char := 10%N.
Definition TAB : char := 9%N.
Definition NBSP : char := 160%N.
Definition LT : char := 60%N.
Definition GT : char := 62%N.
Definition DOT : char := 46%N.
Definition BANG : char := 33%N.
Definition QUESTION : char := 63%N.
Definition DASH : char := 45%N.

(** [str.isspace] on one code point, which is also [\s] of a [str] pattern
    and what [str.strip()] and [str.split()] remove. *)
Definition is_space (c : char) : bool :=
  ((9 <=? c) && (c <=? 13) || (28 <=? c) && (c <=? 32)
   || (c =? 133) || (c =? 160) || (c =? 5760)
   || (8192 <=? c) && (c <=? 8202)
   || (c =? 8232) || (c =? 8233) || (c =? 8239) || (c =? 8287)
   || (c =? 12288))%N.

Definition len {A} (s : list A) : Z := Z.of_nat (length s).
Arguments len : simpl never.

(** Truth value of a string or list: [not s] holds for the empty one only. *)
Definition truthy {A} (s : list A) : bool :=
  match s with [] => false | _ => true end.

(** [s.lstrip()], [s.rstrip()], [s.strip()]. *)
Fixpoint lstrip (s : pystr) : pystr :=
  match s with
  | [] => []
  | c :: r => if is_space c then lstrip r else s
  end.

Fixpoint rstrip (s : pystr) : pystr :=
  match s with
  | [] => []
  | c :: r =>
      match rstrip r with
      | [] => if is_space c then [] else [c]
      | r' => c :: r'
      end
  end.

Definition strip (s : pystr) : pystr := rstrip (lstrip s).

(** [re.sub(r"\s+", " ", s)]: a scanner that writes one space at the first
    character of every whitespace run and skips the rest of the run. *)
Fixpoint sub_ws (in_run : bool) (s : pystr) : pystr :=
  match s with
  | [] => []
  | c :: r =>
      if is_space c
      then (if in_run then sub_ws true r else SP :: sub_ws true r)
      else c :: sub_ws false r
  end.

(** [s.split()]: the maximal runs of non-whitespace characters. *)
Definition flush (acc : pystr) : list pystr :=
  match acc with [] => [] | _ => [acc] end.

Fixpoint split_aux (acc : pystr) (s : pystr) : list pystr :=
  match s with
  | [] => flush acc
  | c :: r =>
      if is_space c then flush acc ++ split_aux [] r
      else split_aux (acc ++ [c]) r
  end.

Definition split (s : pystr) : list pystr := split_aux [] s.

(** [" ".join(ws)]. *)
Fixpoint join_sp (ws : list pystr) : pystr :=
  match ws with
  | [] => []
  | [w] => w
  | w :: ws' => w ++ SP :: join_sp ws'
  end.

(** [s.replace(a, b)] for single characters. *)
Definition replace_char (a b : char) (s : pystr) : pystr :=
  map (fun c => if (c =? a)%N then b else c) s.

(** The non-whitespace characters of a string, in order: what survives
    every stripping, splitting and re-joining below. *)
Definition nonspace (s : pystr) : pystr :=
  filter (fun c => is_space c = false) s.

(** Python slicing [s[a:b]] with integer bounds: a negative bound counts
    from the end, bounds are clamped to [0, len s]. *)
Definition norm_index (n i : Z) : Z :=
  if i <? 0 then Z.max 0 (i + n) else Z.min i n.

Definition slice (s : pystr) (a b : Z) : pystr :=
  let a' := norm_index (len s) a in
  let b' := norm_index (len s) b in
  take (Z.to_nat (b' - a')) (drop (Z.to_nat a') s).

(** ** rag_index.py: [strip_html] *)

(** [_HTML_TAG_RE.sub("", s)] for [<[^>]+>]: at a [<], the pattern matches
    exactly when the next character is not [>] and a [>] follows later; the
    match then runs to the first [>]. *)
Definition has_close (rest : pystr) : bool :=
  match rest with
  | [] => false
  | c :: _ => negb (c =? GT)%N && bool_decide (GT ∈ rest)
  end.

Fixpoint strip_tags (inside : bool) (s : pystr) : pystr :=
  match s with
  | [] => []
  | c :: r =>
      if inside
      then (if (c =? GT)%N then strip_tags false r else strip_tags true r)
      else if (c =? LT)%N && has_close r then strip_tags true r
      else c :: strip_tags false r
  end.

Definition strip_html (value : pystr) : pystr :=
  if truthy value then
    let value := strip_tags false value in
    let value := replace_char NBSP SP value in
    strip (sub_ws false value)
  else [].

(** ** json_to_pdf.py: [collapse_whitespace] *)

Definition collapse_whitespace (text : pystr) : pystr :=
  if truthy text then strip (sub_ws false text) else [].

(** ** json_to_pdf.py: [split_into_sentences] *)

(** [re.sub(r"\s*\n\s*", " ", s)]: a maximal whitespace run that contains a
    line feed is replaced by one space, any other run is kept.  [run] is the
    whitespace run read so far. *)
Definition flush_run (run : pystr) : pystr :=
  if bool_decide (NL ∈ run) then [SP] else run.

Fixpoint sub_nl (run : pystr) (s : pystr) : pystr :=
  match s with
  | [] => flush_run run
  | c :: r =>
      if is_space c then sub_nl (run ++ [c]) r
      else flush_run run ++ c :: sub_nl [] r
  end.

Definition is_punct (c : char) : bool :=
  ((c =? DOT) || (c =? BANG) || (c =? QUESTION))%N.

Definition ends_with_punct (s : pystr) : bool :=
  match last s with Some c => is_punct c | None => false end.

(** [re.split(r"(?<=[\.!?])\s+", s)]: a separator is a maximal whitespace
    run that directly follows one of [. ! ?].  [cur] is the piece read so
    far, [in_sep] tells that the scanner is inside a separator. *)
Fixpoint re_split_sent (cur : pystr) (in_sep : bool) (s : pystr) : list pystr :=
  match s with
  | [] => if in_sep then [cur; []] else [cur]
  | c :: r =>
      if is_space c then
        if in_sep || ends_with_punct cur then re_split_sent cur true r
        else re_split_sent (cur ++ [c]) false r
      else if in_sep then cur :: re_split_sent [c] false r
      else re_split_sent (cur ++ [c]) false r
  end.

Definition split_into_sentences (text : pystr) : list pystr :=
  if truthy text then
    let text := strip (sub_nl [] text) in
    let parts := re_split_sent [] false text in
    map strip (filter (fun p => truthy p && truthy (strip p) = true) parts)
  else [].

(** ** json_to_pdf.py: [chunk_to_range] and [bullets_from_text] *)

(** The first loop of [chunk_to_range]: greedy word wrap. The state is
    [(chunks, current)]. *)
Definition wrap_step (max_len : Z) (st : list pystr * list pystr) (w : pystr)
  : list pystr * list pystr :=
  let '(chunks, current) := st in
  let tentative := strip (join_sp (current ++ [w])) in
  if len tentative <=? max_len then (chunks, current ++ [w])
  else ((if truthy current then chunks ++ [join_sp current] else chunks), [w]).

Definition wrap_words (max_len : Z) (words : list pystr) : list pystr :=
  let '(chunks, current) := fold_left (wrap_step max_len) words ([], []) in
  if truthy current then chunks ++ [join_sp current] else chunks.

(** The second loop of [chunk_to_range]: [i] walks the list and moves by two
    after a merge. *)
Fixpoint merge_small (min_len max_len : Z) (chunks : list pystr) : list pystr :=
  match chunks with
  | [] => []
  | cur :: tl =>
      match tl with
      | next :: rest =>
          let combo := cur ++ SP :: next in
          if (len cur <? min_len) && (len combo <=? max_len * 2)
          then combo :: merge_small min_len max_len rest
          else cur :: merge_small min_len max_len tl
      | [] => [cur]
      end
  end.

Definition chunk_to_range (text : pystr) (min_len max_len : Z) : list pystr :=
  merge_small min_len max_len (wrap_words max_len (split text)).

(** [f"- {item}"] *)
Definition bullet (item : pystr) : pystr := DASH :: SP :: item.

Definition bullets_step (min_len max_len : Z) (bullets : list pystr) (sent : pystr)
  : list pystr :=
  let sent := collapse_whitespace sent in
  if truthy sent then
    if max_len <? len sent then
      bullets ++ map bullet (chunk_to_range sent min_len max_len)
    else if (len sent <? min_len) && truthy bullets then
      let prev := drop 2 (default [] (last bullets)) in
      let combined := strip (prev ++ SP :: sent) in
      if len combined <=? max_len
      then removelast bullets ++ [bullet combined]
      else bullets ++ [bullet sent]
    else bullets ++ [bullet sent]
  else bullets.

Definition bullets_from_text (text : pystr) (min_len max_len : Z) : list pystr :=
  fold_left (bullets_step min_len max_len) (split_into_sentences text) [].

(** ** json_to_pdf.py: [chunk_text_range] *)

Record ctr_state := CtrState {
  ctr_chunks : list pystr;
  ctr_current : list pystr;
  ctr_current_len : Z
}.

Definition ctr_step (max_chars : Z) (st : ctr_state) (sent : pystr) : ctr_state :=
  let s := strip sent in
  if truthy s then
    let add_len := len s + (if truthy (ctr_current st) then 1 else 0) in
    if truthy (ctr_current st) && (max_chars <? ctr_current_len st + add_len)
    then CtrState (ctr_chunks st ++ [join_sp (ctr_current st)]) [s] (len s)
    else CtrState (ctr_chunks st) (ctr_current st ++ [s])
                  (ctr_current_len st + add_len)
  else st.

(** The remainder left in [current] after the loop. *)
Definition ctr_finish (min_chars max_chars : Z) (st : ctr_state) : list pystr :=
  if truthy (ctr_current st) then
    let rest := join_sp (ctr_current st) in
    if (len rest <? min_chars) && truthy (ctr_chunks st) then
      let prev := default [] (last (ctr_chunks st)) in
      let merged := strip (prev ++ SP :: rest) in
      if len merged <=? max_chars * 2
      then removelast (ctr_chunks st) ++ [merged]
      else ctr_chunks st ++ [rest]
    else ctr_chunks st ++ [rest]
  else ctr_chunks st.

(** The hard split of an oversized block: [while start < len(c)]. *)
Fixpoint hard_split (fuel : nat) (c : pystr) (max_chars start : Z)
  : option (list pystr) :=
  if start <? len c then
    match fuel with
    | O => None
    | S fuel' =>
        let end_ := Z.min (len c) (start + max_chars) in
        cons (strip (slice c start end_)) <$> hard_split fuel' c max_chars end_
    end
  else Some [].

Definition fix_chunk (max_chars : Z) (c : pystr) : option (list pystr) :=
  if len c <=? max_chars then Some [c]
  else hard_split (List.length c) c max_chars 0.

Definition chunk_text_range (text : pystr) (min_chars max_chars : Z)
  : option (list pystr) :=
  let st := fold_left (ctr_step max_chars) (split_into_sentences text)
                      (CtrState [] [] 0) in
  let chunks := ctr_finish min_chars max_chars st in
  fixed ← mapM (fix_chunk max_chars) chunks;
  Some (filter (fun f => truthy f = true) (map strip (concat fixed))).

(** ** rag_index.py: [simple_chunk] *)

(** [text.rfind(". ", start, end)]: the highest index [p] with
    [start <= p], [p + 2 <= end] and [text[p:p+2] == ". "], or [-1]. *)
Definition dot_space_at (s : pystr) (p : Z) : bool :=
  match drop (Z.to_nat p) s with
  | c1 :: c2 :: _ => ((c1 =? DOT) && (c2 =? SP))%N
  | _ => false
  end.

Fixpoint rfind_down (s : pystr) (lo : Z) (k : nat) : Z :=
  match k with
  | O => -1
  | S k' =>
      if dot_space_at s (lo + Z.of_nat k') then lo + Z.of_nat k'
      else rfind_down s lo k'
  end.

Definition rfind_dot_space (s : pystr) (start end_ : Z) : Z :=
  let a := norm_index (len s) start in
  let b := norm_index (len s) end_ in
  rfind_down s a (Z.to_nat (b - 1 - a)).

(** One iteration of the [while] loop at window start [start]: the cut
    position, the chunk and the next start.  [cut <= start + 0.5 * max_chars]
    compares an integer with a half-integer, written here doubled. *)
Definition simple_chunk_step (text : pystr) (max_chars overlap start : Z)
  : Z * pystr * Z :=
  let end_ := Z.min (len text) (start + max_chars) in
  let cut := rfind_dot_space text start end_ in
  let cut :=
    if (cut =? -1) || (2 * cut <=? 2 * start + max_chars) then end_ else cut in
  let chunk := strip (slice text start cut) in
  (cut, chunk, Z.max (cut - overlap) (start + 1)).

Fixpoint simple_chunk_loop (fuel : nat) (text : pystr) (max_chars overlap start : Z)
    (chunks : list pystr) : option (list pystr) :=
  if start <? len text then
    match fuel with
    | O => None
    | S fuel' =>
        let '(_, chunk, next) := simple_chunk_step text max_chars overlap start in
        simple_chunk_loop fuel' text max_chars overlap next
          (if truthy chunk then chunks ++ [chunk] else chunks)
    end
  else Some chunks.

Definition simple_chunk (text : pystr) (max_chars overlap : Z)
  : option (list pystr) :=
  let text := strip text in
  if truthy text then
    if len text <=? max_chars then Some [text]
    else simple_chunk_loop (length text) text max_chars overlap 0 []
  else Some [].

(** The values [(start, cut, next start)] of the successive iterations of
    the loop of [simple_chunk], as far as the fuel goes. *)
Fixpoint simple_chunk_trace (fuel : nat) (text : pystr) (max_chars overlap start : Z)
  : list (Z * Z * Z) :=
  match fuel with
  | O => []
  | S fuel' =>
      if start <? len text then
        let '(cut, _, next) := simple_chunk_step text max_chars overlap start in
        (start, cut, next) :: simple_chunk_trace fuel' text max_chars overlap next
      else []
  end.

(** ** json_to_pdf.py: [split_oque_vou_aprender_sections] *)

(** [s.split(d)] for a one-character separator, and ["\n".join(ls)]. *)
Fixpoint split_on (d : char) (s : pystr) : list pystr :=
  match s with
  | [] => [[]]
  | c :: r =>
      if (c =? d)%N then [] :: split_on d r
      else match split_on d r with
           | p :: ps => (c :: p) :: ps
           | [] => [[c]]
           end
  end.

Fixpoint join_nl (ls : list pystr) : pystr :=
  match ls with
  | [] => []
  | [l] => l
  | l :: ls' => l ++ NL :: join_nl ls'
  end.

(** The body of the second loop, for one block: [None] stands for a hard
    split that does not return. *)
Definition block_chunks (block : pystr) : option (list pystr) :=
  let block_lines :=
    filter (fun l => truthy (strip l) = true) (split_on NL block) in
  match block_lines with
  | [] => Some []
  | semestre_header :: resto_lines =>
      if truthy resto_lines then
        let resto_text := collapse_whitespace (join_sp resto_lines) in
        if truthy resto_text then
          let full := collapse_whitespace (semestre_header ++ SP :: resto_text) in
          if len full <=? 900 then Some [full]
          else
            subs ← chunk_text_range resto_text 400 900;
            Some (map (fun sub =>
                         collapse_whitespace (semestre_header ++ SP :: sub)) subs)
        else Some []
      else
        let header_only := collapse_whitespace semestre_header in
        Some (if truthy header_only then [header_only] else [])
  end.

Section Sections.
(** [format_disciplines] (HTML clean-up and line classification) and the
    compiled pattern [\d+º\s+semestre] are taken as given. *)
Variable format_disciplines : pystr -> pystr.
Variable sem_re_match : pystr -> bool.

(** The first loop: the state is [(semesters, current)]. *)
Definition group_step (st : list pystr * list pystr) (line : pystr)
  : list pystr * list pystr :=
  let '(semesters, current) := st in
  if truthy line then
    if sem_re_match line then
      ((if truthy current then semesters ++ [strip (join_nl current)]
        else semesters), [line])
    else (semesters, current ++ [line])
  else st.

Definition group_semesters (formatted : pystr) : list pystr :=
  let lines := map strip (split_on NL formatted) in
  let '(semesters, current) := fold_left group_step lines ([], []) in
  if truthy current then semesters ++ [strip (join_nl current)] else semesters.

Definition split_oque_vou_aprender_sections (raw_text : pystr)
  : option (list pystr) :=
  let formatted := format_disciplines raw_text in
  if truthy formatted then
    per_block ← mapM block_chunks (group_semesters formatted);
    Some (concat per_block)
  else Some [].
End Sections.

(** ** The corpus: parsed JSON *)

(** What [json.load] returns. A float is [m * 2^e]. An object keeps its
    pairs in file order; a key written twice has the value written last. *)
#[warnings="-register-all"]
Inductive json :=
| JNull
| JBool (b : bool)
| JInt (z : Z)
| JFloat (m e : Z)
| JStr (s : pystr)
| JArr (items : list json)
| JObj (pairs : list (pystr * json)).

Definition json_truthy (v : json) : bool :=
  match v with
  | JNull => false
  | JBool b => b
  | JInt z => negb (z =? 0)
  | JFloat m _ => negb (m =? 0)
  | JStr s => truthy s
  | JArr items => truthy items
  | JObj pairs => truthy pairs
  end.

Fixpoint dict_lookup (k : pystr) (pairs : list (pystr * json)) : option json :=
  match pairs with
  | [] => None
  | (k', v) :: rest =>
      match dict_lookup k rest with
      | Some v' => Some v'
      | None => if decide (k = k') then Some v else None
      end
  end.

(** ** Exceptions *)

Inductive exn :=
| ValueError (msg : pystr)
| TypeError
| AttributeError
| FileNotFoundError
| ModelLoadError
| IndexReadError
| UnicodeEncodeError
| UnicodeDecodeError
| JSONDecodeError.

Inductive result (A : Type) :=
| Ok (a : A)
| Err (e : exn).
Arguments Ok {A} a.
Arguments Err {A} e.

#[global] Instance result_ret : MRet result := fun A a => Ok a.
#[global] Instance result_bind : MBind result := fun A B f m =>
  match m with Ok a => f a | Err e => Err e end.

(** [d.get(k, dflt)]: only a dict has [get]. *)
Definition py_get (d : json) (k : pystr) (dflt : json) : result json :=
  match d with
  | JObj pairs => Ok (default dflt (dict_lookup k pairs))
  | _ => Err AttributeError
  end.

(** [a or b], with [b] evaluated only when [a] is falsy. *)
Definition py_or (a : json) (b : result json) : result json :=
  if json_truthy a then Ok a else b.

(** [for x in v] over a parsed JSON value: a list yields its items, a string
    its characters, a dict its keys; nothing else is iterable. *)
Fixpoint dict_keys (pairs : list (pystr * json)) : list pystr :=
  match pairs with
  | [] => []
  | (k, _) :: rest =>
      k :: filter (fun k' => k' ≠ k) (dict_keys rest)
  end.

Definition py_iter (v : json) : result (list json) :=
  match v with
  | JArr items => Ok items
  | JStr s => Ok (map (fun c => JStr [c]) s)
  | JObj pairs => Ok (map JStr (dict_keys pairs))
  | _ => Err TypeError
  end.

(** [strip_html(course.get(field, ""))]: a falsy value gives [""], a
    non-empty string is cleaned, [re.sub] rejects anything else. *)
Definition strip_html_value (v : json) : result pystr :=
  if json_truthy v then
    match v with
    | JStr s => Ok (strip_html s)
    | _ => Err TypeError
    end
  else Ok [].

Definition DEFAULT_MODEL_NAME : pystr :=
  py "sentence-transformers/all-MiniLM-L6-v2".

Definition msg_no_cursos : pystr :=
  py "JSON does not contain key 'cursos' or it's empty".
Definition msg_no_content : pystr :=
  py "No textual content found to index".

(** A text that UTF-8 encodes: one without surrogate, the only code
    points of a [str] that the codec refuses. *)
Definition is_surrogate (c : char) : bool :=
  ((55296 <=? c) && (c <=? 57343))%N.

Definition utf8_encodable (s : pystr) : bool :=
  forallb (fun c => negb (is_surrogate c)) s.

Fixpoint json_encodable (v : json) : bool :=
  match v with
  | JStr s => utf8_encodable s
  | JArr items => forallb json_encodable items
  | JObj pairs =>
      forallb (fun kv => utf8_encodable (fst kv) && json_encodable (snd kv)) pairs
  | _ => true
  end.

(** ** rag_index.py: [build_index] and [query_index] *)

Section Index.
(** The embedding model, the random identifiers and the [str] conversion
    of non-string JSON values are taken as given: [load_model] is
    [SentenceTransformer(name)] ([None] when loading raises), [encode] is
    the embedding of one text of a batch, taken to return on every text,
    [uuid4 n] is the identifier drawn for the [n]-th snippet. *)
Variables vector score model : Type.
Variable load_model : pystr -> option model.
Variable encode : model -> pystr -> vector.
Variable model_dim : model -> nat.
Variable uuid4 : nat -> pystr.
Variable py_repr : json -> pystr.

Definition py_str (v : json) : pystr :=
  match v with JStr s => s | _ => py_repr v end.

(** A metadata value: text, the score added by a query, or, in a file
    that [build_index] did not write, a JSON value that is not a string. *)
Inductive value :=
| VStr (s : pystr)
| VScore (x : score)
| VJson (v : json).

Record Snippet := MkSnippet {
  text : pystr;
  metadata : gmap (list N) value
}.

(** [faiss.IndexFlatIP]: the dimension and the vectors in [add] order. *)
Record flat_index := FlatIndex {
  index_d : nat;
  index_vectors : list vector
}.

Definition index_add (index : flat_index) (vs : list vector) : flat_index :=
  FlatIndex (index_d index) (index_vectors index ++ vs).

(** What [index.faiss] holds: an index that [faiss.read_index] reads back,
    or anything else, on which it raises. *)
Inductive index_file :=
| Readable (index : flat_index)
| Damaged.

(** What [json.loads] gives for a line of [metadata.jsonl]. *)
Inductive entry :=
| EDict (r : gmap (list N) value)
| EList (items : list json)
| EStr (s : pystr)
| EInt (z : Z)
| EFloat (m e : Z)
| EBool (b : bool)
| ENull.

(** What iterating over [metadata.jsonl] gives, item by item: a line that
    is blank, a line that [json.loads] rejects, a line with the value it
    parses to, or the [UnicodeDecodeError] of bytes that are not UTF-8. *)
Inductive meta_line :=
| Blank
| Malformed
| Loaded (e : entry)
| Undecodable.

(** The lines that hold the given records, one dict each: what
    [json.dumps] writes on a line, [json.loads] reads back. *)
Definition record_lines (records : list (gmap (list N) value))
  : list meta_line :=
  map (fun r => Loaded (EDict r)) records.

(** The output directory: whether it exists, and the two artifacts. *)
Record artifacts := Artifacts {
  dir_exists : bool;
  index_faiss : option index_file;
  metadata_jsonl : option (list meta_line)
}.

Definition make_meta (n : nat) (article_id title campo_value field_name : pystr)
  : gmap (list N) value :=
  <[py "field" := VStr field_name]>
    (<[py "campo" := VStr campo_value]>
       (<[py "nomeCurso" := VStr title]>
          (<[py "articleId" := VStr article_id]>
             (<[py "id" := VStr (uuid4 n)]> ∅)))).

(** The inner loops over one field: one snippet per chunk, appended to
    [snippets]. [None] of [simple_chunk] is a loop that does not return. *)
Definition field_snippets (article_id title campo_value : pystr)
    (snippets : list Snippet) (field : pystr * pystr) : option (list Snippet) :=
  let '(field_name, field_text) := field in
  if truthy field_text then
    chunks ← simple_chunk field_text 900 150;
    Some (fold_left
            (fun acc chunk =>
               acc ++ [MkSnippet chunk
                         (make_meta (length acc) article_id title campo_value
                                    field_name)])
            chunks snippets)
  else Some snippets.

Fixpoint fields_snippets (article_id title campo_value : pystr)
    (snippets : list Snippet) (fields : list (pystr * pystr))
  : option (list Snippet) :=
  match fields with
  | [] => Some snippets
  | f :: rest =>
      snippets' ← field_snippets article_id title campo_value snippets f;
      fields_snippets article_id title campo_value snippets' rest
  end.

(** The body of [for course in cursos]. The outer [option] is [None] for
    a chunking loop that does not return. *)
Definition course_snippets (campo_override : option pystr)
    (snippets : list Snippet) (course : json) : result (option (list Snippet)) :=
  a ← py_get course (py "articleId") (JStr []);
  let article_id := py_str a in
  t1 ← py_get course (py "title") JNull;
  t ← py_or t1
       (td ← py_get course (py "toDisplay") (JObj []);
        t2 ← py_get td (py "title") JNull;
        py_or t2 (Ok (JStr [])));
  let title := py_str t in
  td ← py_get course (py "toDisplay") (JObj []);
  to_display ← py_or td (Ok (JObj []));
  tn ← py_get to_display (py "tipoName") JNull;
  tn' ← py_or tn (Ok (JStr []));
  let tipo_name := py_str tn' in
  let campo_value :=
    match campo_override with
    | Some c => if truthy c then c else tipo_name
    | None => tipo_name
    end in
  v1 ← py_get course (py "objetivoComercial") (JStr []);
  objetivo ← strip_html_value v1;
  v2 ← py_get course (py "comoVouAprender") (JStr []);
  como ← strip_html_value v2;
  v3 ← py_get course (py "possoFazerEsseCurso") (JStr []);
  requisitos ← strip_html_value v3;
  v4 ← py_get course (py "oqueVouAprender") (JStr []);
  o_que ← strip_html_value v4;
  let fields :=
    [ (py "objetivo", objetivo); (py "metodologia", como);
      (py "requisitos", requisitos); (py "conteudo", o_que) ] in
  Ok (fields_snippets article_id title campo_value snippets fields).

Fixpoint all_snippets (campo_override : option pystr)
    (snippets : list Snippet) (cursos : list json)
  : result (option (list Snippet)) :=
  match cursos with
  | [] => Ok (Some snippets)
  | course :: rest =>
      r ← course_snippets campo_override snippets course;
      match r with
      | Some snippets' => all_snippets campo_override snippets' rest
      | None => Ok None
      end
  end.

(** The metadata line of a snippet: [{**s.metadata, "text": s.text}]. *)
Definition snippet_record (s : Snippet) : gmap (list N) value :=
  <[py "text" := VStr (text s)]> (metadata s).

(** [mf.write(json.dumps(rec, ensure_ascii=False) + "\n")] on a file opened
    with [encoding="utf-8"]: the line holds the keys and the strings of the
    record as they are, and the write raises [UnicodeEncodeError] when one
    of them has a surrogate. *)
Definition value_encodable (v : value) : bool :=
  match v with
  | VStr s => utf8_encodable s
  | VScore _ => true
  | VJson v => json_encodable v
  end.

Definition record_encodable (rec : gmap (list N) value) : bool :=
  bool_decide (map_Forall (fun k v => utf8_encodable k = true
                                      /\ value_encodable v = true) rec).

(** The loop over the snippets: the records written so far, and how the
    loop ends. *)
Fixpoint write_records (written : list (gmap (list N) value))
    (records : list (gmap (list N) value))
  : list (gmap (list N) value) * result unit :=
  match records with
  | [] => (written, Ok ())
  | rec :: rest =>
      if record_encodable rec then write_records (written ++ [rec]) rest
      else (written, Err UnicodeEncodeError)
  end.

(** [build_index] on the parsed corpus [data], started with the directory
    in state [fs]: the state it leaves and how it ends. [None] as outcome
    stands for a run that does not return.  The directory is created and
    [index.faiss] written before [metadata.jsonl] is opened, and a line
    that does not encode stops the run there. *)
Definition build_index (data : json) (model_name : pystr)
    (campo_override : option pystr) (fs : artifacts)
  : artifacts * option (result unit) :=
  match py_get data (py "cursos") (JArr []) with
  | Err e => (fs, Some (Err e))
  | Ok cursos =>
      if json_truthy cursos then
        match load_model model_name with
        | None => (fs, Some (Err ModelLoadError))
        | Some m =>
            let index := FlatIndex (model_dim m) [] in
            match py_iter cursos with
            | Err e => (fs, Some (Err e))
            | Ok courses =>
                match all_snippets campo_override [] courses with
                | Err e => (fs, Some (Err e))
                | Ok None => (fs, None)
                | Ok (Some snippets) =>
                    if truthy snippets then
                      let texts := map text snippets in
                      let vectors := map (encode m) texts in
                      let index := index_add index vectors in
                      let fs := Artifacts true (index_faiss fs) (metadata_jsonl fs) in
                      let fs := Artifacts (dir_exists fs) (Some (Readable index))
                                          (metadata_jsonl fs) in
                      let '(written, outcome) :=
                        write_records [] (map snippet_record snippets) in
                      let fs := Artifacts (dir_exists fs) (index_faiss fs)
                                          (Some (record_lines written)) in
                      (fs, Some outcome)
                    else (fs, Some (Err (ValueError msg_no_content)))
                end
            end
        end
      else (fs, Some (Err (ValueError msg_no_cursos)))
  end.

(** The loop over the lines of [metadata.jsonl]: a blank line is skipped,
    any other is parsed and appended. *)
Fixpoint read_metadata (metadata : list entry) (lines : list meta_line)
  : result (list entry) :=
  match lines with
  | [] => Ok metadata
  | Blank :: rest => read_metadata metadata rest
  | Malformed :: _ => Err JSONDecodeError
  | Loaded e :: rest => read_metadata (metadata ++ [e]) rest
  | Undecodable :: _ => Err UnicodeDecodeError
  end.

(** [_load_index]: both files must exist; the index is read, then the
    model loaded, then the metadata read line by line. *)
Definition load_index (fs : artifacts) (model_name : pystr)
  : result (flat_index * model * list entry) :=
  match index_faiss fs, metadata_jsonl fs with
  | Some file, Some lines =>
      match file with
      | Readable index =>
          match load_model model_name with
          | Some m =>
              metadata ← read_metadata [] lines;
              Ok (index, m, metadata)
          | None => Err ModelLoadError
          end
      | Damaged => Err IndexReadError
      end
  | _, _ => Err FileNotFoundError
  end.

(** [index.search(q_vec, k)], any implementation: the (score, ordinal)
    pairs of the single query row. *)
Variable search : flat_index -> vector -> Z -> result (list (score * Z)).

(** [rec = metadata[idx].copy()] and [rec["score"] = float(score)]: a dict
    is copied and takes the score; a list is copied and refuses the key;
    nothing else has [copy]. *)
Definition scored_copy (e : entry) (sc : score)
  : result (gmap (list N) value) :=
  match e with
  | EDict rec => Ok (<[py "score" := VScore sc]> rec)
  | EList _ => Err TypeError
  | _ => Err AttributeError
  end.

(** The body of the loop over [zip(scores[0], indices[0])]: what is
    appended to [results]. *)
Definition hit_record (metadata : list entry) (hit : score * Z)
  : result (list (gmap (list N) value)) :=
  let '(sc, idx) := hit in
  if (idx <? 0) || (len metadata <=? idx) then Ok []
  else match metadata !! Z.to_nat idx with
       | Some e => rec ← scored_copy e sc; Ok [rec]
       | None => Ok []
       end.

Fixpoint hit_records (metadata : list entry)
    (results : list (gmap (list N) value)) (hits : list (score * Z))
  : result (list (gmap (list N) value)) :=
  match hits with
  | [] => Ok results
  | hit :: rest =>
      recs ← hit_record metadata hit;
      hit_records metadata (results ++ recs) rest
  end.

Definition query_index (fs : artifacts) (query model_name : pystr) (top_k : Z)
  : result (list (gmap (list N) value)) :=
  '(index, m, metadata) ← load_index fs model_name;
  let q_vec := encode m query in
  hits ← search index q_vec (Z.min top_k (len metadata));
  hit_records metadata [] hits.

(** Modelled from the spec: the similarity search of the vector index
    (the FAISS library, which is not part of the sources).  After §4.6:
    [search] returns the [k] highest-scoring entries as (score, ordinal)
    pairs, the ordinal being the position in add order, clamped to the
    number of stored vectors when [k] exceeds it.  [inner] is the inner
    product and [score_leb] the order of scores. *)
Variable inner : vector -> vector -> score.
Variable score_leb : score -> score -> bool.

Fixpoint insert_desc (h : score * Z) (hs : list (score * Z)) : list (score * Z) :=
  match hs with
  | [] => [h]
  | h' :: rest =>
      if score_leb (fst h') (fst h) then h :: hs
      else h' :: insert_desc h rest
  end.

Definition rank_desc (hs : list (score * Z)) : list (score * Z) :=
  foldr insert_desc [] hs.

Definition scored (index : flat_index) (q : vector) : list (score * Z) :=
  imap (fun i v => (inner q v, Z.of_nat i)) (index_vectors index).

Definition flat_ip_search (index : flat_index) (q : vector) (k : Z)
  : result (list (score * Z)) :=
  Ok (take (Z.to_nat k) (rank_desc (scored index q))).
End Index.

Arguments VStr {score} s.
Arguments VScore {score} x.
Arguments VJson {score} v.
Arguments Readable {vector} index.
Arguments Damaged {vector}.
Arguments EDict {score} r.
Arguments EList {score} items.
Arguments EStr {score} s.
Arguments EInt {score} z.
Arguments EFloat {score} m e.
Arguments EBool {score} b.
Arguments ENull {score}.
Arguments Blank {score}.
Arguments Malformed {score}.
Arguments Loaded {score} e.
Arguments Undecodable {score}.
Arguments record_lines {score} records.
Arguments value_encodable {score} v.
Arguments record_encodable {score} rec.
Arguments write_records {score} written records.
Arguments read_metadata {score} metadata lines.
Arguments scored_copy {score} e sc.
Arguments hit_records {score} metadata results hits.
Arguments MkSnippet {score} text metadata.
Arguments text {score} s.
Arguments metadata {score} s.
Arguments FlatIndex {vector} index_d index_vectors.
Arguments index_d {vector} f.
Arguments index_vectors {vector} f.
Arguments index_add {vector} index vs.
Arguments Artifacts {vector score} dir_exists index_faiss metadata_jsonl.
Arguments dir_exists {vector score} a.
Arguments index_faiss {vector score} a.
Arguments metadata_jsonl {vector score} a.
Arguments snippet_record {score} s.
Arguments hit_record {score} metadata hit.

(** ** Vocabulary of the properties *)

(** A course without text: a JSON object whose ["toDisplay"], if present,
    is an object, and whose four text fields are missing or clean to the
    empty string. *)
Definition text_fields : list pystr :=
  [ py "objetivoComercial"; py "comoVouAprender";
    py "possoFazerEsseCurso"; py "oqueVouAprender" ].

Definition blank_course (course : json) : Prop :=
  exists pairs,
    course = JObj pairs
    /\ (dict_lookup (py "toDisplay") pairs = None
        \/ exists td, dict_lookup (py "toDisplay") pairs = Some (JObj td))
    /\ Forall (fun f => strip_html_value (default (JStr []) (dict_lookup f pairs))
                        = Ok [])
              text_fields.

(** A toy instance, to run the index on small inputs: one-dimensional
    integer vectors, the embedding of a text is its length. *)
Module Toy.
Definition load_model (name : pystr) : option unit := Some ().
Definition encode (m : unit) (t : pystr) : Z := len t.
Definition model_dim (m : unit) : nat := 1%nat.
Definition uuid4 (n : nat) : pystr := repeat 117%N (S n).
Definition py_repr (v : json) : pystr := [].
Definition inner (q v : Z) : Z := q * v.
Definition build_index :=
  build_index Z Z unit load_model encode model_dim uuid4 py_repr.
Definition search := flat_ip_search Z Z inner Z.leb.
Definition query_index :=
  query_index Z Z unit load_model encode search.
Definition no_directory : artifacts Z Z := Artifacts false None None.

(** The compiled pattern [\d+º\s+semestre] with [re.IGNORECASE], matched at
    the start of a line.  [\d] is a decimal digit of Unicode: the runs of
    the category Nd (Unicode 14), each by its first code point and its
    length.  Without regard to case, a letter of [semestre] matches itself
    and its capital, and [s] the long s as well. *)
Definition decimal_runs : list (N * N) :=
  [(48, 10); (1632, 10); (1776, 10); (1984, 10); (2406, 10); (2534, 10);
    (2662, 10); (2790, 10); (2918, 10); (3046, 10); (3174, 10); (3302, 10);
    (3430, 10); (3558, 10); (3664, 10); (3792, 10); (3872, 10); (4160, 10);
    (4240, 10); (6112, 10); (6160, 10); (6470, 10); (6608, 10); (6784, 10);
    (6800, 10); (6992, 10); (7088, 10); (7232, 10); (7248, 10); (42528, 10);
    (43216, 10); (43264, 10); (43472, 10); (43504, 10); (43600, 10);
    (44016, 10); (65296, 10); (66720, 10); (68912, 10); (69734, 10);
    (69872, 10); (69942, 10); (70096, 10); (70384, 10); (70736, 10);
    (70864, 10); (71248, 10); (71360, 10); (71472, 10); (71904, 10);
    (72016, 10); (72784, 10); (73040, 10); (73120, 10); (92768, 10);
    (92864, 10); (93008, 10); (120782, 50); (123200, 10); (123632, 10);
    (125264, 10); (130032, 10)]%N.

Definition is_decimal (c : char) : bool :=
  existsb (fun r => (fst r <=? c) && (c <? fst r + snd r))%N decimal_runs.

Fixpoint skip_digits (s : pystr) : pystr :=
  match s with
  | c :: r => if is_decimal c then skip_digits r else s
  | [] => []
  end.

Definition match_nocase (p c : char) : bool :=
  ((c =? p) || (c =? p - 32) || (p =? 115) && (c =? 383))%N.

Fixpoint starts_nocase (p s : pystr) : bool :=
  match p, s with
  | [], _ => true
  | _ :: _, [] => false
  | a :: p', c :: s' => match_nocase a c && starts_nocase p' s'
  end.

Definition sem_re_match (line : pystr) : bool :=
  match line with
  | c :: _ =>
      is_decimal c
      && match skip_digits line with
         | o :: w :: rest =>
             (o =? 186)%N && is_space w
             && starts_nocase (py "semestre") (lstrip rest)
         | _ => false
         end
  | [] => false
  end.
Definition format_disciplines (raw : pystr) : pystr := raw.
End Toy.

(** The chunk cut from the window [(start, cut, next start)]. *)
Definition window_chunk (text : pystr) (w : Z * Z * Z) : pystr :=
  strip (slice text w.1.1 w.1.2).

(** A string on which [<[^>]+>] matches nowhere. *)
Fixpoint tag_free (s : pystr) : Prop :=
  match s with
  | [] => True
  | c :: r => (c = LT -> has_close r = false) /\ tag_free r
  end.

(** [ws_edit x y]: [y] is [x] with some whitespace characters dropped or
    replaced by whitespace characters. *)
Inductive ws_edit : pystr -> pystr -> Prop :=
| ws_edit_nil : ws_edit [] []
| ws_edit_keep c x y : ws_edit x y -> ws_edit (c :: x) (c :: y)
| ws_edit_drop c x y : is_space c = true -> ws_edit x y -> ws_edit (c :: x) y
| ws_edit_repl c c' x y :
    is_space c = true -> is_space c' = true -> ws_edit x y ->
    ws_edit (c :: x) (c' :: y).

(** A word: non-empty, without whitespace. *)
Definition word (w : pystr) : Prop :=
  w <> [] /\ Forall (fun c => is_space c = false) w.

(** [tightb after_space s]: the only whitespace of [s] is single spaces
    between other characters ([after_space] tells that a space was just
    read, or that [s] is at its start). *)
Fixpoint tightb (after_space : bool) (s : pystr) : bool :=
  match s with
  | [] => negb after_space
  | c :: r =>
      if is_space c then (c =? SP)%N && negb after_space && tightb true r
      else tightb false r
  end.

(** A string that starts and ends with a character that is not whitespace. *)
Definition trimmed (p : pystr) : Prop :=
  (exists c x, p = c :: x /\ is_space c = false)
  /\ (exists d, last p = Some d /\ is_space d = false).

(** The routing of one semester block as the specification words it, for a
    header and a whitespace-collapsed body: one chunk when the whole block
    has between 400 and 900 characters, else the body re-chunked and the
    header put before every piece. *)
Definition block_chunks_as_stated (header body : pystr) : option (list pystr) :=
  let full := collapse_whitespace (header ++ SP :: body) in
  if (400 <=? len full) && (len full <=? 900) then Some [full]
  else
    subs ← chunk_text_range body 400 900;
    Some (map (fun sub => collapse_whitespace (header ++ SP :: sub)) subs).

(** Non-empty text whose words are separated by single spaces. *)
Definition phrase (s : pystr) : Prop :=
  exists ws, ws <> [] /\ Forall word ws /\ s = join_sp ws.

(** [adjacent R l]: [R] relates every element of [l] to its successor. *)
Fixpoint adjacent {A} (R : A -> A -> Prop) (l : list A) : Prop :=
  match l with
  | a :: tl => match tl with b :: _ => R a b | [] => True end /\ adjacent R tl
  | [] => True
  end.

(** What an item of [bullets_from_text] can be: one word, a text of at most
    [max_len] characters, or a piece under [min_len] merged with its
    successor into at most twice [max_len] characters. *)
Definition item_ok (min_len max_len : Z) (item : pystr) : Prop :=
  word item
  \/ len item <= max_len
  \/ (len item <= 2 * max_len
      /\ exists p q, item = p ++ SP :: q /\ len p < min_len).

(** Two pieces in a row that do not fit one line of [max_len] characters. *)
Definition overfull (max_len : Z) (a b : pystr) : Prop :=
  max_len < len a + 1 + len b.

(** The invariant of the word wrap of [chunk_to_range], after the words
    [seen]. *)
Definition wrap_inv (max_len : Z) (seen : list pystr)
    (st : list pystr * list pystr) : Prop :=
  let '(chunks, current) := st in
  Forall word current
  /\ Forall phrase chunks
  /\ concat (map split chunks) ++ current = seen
  /\ (current = [] -> chunks = [])
  /\ ((length current <= 1)%nat \/ len (join_sp current) <= max_len)
  /\ Forall (fun c => word c \/ len c <= max_len) chunks
  /\ adjacent (overfull max_len) chunks
  /\ (forall c w rest, last chunks = Some c -> current = w :: rest ->
        max_len < len c + 1 + len w).

(** A piece under [min_len] that was not merged is followed by a single
    word longer than [max_len], too long to merge within twice [max_len]. *)
Definition undersized_blocked (min_len max_len : Z) (a b : pystr) : Prop :=
  len a < min_len ->
  word b /\ max_len < len b /\ 2 * max_len < len a + 1 + len b.

(** The first piece survives a merge pass, possibly grown. *)
Definition head_kept (min_len : Z) (cs ms : list pystr) : Prop :=
  match cs, ms with
  | c :: _, m :: _ => len c <= len m /\ (min_len <= len c -> m = c)
  | [], [] => True
  | _, _ => False
  end.

(** [small_excused min_len max_len prev items]: every item under [min_len]
    is the first one ([prev] is the item before), or does not fit one line of
    [max_len] characters with the item before it, or is followed by a single
    word longer than [max_len]. *)
Fixpoint small_excused (min_len max_len : Z) (prev : option pystr)
    (items : list pystr) : Prop :=
  match items with
  | [] => True
  | x :: tl =>
      (len x < min_len ->
       prev = None
       \/ (exists p, prev = Some p /\ overfull max_len p x)
       \/ (exists next, head tl = Some next /\ word next /\ max_len < len next))
      /\ small_excused min_len max_len (Some x) tl
  end.

(** The invariant of the loop of [bullets_from_text], after the sentences
    whose words are [seen]. *)
Definition bullets_inv (min_len max_len : Z) (seen : list pystr)
    (bullets : list pystr) : Prop :=
  exists items,
    bullets = map bullet items
    /\ Forall phrase items
    /\ Forall (item_ok min_len max_len) items
    /\ concat (map split items) = seen
    /\ (min_len <= max_len -> small_excused min_len max_len None items).

(** [sub t a b]: the characters of [t] at the positions from [a] up to,
    not including, [b]; this is [t[a:b]] for [0 <= a] and [b <= len t]. *)
Definition sub (t : pystr) (a b : Z) : pystr :=
  take (Z.to_nat (b - a)) (drop (Z.to_nat a) t).

(** A stretch of whitespace. *)
Definition blank (s : pystr) : Prop := Forall (fun c => is_space c = true) s.

(** The character of [t] at position [p] is not whitespace. *)
Definition nonspace_at (t : pystr) (p : Z) : Prop :=
  exists c, sub t p (p + 1) = [c] /\ is_space c = false.

(** [shared_ok overlap prev chunks shared]: [shared] gives, for every chunk,
    the length of a prefix that is also the end of the chunk before it
    ([prev] is the chunk before the first); it is 0 for a chunk without
    predecessor and at most [overlap] for the others. *)
Fixpoint shared_ok (overlap : Z) (prev : option pystr)
    (chunks : list pystr) (shared : list nat) : Prop :=
  match chunks, shared with
  | [], [] => True
  | c :: cs, k :: ks =>
      match prev with
      | None => k = 0%nat
      | Some p =>
          Z.of_nat k <= overlap /\ (k <= length c)%nat
          /\ take k c `suffix_of` p
      end
      /\ shared_ok overlap (Some c) cs ks
  | _, _ => False
  end.

(** The chunks with the shared prefixes dropped, concatenated. *)
Definition dedup_concat (shared : list nat) (chunks : list pystr) : pystr :=
  concat (zip_with drop shared chunks).

(** The invariant of the loop of [simple_chunk] on the stripped text [t],
    when the window is about to start at [start]: the windows so far end at
    [hi]; the chunks so far, without the prefixes they share, hold what
    [t] has up to [hi]; the last chunk is [t] from [a] to [b], with nothing
    but whitespace between [b] and [hi] and between [start] and [a]. *)
Definition sc_inv (t : pystr) (max_chars overlap start : Z)
    (chunks : list pystr) : Prop :=
  exists (shared : list nat) (hi : Z),
    0 <= start <= hi /\ hi <= len t /\ hi - start <= overlap
    /\ shared_ok overlap None chunks shared
    /\ Forall (fun c => len c <= max_chars) chunks
    /\ nonspace (dedup_concat shared chunks) = nonspace (sub t 0 hi)
    /\ match last chunks with
       | None => blank (sub t 0 hi)
       | Some c =>
           exists a b,
             0 <= a /\ a < b /\ b <= hi /\ c = sub t a b
             /\ blank (sub t b hi)
             /\ (start <= a -> blank (sub t start a))
             /\ nonspace_at t (b - 1)
       end.

(** ** rag_index.py: [join_non_empty] *)

(** [sep.join(ls)]. *)
Fixpoint join_with (sep : pystr) (ls : list pystr) : pystr :=
  match ls with
  | [] => []
  | [l] => l
  | l :: ls' => l ++ sep ++ join_with sep ls'
  end.

Definition join_non_empty (parts : list pystr) (sep : pystr) : pystr :=
  join_with sep (filter (fun p => truthy p = true) (map strip parts)).

(** ** json_to_pdf.py: [ensure_absolute_url] *)

(** [s.startswith(p)]. *)
Definition startswith (p s : pystr) : bool := bool_decide (p `prefix_of` s).

Definition ensure_absolute_url (url_value : pystr) : pystr :=
  if truthy url_value then
    let url_value := strip url_value in
    if startswith (py "http://") url_value || startswith (py "https://") url_value
    then url_value
    else if startswith (py "/") url_value
    then py "https://www.sp.senac.br" ++ url_value
    else url_value
  else [].

(** ** json_to_pdf.py: [clean_html_text], [format_disciplines],
       [prepare_field_text] and [format_section_block] *)

(** The three patterns [\n\s*\n], [\n\s*\n+] and [\n\s*\n\s*\n] match inside
    one whitespace run, from a line feed to the last line feed of the run,
    when the run has at least [need] line feeds from there on (two, two and
    three).  The scanner state, once a line feed is read: the characters of
    the run read since, the number of line feeds among them, and what
    follows the last of these. *)
Definition flush_nl_run (need : nat) (repl : pystr)
    (st : option (pystr * nat * pystr)) : pystr :=
  match st with
  | None => []
  | Some (raw, nls, tail) => if (need <=? nls)%nat then repl ++ tail else raw
  end.

Fixpoint sub_nl_run (need : nat) (repl : pystr)
    (st : option (pystr * nat * pystr)) (s : pystr) : pystr :=
  match s with
  | [] => flush_nl_run need repl st
  | c :: r =>
      match st with
      | None =>
          if (c =? NL)%N then sub_nl_run need repl (Some ([c], 1%nat, [])) r
          else c :: sub_nl_run need repl None r
      | Some (raw, nls, tail) =>
          if (c =? NL)%N
          then sub_nl_run need repl (Some (raw ++ [c], S nls, [])) r
          else if is_space c
          then sub_nl_run need repl (Some (raw ++ [c], nls, tail ++ [c])) r
          else flush_nl_run need repl st ++ c :: sub_nl_run need repl None r
      end
  end.

(** [re.sub(r" +", " ", s)]. *)
Fixpoint sub_spaces (in_run : bool) (s : pystr) : pystr :=
  match s with
  | [] => []
  | c :: r =>
      if (c =? SP)%N
      then (if in_run then sub_spaces true r else SP :: sub_spaces true r)
      else c :: sub_spaces false r
  end.

Definition PIPE : char := 124%N.
Definition COLON : char := 58%N.

(** [re.match(r'^[A-Z][^:]*:', line)] and [re.match(r'^[A-Z][^:]+$', line)]
    on a line without line feed. *)
Definition is_upper (c : char) : bool := ((65 <=? c) && (c <=? 90))%N.

Definition title_colon_match (line : pystr) : bool :=
  match line with
  | c :: r => is_upper c && bool_decide (COLON ∈ r)
  | [] => false
  end.

Definition title_plain_match (line : pystr) : bool :=
  match line with
  | c :: r => is_upper c && truthy r && bool_decide (COLON ∉ r)
  | [] => false
  end.

Section Fields.
(** [html.unescape] (the table of HTML entities) and the compiled pattern
    [\d+º\s+semestre] with [re.IGNORECASE] are taken as given. *)
Variable unescape : pystr -> pystr.
Variable sem_re_match : pystr -> bool.

Definition clean_html_text (html_text : pystr) : pystr :=
  if truthy html_text then
    let text := unescape html_text in
    let text := strip_tags false text in
    let text := sub_nl_run 2 [NL; NL] None text in
    let text := sub_spaces false text in
    strip text
  else [].

(** The guards shared by the two title branches of [format_disciplines]. *)
Definition title_guards (line : pystr) : bool :=
  (5 <? len line) && negb (sem_re_match line)
  && negb (startswith (py "Voc" ++ [234%N; SP]) line)
  && negb (startswith (py "Esta disciplina") line)
  && negb (startswith (py "Aqui, voc" ++ [234%N]) line)
  && negb (startswith (py "Um dos diferenciais") line)
  && negb (startswith (py "Disciplinas") line).

(** The body of the loop over the lines: what is appended to
    [formatted_lines]. *)
Definition format_line (line : pystr) : list pystr :=
  let line := strip line in
  if truthy line then
    if bool_decide (line = [PIPE]) || bool_decide (line = [PIPE; PIPE]) then []
    else if sem_re_match line then [NL :: line]
    else if title_colon_match line && title_guards line then [NL :: line]
    else if title_plain_match line && title_guards line then [NL :: line]
    else [line]
  else [].

Definition formatted_lines (text : pystr) : list pystr :=
  concat (map format_line (split_on NL (clean_html_text text))).

Definition format_disciplines (text : pystr) : pystr :=
  if truthy text then
    let result := join_nl (formatted_lines text) in
    let result := sub_nl_run 3 [NL; NL] None result in
    strip result
  else [].

Definition prepare_field_text (field_name raw_text : pystr) : pystr :=
  if truthy raw_text then
    let prepared :=
      if bool_decide (field_name = py "oqueVouAprender")
      then format_disciplines raw_text
      else clean_html_text raw_text in
    let prepared := replace_char PIPE SP prepared in
    let prepared := sub_nl_run 2 [NL] None prepared in
    strip prepared
  else [].

(** [None] is Python's [None]. *)
Definition format_section_block (field_name raw_text : pystr) : option pystr :=
  let text := prepare_field_text field_name raw_text in
  if truthy text then
    let normalized := collapse_whitespace text in
    if (400 <=? len normalized) && (len normalized <=? 900) then Some normalized
    else
      let bullets := bullets_from_text text 80 140 in
      if truthy bullets then Some (join_nl bullets)
      else Some (slice normalized 0 900)
  else None.
End Fields.

(** ** json_to_pdf.py: [_wrap_line] and [_wrap_text_by_lines] of [create_pdf] *)

(** The loop of [_wrap_line]: the state is [(out_lines, cur, cur_len)]. *)
Definition wrap_line_step (width : Z) (st : list pystr * list pystr * Z)
    (w : pystr) : list pystr * list pystr * Z :=
  let '(out_lines, cur, cur_len) := st in
  let add_len := len w + (if truthy cur then 1 else 0) in
  if truthy cur && (width <? cur_len + add_len)
  then (out_lines ++ [join_sp cur], [w], len w)
  else (out_lines, cur ++ [w], cur_len + add_len).

Definition wrap_line (line : pystr) (width : Z) : pystr :=
  if len line <=? width then line
  else
    let '(out_lines, cur, _) :=
      fold_left (wrap_line_step width) (split line) ([], [], 0) in
    join_nl (if truthy cur then out_lines ++ [join_sp cur] else out_lines).

(** [s.splitlines()]: the line boundaries are LF, CR, CR LF, VT, FF, FS, GS,
    RS, NEL, LINE SEPARATOR and PARAGRAPH SEPARATOR; a final boundary opens
    no further line. *)
Definition is_linebreak (c : char) : bool :=
  ((10 <=? c) && (c <=? 13) || (28 <=? c) && (c <=? 30)
   || (c =? 133) || (c =? 8232) || (c =? 8233))%N.

Fixpoint splitlines_aux (cur : pystr) (s : pystr) : list pystr :=
  match s with
  | [] => flush cur
  | c :: r =>
      if is_linebreak c then
        match r with
        | c' :: r' =>
            if (c =? 13)%N && (c' =? 10)%N then cur :: splitlines_aux [] r'
            else cur :: splitlines_aux [] r
        | [] => [cur]
        end
      else splitlines_aux (cur ++ [c]) r
  end.

Definition splitlines (s : pystr) : list pystr := splitlines_aux [] s.

Definition wrap_text_by_lines (text : pystr) (width : Z) : pystr :=
  join_nl (map (fun l => wrap_line l width) (splitlines text)).


(** ** senac_cursos.py: [fix_text] and [deep_fix] *)

(** [s.encode("latin-1", errors="strict")]: one byte per character, when
    every character is below 256. *)
Definition latin1_encode (s : pystr) : option (list N) :=
  if forallb (fun c => (c <=? 255)%N) s then Some s else None.

(** [bs.decode("utf-8", errors="strict")]: the well-formed sequences of one
    to four bytes, without overlong forms, surrogates or code points above
    U+10FFFF. *)
Definition is_cont (b : N) : bool := ((128 <=? b) && (b <=? 191))%N.

Definition second_of_three (b0 b1 : N) : bool :=
  (if (b0 =? 224) then (160 <=? b1) && (b1 <=? 191)
   else if (b0 =? 237) then (128 <=? b1) && (b1 <=? 159)
   else is_cont b1)%N.

Definition second_of_four (b0 b1 : N) : bool :=
  (if (b0 =? 240) then (144 <=? b1) && (b1 <=? 191)
   else if (b0 =? 244) then (128 <=? b1) && (b1 <=? 143)
   else is_cont b1)%N.

Fixpoint utf8_decode (bs : list N) : option pystr :=
  match bs with
  | [] => Some []
  | b0 :: r0 =>
      if (b0 <? 128)%N then cons b0 <$> utf8_decode r0
      else if ((194 <=? b0) && (b0 <=? 223))%N then
        match r0 with
        | b1 :: r1 =>
            if is_cont b1
            then cons ((b0 - 192) * 64 + (b1 - 128))%N <$> utf8_decode r1
            else None
        | _ => None
        end
      else if ((224 <=? b0) && (b0 <=? 239))%N then
        match r0 with
        | b1 :: b2 :: r2 =>
            if second_of_three b0 b1 && is_cont b2
            then cons ((b0 - 224) * 4096 + (b1 - 128) * 64 + (b2 - 128))%N
                   <$> utf8_decode r2
            else None
        | _ => None
        end
      else if ((240 <=? b0) && (b0 <=? 244))%N then
        match r0 with
        | b1 :: b2 :: b3 :: r3 =>
            if second_of_four b0 b1 && is_cont b2 && is_cont b3
            then cons ((b0 - 240) * 262144 + (b1 - 128) * 4096
                       + (b2 - 128) * 64 + (b3 - 128))%N
                   <$> utf8_decode r3
            else None
        | _ => None
        end
      else None
  end.

(** [sum(ch >= "\u0080" for ch in s)]. *)
Fixpoint count_hi (s : pystr) : Z :=
  match s with
  | [] => 0
  | c :: r => (if (128 <=? c)%N then 1 else 0) + count_hi r
  end.

(** [fix_text] on a string: any exception of the two conversions gives
    the value back. *)
Definition fix_text_str (value : pystr) : pystr :=
  match latin1_encode value ≫= utf8_decode with
  | Some repaired =>
      if count_hi value <=? count_hi repaired then repaired else value
  | None => value
  end.

Definition fix_text (value : json) : json :=
  match value with
  | JStr s => JStr (fix_text_str s)
  | _ => value
  end.

Fixpoint deep_fix (obj : json) : json :=
  match obj with
  | JObj pairs => JObj (map (fun kv => match kv with (k, v) => (k, deep_fix v) end) pairs)
  | JArr items => JArr (map deep_fix items)
  | _ => fix_text obj
  end.

(** ** json_cursos_loader.py: [carregar_cursos] *)

(** [(d.get(k) or "").strip()]: only a string has [strip]. *)
Definition str_strip (v : json) : result pystr :=
  match v with
  | JStr s => Ok (strip s)
  | _ => Err AttributeError
  end.

Definition get_stripped (curso : json) (k : pystr) : result pystr :=
  v ← py_get curso k JNull;
  v' ← py_or v (Ok (JStr []));
  str_strip v'.

Section Loader.
(** The [str] conversion of the values that are not strings, as it is
    used by the f-strings. *)
Variable py_repr : json -> pystr.

Definition texto_curso (title formato duracao url objetivo como posso oq : pystr)
  : pystr :=
  py "Curso: " ++ title ++ [NL]
  ++ py "Formato: " ++ formato ++ [NL]
  ++ py "Dura" ++ [231%N; 227%N] ++ py "o/modalidade: " ++ duracao ++ [NL]
  ++ py "URL: " ++ url ++ [NL; NL]
  ++ py "Objetivo do curso:" ++ [NL] ++ objetivo ++ [NL; NL]
  ++ py "Como vou aprender:" ++ [NL] ++ como ++ [NL; NL]
  ++ py "Quem pode fazer esse curso:" ++ [NL] ++ posso ++ [NL; NL]
  ++ py "O que vou aprender (vis" ++ [227%N] ++ py "o geral):" ++ [NL] ++ oq ++ [NL].

(** The document of the course as a whole. *)
Definition doc_geral (article_id : json)
    (title formato duracao url texto : pystr) : json :=
  JObj [ (py "id", JStr (py_str py_repr article_id ++ py "_geral"));
         (py "text", JStr texto);
         (py "metadata",
          JObj [ (py "articleId", article_id);
                 (py "title", JStr title);
                 (py "formatoName", JStr formato);
                 (py "duracao", JStr duracao);
                 (py "url", JStr url);
                 (py "tipo_doc", JStr (py "curso_geral")) ]) ].

Definition texto_disciplina (title : pystr) (i : Z) (linha : pystr) : pystr :=
  py "Curso: " ++ title ++ [NL]
  ++ py "Se" ++ [231%N; 227%N] ++ py "o: O que vou aprender" ++ [NL]
  ++ py "Item " ++ py_repr (JInt i) ++ py ":" ++ [NL] ++ linha.

(** The document of the [i]-th item of ["oqueVouAprender"]. *)
Definition doc_item (article_id : json) (title url : pystr) (i : Z)
    (linha : pystr) : json :=
  JObj [ (py "id",
          JStr (py_str py_repr article_id ++ py "_oque_" ++ py_repr (JInt i)));
         (py "text", JStr (texto_disciplina title i linha));
         (py "metadata",
          JObj [ (py "articleId", article_id);
                 (py "title", JStr title);
                 (py "secao", JStr (py "oqueVouAprender"));
                 (py "item", JInt i);
                 (py "url", JStr url);
                 (py "tipo_doc", JStr (py "oque_item")) ]) ].

(** [[linha.strip() for linha in oq.split("\n") if linha.strip()]] *)
Definition linhas (oq : pystr) : list pystr :=
  filter (fun l => truthy l = true) (map strip (split_on NL oq)).

(** The body of [for curso in cursos]: the documents appended. *)
Definition curso_docs (curso : json) : result (list json) :=
  title ← get_stripped curso (py "title");
  formato ← get_stripped curso (py "formatoName");
  duracao ← get_stripped curso (py "modalidadeSecundariaDuracao");
  url ← get_stripped curso (py "url");
  objetivo ← get_stripped curso (py "objetivoComercial");
  como ← get_stripped curso (py "comoVouAprender");
  posso ← get_stripped curso (py "possoFazerEsseCurso");
  oq ← get_stripped curso (py "oqueVouAprender");
  let texto := texto_curso title formato duracao url objetivo como posso oq in
  article_id ← py_get curso (py "articleId") JNull;
  Ok (doc_geral article_id title formato duracao url texto
      :: imap (fun i linha => doc_item article_id title url (Z.of_nat i + 1) linha)
           (linhas oq)).

Fixpoint all_docs (docs : list json) (cursos : list json) : result (list json) :=
  match cursos with
  | [] => Ok docs
  | curso :: rest =>
      ds ← curso_docs curso;
      all_docs (docs ++ ds) rest
  end.

(** [carregar_cursos] on the parsed file [data]. *)
Definition carregar_cursos (data : json) : result (list json) :=
  cursos ← py_get data (py "cursos") (JArr []);
  courses ← py_iter cursos;
  all_docs [] courses.
End Loader.

(** ** json_to_pdf.py: [build_yaml_header] *)

(** [ensure_absolute_url(curso.get('url') or '')]: a value that is not
    empty must have [strip]. *)
Definition ensure_absolute_url_value (v : json) : result pystr :=
  if json_truthy v then
    match v with
    | JStr s => Ok (ensure_absolute_url s)
    | _ => Err AttributeError
    end
  else Ok [].

(** [(curso.get(k) or to_display.get(k) or '').strip()] *)
Definition get_either (curso to_display : json) (k : pystr) : result pystr :=
  a ← py_get curso k JNull;
  v ← py_or a (b ← py_get to_display k JNull; py_or b (Ok (JStr [])));
  str_strip v.

(** [lines.append(f"{key}: {value}")] under [if value]. *)
Definition yaml_entry (key value : pystr) : list pystr :=
  if truthy value then [key ++ py ": " ++ value] else [].

Section Header.
Variable py_repr : json -> pystr.

Definition build_yaml_header (curso : json) : result pystr :=
  a ← py_get curso (py "articleId") JNull;
  a' ← py_or a (Ok (JStr []));
  let article_id := strip (py_str py_repr a') in
  t1 ← py_get curso (py "title") JNull;
  t ← py_or t1
       (td ← py_get curso (py "toDisplay") (JObj []);
        t2 ← py_get td (py "title") JNull;
        py_or t2 (Ok (JStr [])));
  title ← str_strip t;
  td ← py_get curso (py "toDisplay") (JObj []);
  to_display ← py_or td (Ok (JObj []));
  formato ← get_either curso to_display (py "formatoName");
  duracao ← get_either curso to_display (py "modalidadeSecundariaDuracao");
  tipo ← get_either curso to_display (py "tipoName");
  u ← py_get curso (py "url") JNull;
  u' ← py_or u (Ok (JStr []));
  url ← ensure_absolute_url_value u';
  Ok (join_nl
        ([py "---course"]
         ++ yaml_entry (py "articleId") article_id
         ++ yaml_entry (py "nomeCurso") title
         ++ yaml_entry (py "formatoName") formato
         ++ yaml_entry (py "modalidadeSecundariaDuracao") duracao
         ++ yaml_entry (py "tipoName") tipo
         ++ yaml_entry (py "url") url
         ++ [py "---"])).
End Header.
(** ** Vocabulary of the further properties *)

(** The run read by [sub_nl_run] is whitespace, and it has no more line
    feeds than characters before its tail. *)
Definition nl_run_ok (st : option (pystr * nat * pystr)) : Prop :=
  match st with
  | None => True
  | Some (raw, nls, tail) =>
      blank raw /\ exists pre, raw = pre ++ tail /\ (nls <= length pre)%nat
  end.

Definition nl_run_raw (st : option (pystr * nat * pystr)) : pystr :=
  match st with None => [] | Some (raw, _, _) => raw end.

(** No two spaces in a row. *)
Definition single_spaced (s : pystr) : Prop :=
  adjacent (fun a b => ~ (a = SP /\ b = SP)) s.

(** [spaced_lines pending s]: between any two line feeds of [s] there is a
    character that is not whitespace ([pending] tells that a line feed was
    read, and only whitespace since). *)
Fixpoint spaced_lines (pending : bool) (s : pystr) : bool :=
  match s with
  | [] => true
  | c :: r =>
      if (c =? NL)%N then negb pending && spaced_lines true r
      else if is_space c then spaced_lines pending r
      else spaced_lines false r
  end.

(** The invariant of the loop of [_wrap_line], after the words [seen]. *)
Definition wrap_line_inv (width : Z) (seen : list pystr)
    (st : list pystr * list pystr * Z) : Prop :=
  let '(out_lines, cur, cur_len) := st in
  Forall word cur
  /\ Forall phrase out_lines
  /\ concat (map split out_lines) ++ cur = seen
  /\ cur_len = len (join_sp cur)
  /\ (cur = [] -> out_lines = [])
  /\ ((length cur <= 1)%nat \/ len (join_sp cur) <= width)
  /\ Forall (fun l => word l \/ len l <= width) out_lines.

(** The names under which [build_index] files the four text fields. *)
Definition FIELD_NAMES : list pystr :=
  [py "objetivo"; py "metodologia"; py "requisitos"; py "conteudo"].

(** A well-formed line of [metadata.jsonl], for a build with
    [campo_override]: the five metadata of string value and the text; the
    field is one of the four names; a non-empty override is the ["campo"];
    the text is a chunk: not empty, stripped, of at most 900 characters. *)
Definition record_ok {score : Type} (campo_override : option pystr)
    (r : gmap (list N) (value score)) : Prop :=
  exists id article_id title campo_value field_name t,
    r = <[py "text" := VStr t]>
          (<[py "field" := VStr field_name]>
             (<[py "campo" := VStr campo_value]>
                (<[py "nomeCurso" := VStr title]>
                   (<[py "articleId" := VStr article_id]>
                      (<[py "id" := VStr id]> ∅)))))
    /\ field_name ∈ FIELD_NAMES
    /\ (forall c, campo_override = Some c -> c <> [] -> campo_value = c)
    /\ t <> [] /\ strip t = t /\ len t <= 900.

(** An entry of [formatted_lines]: a line that starts and ends with a
    character that is not whitespace and has no line feed, alone or behind
    one line feed. *)
Definition formatted_entry (e : pystr) : Prop :=
  exists l, trimmed l /\ (NL ∉ l) /\ (e = l \/ e = NL :: l).

(** The line of an entry of [formatted_lines]. *)
Definition entry_line (e : pystr) : pystr :=
  match e with
  | c :: l => if (c =? NL)%N then l else e
  | [] => []
  end.

(** The lines that [format_disciplines] keeps: not blank, and not a
    separator [|] or [||]. *)
Definition kept_line (l : pystr) : Prop :=
  l <> [] /\ l <> [PIPE] /\ l <> [PIPE; PIPE].

(** The fields of a course that [carregar_cursos] reads as text. *)
Definition LOADER_FIELDS : list pystr :=
  [ py "title"; py "formatoName"; py "modalidadeSecundariaDuracao"; py "url";
    py "objetivoComercial"; py "comoVouAprender"; py "possoFazerEsseCurso";
    py "oqueVouAprender" ].

(** A value on which [(v or "").strip()] returns: a falsy one, or a
    string. *)
Definition text_or_falsy (v : json) : Prop :=
  json_truthy v = false \/ exists s, v = JStr s.

(** A course that [carregar_cursos] takes: a JSON object whose text fields
    are missing, falsy or strings. *)
Definition loadable_course (curso : json) : Prop :=
  exists pairs,
    curso = JObj pairs
    /\ Forall (fun k => text_or_falsy (default JNull (dict_lookup k pairs)))
         LOADER_FIELDS.

(** The stripped ["oqueVouAprender"] of a course, empty when it cannot be
    read. *)
Definition course_oq (curso : json) : pystr :=
  match get_stripped curso (py "oqueVouAprender") with
  | Ok oq => oq
  | Err _ => []
  end.

(** The value of a key of a document and of its metadata, and the last
    line of its text. *)
Definition doc_field (d : json) (k : pystr) : option json :=
  match d with
  | JObj pairs => dict_lookup k pairs
  | _ => None
  end.

Definition doc_meta (d : json) (k : pystr) : option json :=
  match doc_field d (py "metadata") with
  | Some m => doc_field m k
  | None => None
  end.

Definition doc_last_line (d : json) : option pystr :=
  match doc_field d (py "text") with
  | Some (JStr t) => last (split_on NL t)
  | _ => None
  end.

(** The documents of one course: the general one, then the items, all with
    the article id of the course, the items numbered from 1. *)
Definition course_block (curso : json) (block : list json) : Prop :=
  exists geral items a,
    block = geral :: items
    /\ py_get curso (py "articleId") JNull = Ok a
    /\ doc_meta geral (py "tipo_doc") = Some (JStr (py "curso_geral"))
    /\ Forall (fun d => doc_meta d (py "tipo_doc") = Some (JStr (py "oque_item")))
         items
    /\ Forall (fun d => doc_meta d (py "articleId") = Some a) block
    /\ map (fun d => doc_meta d (py "item")) items
       = map (fun i => Some (JInt (Z.of_nat i))) (seq 1 (length items))
    /\ length items = length (linhas (course_oq curso)).

(** The keys of the header of a course, in the order of the lines. *)
Definition YAML_KEYS : list pystr :=
  [ py "articleId"; py "nomeCurso"; py "formatoName";
    py "modalidadeSecundariaDuracao"; py "tipoName"; py "url" ].

(** * Properties *)

(** ** Whitespace, words and joins *)

Lemma is_space_SP : is_space SP = true.
Proof. reflexivity. Qed.

Lemma split_aux_app_space acc a c b :
  is_space c = true ->
  split_aux acc (a ++ c :: b) = split_aux acc a ++ split b.
Proof.
  intros Hc. revert acc. induction a as [|x a IH]; intros acc; simpl.
  - by rewrite Hc.
  - destruct (is_space x).
    + by rewrite IH, app_assoc.
    + apply IH.
Qed.

Lemma split_aux_word acc w :
  Forall (fun c => is_space c = false) w ->
  split_aux acc w = flush (acc ++ w).
Proof.
  intros Hw. revert acc. induction Hw as [|c w Hc _ IH]; intros acc; simpl.
  - by rewrite app_nil_r.
  - rewrite Hc, IH. by rewrite <- app_assoc.
Qed.

Lemma split_word w : word w -> split w = [w].
Proof.
  intros [Hne Hw]. unfold split. rewrite split_aux_word by done.
  simpl. by destruct w.
Qed.

Lemma split_aux_words acc s :
  Forall (fun c => is_space c = false) acc ->
  Forall word (split_aux acc s).
Proof.
  assert (Hflush : forall l,
            Forall (fun c => is_space c = false) l -> Forall word (flush l)).
  { intros [|a l] Hl; simpl; [constructor|].
    apply Forall_cons; split; [by split|constructor]. }
  revert acc. induction s as [|c r IH]; intros acc Hacc; simpl.
  - by apply Hflush.
  - destruct (is_space c) eqn:Hc.
    + apply Forall_app; split; [by apply Hflush|apply IH; constructor].
    + apply IH. apply Forall_app; split; [done|]. by repeat constructor.
Qed.

Lemma split_words s : Forall word (split s).
Proof. apply split_aux_words. constructor. Qed.

Lemma join_sp_cons w ws :
  ws <> [] -> join_sp (w :: ws) = w ++ SP :: join_sp ws.
Proof. by destruct ws. Qed.

Lemma join_sp_nil_inv ws : Forall word ws -> join_sp ws = [] -> ws = [].
Proof.
  intros Hws. destruct Hws as [|w ws [Hne _] _]; [done|].
  destruct ws; simpl; [done|]. by destruct w.
Qed.

Lemma split_join_sp ws : Forall word ws -> split (join_sp ws) = ws.
Proof.
  induction 1 as [|w ws Hw Hws IH]; [done|].
  destruct ws as [|w' ws'].
  - simpl. by apply split_word.
  - rewrite join_sp_cons by done. unfold split at 1.
    rewrite split_aux_app_space by done.
    fold (split w). rewrite split_word by done. by rewrite IH.
Qed.

Lemma rstrip_cons_nonspace c r :
  is_space c = false -> rstrip (c :: r) = c :: rstrip r.
Proof. intros Hc. simpl. rewrite Hc. by destruct (rstrip r). Qed.

Lemma rstrip_cons_space c r :
  is_space c = true ->
  rstrip (c :: r) = match rstrip r with [] => [] | r' => c :: r' end.
Proof. intros Hc. simpl. by rewrite Hc. Qed.

Lemma sub_ws_true_lstrip s : sub_ws true s = lstrip (sub_ws false s).
Proof.
  induction s as [|c r IH]; [done|]. simpl.
  destruct (is_space c) eqn:Hc; simpl.
  - clear IH.
    induction r as [|c' r IH]; [done|]. simpl.
    destruct (is_space c') eqn:Hc'; simpl; [done|]. by rewrite Hc'.
  - by rewrite Hc.
Qed.


Lemma rstrip_sub_ws s :
  (forall acc, acc <> [] ->
     join_sp (split_aux acc s) = acc ++ rstrip (sub_ws false s))
  /\ rstrip (sub_ws true s) = join_sp (split s).
Proof.
  induction s as [|c r [IHG IHH]].
  - split; [|done]. intros acc Hacc. destruct acc; [done|].
    simpl. by rewrite app_nil_r.
  - destruct (is_space c) eqn:Hc.
    + assert (Hsp : split (c :: r) = split r).
      { unfold split. simpl. by rewrite Hc. }
      split; [|simpl; rewrite Hc, Hsp; exact IHH].
      intros acc Hacc. simpl. rewrite Hc.
      assert (flush acc = [acc]) as -> by by destruct acc.
      rewrite rstrip_cons_space by done. rewrite IHH.
      pose proof (split_words r) as Hw. fold (split r).
      destruct (split r) as [|w ws] eqn:Hs.
      * simpl. by rewrite app_nil_r.
      * change ([acc] ++ w :: ws) with (acc :: w :: ws).
        rewrite join_sp_cons by done.
        destruct (join_sp (w :: ws)) eqn:Hj; [|done].
        apply join_sp_nil_inv in Hj; done.
    + split.
      * intros acc Hacc. simpl. rewrite Hc. rewrite IHG by by destruct acc.
        rewrite rstrip_cons_nonspace by done. by rewrite <- app_assoc.
      * simpl. rewrite Hc. rewrite rstrip_cons_nonspace by done.
        unfold split. simpl. rewrite Hc. by rewrite IHG.
Qed.

Lemma strip_sub_ws s : strip (sub_ws false s) = join_sp (split s).
Proof.
  unfold strip. rewrite <- sub_ws_true_lstrip. apply rstrip_sub_ws.
Qed.

Lemma collapse_whitespace_split s :
  collapse_whitespace s = join_sp (split s).
Proof.
  unfold collapse_whitespace. destruct s; [done|]. apply strip_sub_ws.
Qed.

(** ** [strip_html] *)

Lemma strip_tags_elem b s x : x ∈ strip_tags b s -> x ∈ s.
Proof.
  revert b. induction s as [|c r IH]; intros b; simpl; [done|].
  destruct b.
  - destruct (c =? GT)%N; intros H; apply elem_of_cons; right; eauto.
  - destruct ((c =? LT)%N && has_close r).
    + intros H; apply elem_of_cons; right; eauto.
    + intros [->|H]%elem_of_cons; apply elem_of_cons; [by left|right; eauto].
Qed.

Lemma has_close_false_inv r :
  has_close r = false <-> r = [] \/ (exists r', r = GT :: r') \/ GT ∉ r.
Proof.
  unfold has_close. destruct r as [|c r']; [naive_solver|].
  destruct (N.eqb_spec c GT) as [->|Hne]; simpl.
  - split; [|done]. intros _. right; left; eauto.
  - rewrite bool_decide_eq_false. split; [by auto|].
    intros [?|[[r'' ?]|?]]; [done| |done]. congruence.
Qed.

Lemma has_close_strip_tags r :
  has_close r = false -> has_close (strip_tags false r) = false.
Proof.
  rewrite !has_close_false_inv. intros [->|[[r' ->]|Hno]].
  - by left.
  - right; left. simpl. eauto.
  - right; right. intros H. apply Hno. by apply strip_tags_elem in H.
Qed.

Lemma tag_free_strip_tags b s : tag_free (strip_tags b s).
Proof.
  revert b. induction s as [|c r IH]; intros b; simpl; [done|].
  destruct b.
  - destruct (c =? GT)%N; apply IH.
  - destruct (N.eqb_spec c LT) as [->|Hne]; simpl.
    + destruct (has_close r) eqn:Hcl; [apply IH|].
      split; [|apply IH]. intros _. by apply has_close_strip_tags.
    + split; [done|apply IH].
Qed.

Lemma strip_tags_tag_free s : tag_free s -> strip_tags false s = s.
Proof.
  induction s as [|c r IH]; simpl; [done|]. intros [Hc Hr].
  destruct (N.eqb_spec c LT) as [->|Hne]; simpl.
  - rewrite Hc by done. by rewrite IH.
  - by rewrite IH.
Qed.

Lemma ws_edit_elem x y c : ws_edit x y -> c ∈ y -> c ∈ x \/ is_space c = true.
Proof.
  induction 1 as [|c0 x y _ IH|c0 x y Hc0 _ IH|c0 c0' x y Hc0 Hc0' _ IH];
    intros Hin.
  - by apply elem_of_nil in Hin.
  - apply elem_of_cons in Hin as [->|Hin]; [left; by left|].
    destruct (IH Hin); [left; by right|by right].
  - destruct (IH Hin); [left; by right|by right].
  - apply elem_of_cons in Hin as [->|Hin]; [by right|].
    destruct (IH Hin); [left; by right|by right].
Qed.

Lemma has_close_ws_edit x y :
  ws_edit x y -> has_close x = false -> has_close y = false.
Proof.
  intros He. rewrite !has_close_false_inv. intros [->|[[r' ->]|Hno]].
  - left. by inversion He.
  - right; left. inversion He; subst; eauto; done.
  - right; right. intros H. destruct (ws_edit_elem _ _ _ He H); done.
Qed.

Lemma tag_free_ws_edit x y : ws_edit x y -> tag_free x -> tag_free y.
Proof.
  induction 1 as [|c x y He IH|c x y Hc He IH|c c' x y Hc Hc' He IH];
    simpl; [done| | |].
  - intros [H1 H2]. split; [|by apply IH].
    intros Hc. eapply has_close_ws_edit; eauto.
  - intros [_ H2]. by apply IH.
  - intros [_ H2]. split; [|by apply IH]. intros ->. done.
Qed.

Lemma ws_edit_refl x : ws_edit x x.
Proof. induction x; by constructor. Qed.

Lemma ws_edit_replace_nbsp x : ws_edit x (replace_char NBSP SP x).
Proof.
  induction x as [|c x IH]; simpl; [constructor|].
  destruct (N.eqb_spec c NBSP) as [->|Hne]; by constructor.
Qed.

Lemma ws_edit_sub_ws b x : ws_edit x (sub_ws b x).
Proof.
  revert b. induction x as [|c x IH]; intros b; simpl; [constructor|].
  destruct (is_space c) eqn:Hc; [|by constructor].
  destruct b; by constructor.
Qed.

Lemma ws_edit_lstrip x : ws_edit x (lstrip x).
Proof.
  induction x as [|c x IH]; simpl; [constructor|].
  destruct (is_space c) eqn:Hc; [by constructor|apply ws_edit_refl].
Qed.

Lemma ws_edit_rstrip x : ws_edit x (rstrip x).
Proof.
  induction x as [|c x IH]; [constructor|].
  destruct (is_space c) eqn:Hc.
  - rewrite rstrip_cons_space by done.
    destruct (rstrip x); by constructor.
  - rewrite rstrip_cons_nonspace by done. by constructor.
Qed.

Lemma tag_free_strip x : tag_free x -> tag_free (strip x).
Proof.
  intros H. unfold strip.
  eapply tag_free_ws_edit; [apply ws_edit_rstrip|].
  eapply tag_free_ws_edit; [apply ws_edit_lstrip|done].
Qed.

(** A joined list of words is left alone by every step of [strip_html]
    but the tag removal. *)
Lemma join_sp_chars ws c :
  Forall word ws -> c ∈ join_sp ws -> c = SP \/ is_space c = false.
Proof.
  induction 1 as [|w ws [_ Hw] Hws IH]; [by intros ?%elem_of_nil|].
  rewrite Forall_forall in Hw.
  destruct ws as [|w' ws'].
  - simpl. intros H. right. by apply Hw.
  - rewrite join_sp_cons by done.
    intros [H|[->|H]%elem_of_cons]%elem_of_app; auto.
Qed.

Lemma replace_nbsp_join_sp ws :
  Forall word ws -> replace_char NBSP SP (join_sp ws) = join_sp ws.
Proof.
  intros Hws. unfold replace_char.
  rewrite <- (map_id (join_sp ws)) at 2.
  apply map_ext_in. intros c Hc%list_elem_of_In.
  destruct (N.eqb_spec c NBSP) as [->|]; [|done].
  destruct (join_sp_chars _ _ Hws Hc); done.
Qed.

Lemma strip_sub_ws_join_sp ws :
  Forall word ws -> strip (sub_ws false (join_sp ws)) = join_sp ws.
Proof. intros Hws. by rewrite strip_sub_ws, split_join_sp. Qed.

(** Clean text passes through [strip_html] unchanged. *)
Lemma strip_html_clean ws :
  Forall word ws -> tag_free (join_sp ws) ->
  strip_html (join_sp ws) = join_sp ws.
Proof.
  intros Hws Htf. unfold strip_html.
  destruct (join_sp ws) as [|c x] eqn:Hj; [done|].
  simpl truthy. cbv iota zeta. rewrite <- Hj.
  rewrite strip_tags_tag_free by (by rewrite Hj).
  rewrite replace_nbsp_join_sp by done.
  by apply strip_sub_ws_join_sp.
Qed.

Lemma strip_html_shape s :
  exists ws, Forall word ws /\ tag_free (join_sp ws) /\ strip_html s = join_sp ws.
Proof.
  unfold strip_html. destruct s as [|c s']; simpl truthy; cbv iota zeta.
  - exists []. by repeat split.
  - set (v := replace_char NBSP SP (strip_tags false (c :: s'))).
    exists (split v). split; [apply split_words|].
    rewrite <- strip_sub_ws. split; [|done].
    apply tag_free_strip.
    eapply tag_free_ws_edit; [apply ws_edit_sub_ws|].
    eapply tag_free_ws_edit; [apply ws_edit_replace_nbsp|].
    apply tag_free_strip_tags.
Qed.

(** C9. [strip_html] is idempotent: normalising its own output changes
    nothing, for every string.  The empty string, a JSON null and a field
    missing from the course (whose default is the empty string) give the
    empty string, and no string raises. *)
Theorem strip_html_idempotent_total :
  (forall s, strip_html (strip_html s) = strip_html s)
  /\ strip_html [] = []
  /\ strip_html_value (JStr []) = Ok []
  /\ strip_html_value JNull = Ok []
  /\ (forall field,
        (v ← py_get (JObj []) field (JStr []); strip_html_value v) = Ok [])
  /\ (forall s, strip_html_value (JStr s) = Ok (strip_html s)).
Proof.
  split; [|split; [done|split; [done|split; [done|split]]]].
  - intros s. destruct (strip_html_shape s) as (ws & Hws & Htf & ->).
    by apply strip_html_clean.
  - done.
  - intros [|c s]; done.
Qed.

(** ** [simple_chunk]: progress of the window *)

Lemma len_nonneg {A} (s : list A) : 0 <= len s.
Proof. unfold len. lia. Qed.

Lemma simple_chunk_step_next text max_chars overlap start :
  let '(cut, _, next) := simple_chunk_step text max_chars overlap start in
  next = Z.max (cut - overlap) (start + 1) /\ start < next.
Proof. unfold simple_chunk_step. simpl. lia. Qed.

Lemma simple_chunk_loop_total fuel text max_chars overlap start chunks :
  len text - start <= Z.of_nat fuel ->
  is_Some (simple_chunk_loop fuel text max_chars overlap start chunks).
Proof.
  revert start chunks. induction fuel as [|fuel IH]; intros start chunks Hf; simpl.
  - destruct (Z.ltb_spec start (len text)); [lia|done].
  - destruct (Z.ltb_spec start (len text)); [|done].
    pose proof (simple_chunk_step_next text max_chars overlap start) as Hn.
    destruct (simple_chunk_step text max_chars overlap start) as [[cut chunk] next].
    apply IH. lia.
Qed.

Lemma simple_chunk_total text max_chars overlap :
  is_Some (simple_chunk text max_chars overlap).
Proof.
  unfold simple_chunk. destruct (truthy (strip text)); [|done].
  destruct (len (strip text) <=? max_chars); [done|].
  apply simple_chunk_loop_total. unfold len. lia.
Qed.


(** The chunks are the non-empty stripped windows of the trace. *)
Lemma simple_chunk_loop_S fuel text max_chars overlap start chunks :
  simple_chunk_loop (S fuel) text max_chars overlap start chunks =
  if start <? len text then
    let '(_, chunk, next) := simple_chunk_step text max_chars overlap start in
    simple_chunk_loop fuel text max_chars overlap next
      (if truthy chunk then chunks ++ [chunk] else chunks)
  else Some chunks.
Proof. reflexivity. Qed.

Lemma simple_chunk_trace_S fuel text max_chars overlap start :
  simple_chunk_trace (S fuel) text max_chars overlap start =
  if start <? len text then
    let '(cut, _, next) := simple_chunk_step text max_chars overlap start in
    (start, cut, next) :: simple_chunk_trace fuel text max_chars overlap next
  else [].
Proof. reflexivity. Qed.

Lemma simple_chunk_step_chunk text max_chars overlap start cut chunk next :
  simple_chunk_step text max_chars overlap start = (cut, chunk, next) ->
  chunk = window_chunk text (start, cut, next).
Proof. unfold simple_chunk_step. by intros [= <- <- _]. Qed.

Lemma simple_chunk_loop_trace fuel text max_chars overlap start chunks r :
  simple_chunk_loop fuel text max_chars overlap start chunks = Some r ->
  r = chunks ++ filter (fun c => truthy c = true)
        (map (window_chunk text)
             (simple_chunk_trace fuel text max_chars overlap start)).
Proof.
  revert start chunks. induction fuel as [|fuel IH]; intros start chunks.
  - simpl. destruct (start <? len text); [done|]. intros [= <-].
    by rewrite app_nil_r.
  - rewrite simple_chunk_loop_S, simple_chunk_trace_S.
    destruct (start <? len text); [|intros [= <-]; by rewrite app_nil_r].
    destruct (simple_chunk_step text max_chars overlap start)
      as [[cut chunk] next] eqn:Hstep.
    intros Hr. apply IH in Hr. rewrite Hr.
    rewrite fmap_cons, filter_cons.
    rewrite <- (simple_chunk_step_chunk _ _ _ _ _ _ _ Hstep).
    destruct chunk.
    + rewrite decide_False by done. done.
    + rewrite decide_True by done. simpl. by rewrite <- app_assoc.
Qed.

Lemma rfind_down_range s lo k :
  rfind_down s lo k = -1 \/
  (lo <= rfind_down s lo k < lo + Z.of_nat k).
Proof.
  induction k as [|k IH]; simpl; [by left|].
  destruct (dot_space_at s (lo + Z.of_nat k)); [right; lia|].
  destruct IH; [by left|right; lia].
Qed.

Lemma rfind_dot_space_range s start end_ :
  0 <= start <= len s -> 0 <= end_ <= len s ->
  rfind_dot_space s start end_ = -1 \/
  (start <= rfind_dot_space s start end_ /\ rfind_dot_space s start end_ + 2 <= end_).
Proof.
  intros Hs He. unfold rfind_dot_space, norm_index.
  destruct (Z.ltb_spec start 0); [lia|].
  destruct (Z.ltb_spec end_ 0); [lia|].
  rewrite !Z.min_l by lia.
  destruct (rfind_down_range s start (Z.to_nat (end_ - 1 - start))) as [?|?];
    [by left|right; lia].
Qed.

Lemma simple_chunk_step_cut text max_chars overlap start :
  0 < max_chars -> 0 <= start < len text ->
  let '(cut, _, _) := simple_chunk_step text max_chars overlap start in
  start < cut <= len text /\ cut <= start + max_chars.
Proof.
  intros Hm Hs. unfold simple_chunk_step.
  set (e := Z.min (len text) (start + max_chars)).
  destruct (rfind_dot_space_range text start e) as [->|[H1 H2]]; [lia|lia| |].
  - simpl. lia.
  - destruct (Z.eqb_spec (rfind_dot_space text start e) (-1)); simpl; [lia|].
    destruct (Z.leb_spec (2 * rfind_dot_space text start e) (2 * start + max_chars));
      lia.
Qed.

Lemma simple_chunk_trace_starts fuel text max_chars overlap start s c n :
  0 <= start ->
  (s, c, n) ∈ simple_chunk_trace fuel text max_chars overlap start ->
  start <= s < len text /\ (c, window_chunk text (s, c, n), n)
                            = simple_chunk_step text max_chars overlap s.
Proof.
  revert start. induction fuel as [|fuel IH]; intros start Hs; simpl.
  - by intros ?%elem_of_nil.
  - destruct (Z.ltb_spec start (len text)); [|by intros ?%elem_of_nil].
    pose proof (simple_chunk_step_next text max_chars overlap start) as Hn.
    destruct (simple_chunk_step text max_chars overlap start)
      as [[cut chunk] next] eqn:Hstep.
    intros [[= -> -> ->]|Hin]%elem_of_cons.
    + split; [lia|]. rewrite Hstep. unfold window_chunk. simpl.
      unfold simple_chunk_step in Hstep. by injection Hstep as <- <- <-.
    + apply IH in Hin; [|lia]. split; [lia|]. apply Hin.
Qed.

(** C8, as amended. Every iteration of the loop of [simple_chunk] moves
    the window start to [max (cut - overlap) (start + 1)], which is beyond
    the old start, so the loop ends on every input: [simple_chunk] returns.
    Its chunks are the non-empty stripped windows of the iterations. With
    [0 < max_chars] and [0 <= overlap] every window is non-empty and the
    next one starts at most [overlap] characters before the cut. *)
Theorem simple_chunk_progress text max_chars overlap :
  is_Some (simple_chunk text max_chars overlap)
  /\ (forall chunks,
        simple_chunk text max_chars overlap = Some chunks ->
        max_chars < len (strip text) ->
        chunks = filter (fun c => truthy c = true)
                   (map (window_chunk (strip text))
                      (simple_chunk_trace (length (strip text)) (strip text)
                         max_chars overlap 0)))
  /\ (forall fuel t s c n,
        (s, c, n) ∈ simple_chunk_trace fuel t max_chars overlap 0 ->
        n = Z.max (c - overlap) (s + 1) /\ s < n)
  /\ (0 < max_chars -> 0 <= overlap ->
      forall fuel t s c n,
        (s, c, n) ∈ simple_chunk_trace fuel t max_chars overlap 0 ->
        s < c <= len t /\ c - overlap <= n <= c).
Proof.
  split; [apply simple_chunk_total|]. split; [|split].
  - intros chunks. unfold simple_chunk.
    destruct (truthy (strip text)) eqn:Ht.
    + destruct (Z.leb_spec (len (strip text)) max_chars) as [Hle|Hlt].
      * intros _ ?. lia.
      * intros Hr%simple_chunk_loop_trace _. by rewrite Hr.
    + destruct (strip text); [|done]. by intros [= <-] _.
  - intros fuel t s c n Hin.
    apply simple_chunk_trace_starts in Hin as [Hs Hstep]; [|lia].
    pose proof (simple_chunk_step_next t max_chars overlap s) as Hn.
    by rewrite <- Hstep in Hn.
  - intros Hm Ho fuel t s c n Hin.
    apply simple_chunk_trace_starts in Hin as [Hs Hstep]; [|lia].
    pose proof (simple_chunk_step_next t max_chars overlap s) as Hn.
    pose proof (simple_chunk_step_cut t max_chars overlap s Hm ltac:(lia)) as Hc.
    rewrite <- Hstep in Hn, Hc. lia.
Qed.

Lemma simple_chunk_progress_witness :
  is_Some (simple_chunk (py "abcd") 3 1)
  /\ (2 < 4 <= len (py "abcd") /\ 4 - 1 <= 3 <= 4).
Proof.
  destruct (simple_chunk_progress (py "abcd") 3 1) as (H1 & _ & _ & H4).
  split; [exact H1|].
  apply (H4 ltac:(lia) ltac:(lia) 4%nat (py "abcd") 2 4 3).
  apply list_elem_of_lookup. exists 1%nat. reflexivity.
Defined.

(** C8, as stated, fails: on a text of 1000 letters and the default
    bounds, the third iteration cuts at 1000 and moves the start from 850
    to 851, not to [cut - overlap = 850]. *)
Lemma simple_chunk_next_start_counterexample :
  simple_chunk_trace 3 (repeat 97%N 1000) 900 150 0
    = [(0, 900, 750); (750, 1000, 850); (850, 1000, 851)]
  /\ 851 <> 1000 - 150.
Proof. split; [vm_compute; reflexivity|lia]. Qed.

(** ** [build_index] *)

Section IndexFacts.
Context {vector score model : Type}.
Variable load_model : pystr -> option model.
Variable encode : model -> pystr -> vector.
Variable model_dim : model -> nat.
Variable uuid4 : nat -> pystr.
Variable py_repr : json -> pystr.

Abbreviation build_index :=
  (build_index vector score model load_model encode model_dim uuid4 py_repr).
Abbreviation all_snippets := (all_snippets score uuid4 py_repr).
Abbreviation record := (gmap (list N) (value score)).

(** The loop that writes [metadata.jsonl] adds the records up to the
    first that does not encode, and ends well when there is none. *)
Lemma write_records_spec (written records : list record) :
  exists pre rest,
    records = pre ++ rest
    /\ Forall (fun r => record_encodable r = true) pre
    /\ ((rest = []
         /\ write_records written records = (written ++ pre, Ok ()))
        \/ (exists r rest',
              rest = r :: rest' /\ record_encodable r = false
              /\ write_records written records
                 = (written ++ pre, Err UnicodeEncodeError))).
Proof.
  revert written. induction records as [|r records IH]; intros written.
  - exists [], []. split; [done|]. split; [constructor|].
    left. by rewrite app_nil_r.
  - cbn [write_records]. destruct (record_encodable r) eqn:Hr.
    + destruct (IH (written ++ [r])) as (pre & rest & -> & Hd & H).
      exists (r :: pre), rest. split; [done|]. split; [by constructor|].
      rewrite <- app_assoc in H. exact H.
    + exists [], (r :: records). split; [done|]. split; [constructor|].
      right. exists r, records. by rewrite app_nil_r.
Qed.

Lemma write_records_ok (written records written' : list record) :
  write_records written records = (written', Ok ()) ->
  written' = written ++ records.
Proof.
  destruct (write_records_spec written records)
    as (pre & rest & -> & _ & [[-> ->]|(r & rest' & _ & _ & ->)]).
  - intros [= <-]. by rewrite app_nil_r.
  - done.
Qed.

(** A run that ends well has loaded the model, collected at least one
    snippet and written both artifacts from the same list of snippets. *)
Lemma build_index_ok_inv data model_name campo fs fs' :
  build_index data model_name campo fs = (fs', Some (Ok ())) ->
  exists m cursos courses snippets,
    load_model model_name = Some m
    /\ py_get data (py "cursos") (JArr []) = Ok cursos
    /\ py_iter cursos = Ok courses
    /\ all_snippets campo [] courses = Ok (Some snippets)
    /\ snippets <> []
    /\ fs' = Artifacts true
               (Some (Readable (FlatIndex (model_dim m)
                                  (map (encode m) (map text snippets)))))
               (Some (record_lines (map snippet_record snippets))).
Proof.
  unfold build_index.
  destruct (py_get data (py "cursos") (JArr [])) as [cursos|e]; [|done].
  destruct (json_truthy cursos); [|done].
  destruct (load_model model_name) as [m|]; [|done].
  destruct (py_iter cursos) as [courses|e] eqn:Hit; [|done].
  destruct (all_snippets campo [] courses) as [[snippets|]|e] eqn:Hall;
    [|done|done].
  destruct (truthy snippets) eqn:Hne; [|done]. cbv zeta.
  destruct (write_records [] (map snippet_record snippets))
    as [written outcome] eqn:Hw.
  intros [= <- ->]. apply write_records_ok in Hw as ->.
  exists m, cursos, courses, snippets.
  repeat split; try done. by destruct snippets.
Qed.

Lemma snippet_record_text (s : Snippet score) :
  snippet_record s !! py "text" = Some (VStr (text s)).
Proof. unfold snippet_record. apply lookup_insert_eq. Qed.

(** C1. After a build that ends well, the vectors of the index and the
    lines of [metadata.jsonl] come from one list of chunk texts, in the same
    order: there are as many vectors as lines, and the vector at ordinal [i]
    is the embedding of the ["text"] field of line [i]. *)
Theorem build_index_alignment data model_name campo fs fs' :
  build_index data model_name campo fs = (fs', Some (Ok ())) ->
  exists m index records texts,
    load_model model_name = Some m
    /\ index_faiss fs' = Some (Readable index)
    /\ metadata_jsonl fs' = Some (record_lines records)
    /\ index_vectors index = map (encode m) texts
    /\ map (fun r : record => r !! py "text") records
       = map (fun t => Some (VStr t)) texts
    /\ length (index_vectors index) = length records
    /\ (forall i (r : record), records !! i = Some r ->
          exists t, r !! py "text" = Some (VStr t)
                    /\ index_vectors index !! i = Some (encode m t)).
Proof.
  intros (m & cursos & courses & snippets & Hm & _ & _ & _ & _ & ->)
    %build_index_ok_inv.
  exists m, (FlatIndex (model_dim m)
               (map (encode m) (map text snippets))),
    (map snippet_record snippets), (map text snippets).
  repeat split; simpl; try done.
  - rewrite !map_map. apply map_ext. intros s. apply snippet_record_text.
  - by rewrite !length_map.
  - intros i r Hr. apply list_lookup_fmap_Some_1 in Hr as (s & -> & Hs).
    exists (text s). split; [apply snippet_record_text|].
    rewrite map_map. change (map ?f ?l) with (f <$> l).
    by rewrite list_lookup_fmap, Hs.
Qed.

Lemma fields_snippets_returns article_id title campo_value fields snippets :
  is_Some (fields_snippets score uuid4 article_id title campo_value snippets fields).
Proof.
  revert snippets. induction fields as [|[fname ftext] rest IH]; intros snippets;
    simpl; [done|].
  destruct (truthy ftext); simpl; [|apply IH].
  destruct (simple_chunk_total ftext 900 150) as [chunks ->]. simpl. apply IH.
Qed.

Lemma course_snippets_returns campo snippets course :
  course_snippets score uuid4 py_repr campo snippets course <> Ok None.
Proof.
  unfold course_snippets, mbind, result_bind.
  repeat match goal with
         | |- match ?x with Ok _ => _ | Err _ => _ end <> _ =>
             destruct x; [|done]
         end.
  match goal with
  | |- Ok (fields_snippets _ _ ?a ?t ?c ?s ?f) <> _ =>
      destruct (fields_snippets_returns a t c f s) as [r ->]
  end.
  done.
Qed.

Lemma all_snippets_returns campo snippets courses :
  all_snippets campo snippets courses <> Ok None.
Proof.
  revert snippets. induction courses as [|c rest IH]; intros snippets; simpl;
    [done|].
  pose proof (course_snippets_returns campo snippets c) as Hc.
  destruct (course_snippets score uuid4 py_repr campo snippets c) as [[s|]|e];
    simpl; [apply IH|done|done].
Qed.

Lemma course_snippets_blank campo snippets course :
  blank_course course ->
  course_snippets score uuid4 py_repr campo snippets course = Ok (Some snippets).
Proof.
  intros (pairs & -> & Htd & Hf).
  unfold text_fields in Hf.
  apply Forall_cons in Hf as [H1 Hf]. apply Forall_cons in Hf as [H2 Hf].
  apply Forall_cons in Hf as [H3 Hf]. apply Forall_cons in Hf as [H4 _].
  unfold course_snippets, py_get. simpl.
  rewrite H1, H2, H3, H4. simpl.
  destruct Htd as [->|[td ->]]; simpl.
  - unfold py_or. destruct (json_truthy (default JNull _)); simpl; done.
  - unfold py_or.
    destruct (json_truthy (default JNull (dict_lookup (py "title") pairs)));
      simpl; destruct (truthy td); simpl;
      try destruct (json_truthy (default JNull (dict_lookup (py "title") td)));
      simpl;
      try destruct (json_truthy (default JNull (dict_lookup (py "tipoName") td)));
      simpl; done.
Qed.

Lemma all_snippets_blank campo snippets courses :
  Forall blank_course courses ->
  all_snippets campo snippets courses = Ok (Some snippets).
Proof.
  induction 1 as [|c rest Hc _ IH]; simpl; [done|].
  rewrite course_snippets_blank by done. simpl. apply IH.
Qed.

(** C7. A corpus without the ["cursos"] key, or with an empty array,
    raises the [ValueError] on the missing corpus; a corpus that yields no
    snippet, as when no course has text, raises the [ValueError] on the
    missing content (once the model is loaded); both leave the directory as
    they found it: nothing is created or written.  So does every build that
    raises, unless it raises the [UnicodeEncodeError] of a line of
    [metadata.jsonl] that does not encode; and every build returns. *)
Theorem build_index_failure_atomic data model_name campo fs :
  (forall fs' outcome,
     build_index data model_name campo fs = (fs', outcome) ->
     outcome <> None
     /\ (forall e, outcome = Some (Err e) -> e <> UnicodeEncodeError ->
         fs' = fs))
  /\ (forall pairs,
        data = JObj pairs ->
        dict_lookup (py "cursos") pairs = None
        \/ dict_lookup (py "cursos") pairs = Some (JArr []) ->
        build_index data model_name campo fs
        = (fs, Some (Err (ValueError msg_no_cursos))))
  /\ (forall cursos courses m,
        py_get data (py "cursos") (JArr []) = Ok cursos ->
        json_truthy cursos = true ->
        load_model model_name = Some m ->
        py_iter cursos = Ok courses ->
        all_snippets campo [] courses = Ok (Some []) ->
        build_index data model_name campo fs
        = (fs, Some (Err (ValueError msg_no_content))))
  /\ (forall pairs courses m,
        data = JObj pairs ->
        dict_lookup (py "cursos") pairs = Some (JArr courses) ->
        courses <> [] ->
        Forall blank_course courses ->
        load_model model_name = Some m ->
        build_index data model_name campo fs
        = (fs, Some (Err (ValueError msg_no_content)))).
Proof.
  assert (Hzero : forall cursos courses m,
    py_get data (py "cursos") (JArr []) = Ok cursos ->
    json_truthy cursos = true ->
    load_model model_name = Some m ->
    py_iter cursos = Ok courses ->
    all_snippets campo [] courses = Ok (Some []) ->
    build_index data model_name campo fs
    = (fs, Some (Err (ValueError msg_no_content)))).
  { intros cursos courses m Hg Ht Hm Hi Ha. unfold build_index.
    by rewrite Hg, Ht, Hm, Hi, Ha. }
  split; [|split; [|split; [exact Hzero|]]].
  - intros fs' outcome. unfold build_index.
    destruct (py_get data (py "cursos") (JArr [])) as [cursos|e];
      [|by intros [= <- <-]; split; [|intros ? [= <-]]].
    destruct (json_truthy cursos);
      [|by intros [= <- <-]; split; [|intros ? [= <-]]].
    destruct (load_model model_name) as [m|];
      [|by intros [= <- <-]; split; [|intros ? [= <-]]].
    destruct (py_iter cursos) as [courses|e];
      [|by intros [= <- <-]; split; [|intros ? [= <-]]].
    pose proof (all_snippets_returns campo [] courses) as Hret.
    destruct (all_snippets campo [] courses) as [[snippets|]|e];
      [|done|by intros [= <- <-]; split; [|intros ? [= <-]]].
    destruct (truthy snippets);
      [|by intros [= <- <-]; split; [|intros ? [= <-]]].
    cbv zeta.
    destruct (write_records_spec [] (map snippet_record snippets))
      as (pre & rest & _ & _ & [[_ ->]|(r & rest' & _ & _ & ->)]);
      intros [= <- <-]; (split; [done|]); intros e [= <-]; done.
  - intros pairs -> Hc. unfold build_index, py_get.
    destruct Hc as [->| ->]; done.
  - intros pairs courses m -> Hc Hne Hb Hm.
    apply (Hzero (JArr courses) courses m); try done.
    + unfold py_get. by rewrite Hc.
    + by destruct courses.
    + by apply all_snippets_blank.
Qed.
End IndexFacts.

Lemma build_index_alignment_witness :
  let data :=
    JObj [(py "cursos",
           JArr [JObj [(py "articleId", JStr (py "7"));
                       (py "title", JStr (py "Design"));
                       (py "objetivoComercial", JStr (py "<p>Learn  design.</p>"));
                       (py "comoVouAprender", JStr (py "By doing."))]])] in
  exists fs' m index records texts,
    Toy.build_index data DEFAULT_MODEL_NAME None Toy.no_directory
    = (fs', Some (Ok ()))
    /\ Toy.load_model DEFAULT_MODEL_NAME = Some m
    /\ index_faiss fs' = Some (Readable index)
    /\ metadata_jsonl fs' = Some (record_lines records)
    /\ index_vectors index = map (Toy.encode m) texts
    /\ length (index_vectors index) = length records.
Proof.
  intros data.
  set (r := Toy.build_index data DEFAULT_MODEL_NAME None Toy.no_directory).
  assert (Hr : r = (r.1, Some (Ok ()))) by (vm_compute; reflexivity).
  destruct (build_index_alignment Toy.load_model Toy.encode Toy.model_dim
              Toy.uuid4 Toy.py_repr data DEFAULT_MODEL_NAME None
              Toy.no_directory r.1 Hr)
    as (m & index & records & texts & H1 & H2 & H3 & H4 & _ & H6 & _).
  exists r.1, m, index, records, texts. repeat split; assumption.
Defined.

Lemma build_index_failure_atomic_witness :
  let blank := JObj [(py "title", JStr (py "Design"));
                     (py "objetivoComercial", JStr (py "<p> </p>"))] in
  Toy.build_index (JObj [(py "cursos", JArr [blank])]) DEFAULT_MODEL_NAME None
    Toy.no_directory
  = (Toy.no_directory, Some (Err (ValueError msg_no_content)))
  /\ Toy.build_index (JObj [(py "courses", JArr [blank])]) DEFAULT_MODEL_NAME None
       Toy.no_directory
     = (Toy.no_directory, Some (Err (ValueError msg_no_cursos))).
Proof.
  intros blank. split.
  - destruct (build_index_failure_atomic Toy.load_model Toy.encode Toy.model_dim
                Toy.uuid4 Toy.py_repr (JObj [(py "cursos", JArr [blank])])
                DEFAULT_MODEL_NAME None Toy.no_directory) as (_ & _ & _ & H4).
    apply (H4 [(py "cursos", JArr [blank])] [blank] ());
      [reflexivity|reflexivity|discriminate| |reflexivity].
    constructor; [|constructor].
    eexists. split; [reflexivity|]. split; [left; reflexivity|].
    repeat constructor.
  - destruct (build_index_failure_atomic Toy.load_model Toy.encode Toy.model_dim
                Toy.uuid4 Toy.py_repr (JObj [(py "courses", JArr [blank])])
                DEFAULT_MODEL_NAME None Toy.no_directory) as (_ & H2 & _).
    apply (H2 [(py "courses", JArr [blank])]); [reflexivity|left; reflexivity].
Defined.

(** ** [query_index] *)

Section QueryFacts.
Context {vector score model : Type}.
Variable load_model : pystr -> option model.
Variable encode : model -> pystr -> vector.

Abbreviation record := (gmap (list N) (value score)).

Lemma hit_record_cases (metadata : list (entry score)) sc idx :
  (idx < 0 \/ len metadata <= idx -> hit_record metadata (sc, idx) = Ok [])
  /\ (0 <= idx < len metadata ->
      exists e, metadata !! Z.to_nat idx = Some e
                /\ hit_record metadata (sc, idx)
                   = (rec ← scored_copy e sc; Ok [rec])).
Proof.
  unfold hit_record. split.
  - intros [H|H].
    + destruct (Z.ltb_spec idx 0); [done|lia].
    + destruct (Z.ltb_spec idx 0); [done|].
      destruct (Z.leb_spec (len metadata) idx); [done|lia].
  - intros H.
    destruct (Z.ltb_spec idx 0); [lia|].
    destruct (Z.leb_spec (len metadata) idx); [lia|]. simpl.
    destruct (lookup_lt_is_Some_2 metadata (Z.to_nat idx)) as [e He].
    { unfold len in *. lia. }
    exists e. by rewrite He.
Qed.

Lemma scored_copy_Ok (e : entry score) sc r :
  scored_copy e sc = Ok r ->
  exists rec, e = EDict rec /\ r = <[py "score" := VScore sc]> rec.
Proof. destruct e; simpl; try done. intros [= <-]. eauto. Qed.

Lemma hit_record_Ok (metadata : list (entry score)) sc idx recs :
  hit_record metadata (sc, idx) = Ok recs ->
  (length recs <= 1)%nat
  /\ forall r, r ∈ recs ->
       exists rec, 0 <= idx < len metadata
                   /\ metadata !! Z.to_nat idx = Some (EDict rec)
                   /\ r = <[py "score" := VScore sc]> rec.
Proof.
  unfold hit_record.
  destruct (Z.ltb_spec idx 0);
    [intros [= <-]; split; [simpl; lia|by intros ? ?%elem_of_nil]|].
  destruct (Z.leb_spec (len metadata) idx);
    [intros [= <-]; split; [simpl; lia|by intros ? ?%elem_of_nil]|].
  simpl. destruct (metadata !! Z.to_nat idx) as [e|] eqn:He;
    [|intros [= <-]; split; [simpl; lia|by intros ? ?%elem_of_nil]].
  destruct (scored_copy e sc) as [r|err] eqn:Hc; [|done].
  simpl. intros [= <-]. split; [simpl; lia|].
  intros r' ->%list_elem_of_singleton.
  apply scored_copy_Ok in Hc as (rec & -> & ->).
  exists rec. repeat split; try done; lia.
Qed.

Lemma hit_records_Ok (metadata : list (entry score)) hits results out :
  hit_records metadata results hits = Ok out ->
  exists recs,
    out = results ++ recs
    /\ (length recs <= length hits)%nat
    /\ forall r, r ∈ recs ->
         exists sc idx rec,
           (sc, idx) ∈ hits /\ 0 <= idx < len metadata
           /\ metadata !! Z.to_nat idx = Some (EDict rec)
           /\ r = <[py "score" := VScore sc]> rec.
Proof.
  revert results. induction hits as [|[sc idx] hits IH]; intros results.
  - intros [= <-]. exists []. rewrite app_nil_r. split; [done|].
    split; [done|]. by intros ? ?%elem_of_nil.
  - cbn [hit_records].
    destruct (hit_record metadata (sc, idx)) as [recs|err] eqn:Hh; [|done].
    simpl. intros (recs' & -> & Hlen & Hall)%IH.
    apply hit_record_Ok in Hh as [Hl Hr].
    exists (recs ++ recs'). rewrite app_assoc. split; [done|]. split.
    + rewrite length_app. simpl. lia.
    + intros r [Hin|Hin]%elem_of_app.
      * destruct (Hr r Hin) as (rec & H1 & H2 & H3).
        exists sc, idx, rec. repeat split; try done; try lia. by left.
      * destruct (Hall r Hin) as (sc' & idx' & rec & H1 & H2 & H3 & H4).
        exists sc', idx', rec. repeat split; try done; try lia. by right.
Qed.

(** C10. Whatever the search returns: a pair whose ordinal is negative or
    not below the number of metadata entries contributes nothing, any other
    pair contributes the copy of the entry at its ordinal with the score
    inserted; so every result is a stored record plus a ["score"], and when
    the search returns at most [k] pairs there are at most [min top_k n]
    results. *)
Theorem query_index_in_range
    (search : flat_index vector -> vector -> Z -> result (list (score * Z)))
    fs query model_name top_k results :
  (forall index q k hits,
     search index q k = Ok hits -> (length hits <= Z.to_nat k)%nat) ->
  query_index vector score model load_model encode search fs query model_name top_k
  = Ok results ->
  exists lines (metadata : list (entry score)),
    metadata_jsonl fs = Some lines
    /\ read_metadata [] lines = Ok metadata
    /\ (forall sc idx,
          (idx < 0 \/ len metadata <= idx ->
           hit_record metadata (sc, idx) = Ok [])
          /\ (0 <= idx < len metadata ->
              exists e, metadata !! Z.to_nat idx = Some e
                        /\ hit_record metadata (sc, idx)
                           = (rec ← scored_copy e sc; Ok [rec])))
    /\ Forall (fun r => exists sc rec,
                 EDict rec ∈ metadata
                 /\ r = <[py "score" := VScore sc]> rec) results
    /\ (length results <= Z.to_nat (Z.min top_k (len metadata)))%nat.
Proof.
  intros Hsearch. unfold query_index, load_index.
  destruct (index_faiss fs) as [file|]; [|done].
  destruct (metadata_jsonl fs) as [lines|]; [|done].
  destruct file as [index|]; [|done].
  destruct (load_model model_name) as [m|]; [|done]. simpl.
  destruct (read_metadata [] lines) as [metadata|err] eqn:Hmeta; [|done].
  simpl.
  destruct (search index (encode m query) (Z.min top_k (len metadata)))
    as [hits|e] eqn:Hhits; [|done].
  simpl. intros (recs & -> & Hlen & Hall)%hit_records_Ok.
  exists lines, metadata. split; [done|]. split; [done|].
  split; [intros; apply hit_record_cases|]. split.
  - apply Forall_forall. intros r Hr.
    destruct (Hall r Hr) as (sc & idx & rec & _ & _ & Hrec & ->).
    exists sc, rec. split; [|done]. by eapply list_elem_of_lookup_2.
  - simpl. etrans; [exact Hlen|]. by eapply Hsearch.
Qed.
End QueryFacts.

Lemma flat_ip_search_length {vector score : Type}
    (inner : vector -> vector -> score) (score_leb : score -> score -> bool)
    index q k hits :
  flat_ip_search vector score inner score_leb index q k = Ok hits ->
  (length hits <= Z.to_nat k)%nat.
Proof. unfold flat_ip_search. intros [= <-]. rewrite length_take. lia. Qed.

Lemma query_index_in_range_witness :
  let fs := (Toy.build_index
               (JObj [(py "cursos",
                       JArr [JObj [(py "objetivoComercial", JStr (py "Learn."));
                                   (py "comoVouAprender", JStr (py "By doing."))]])])
               DEFAULT_MODEL_NAME None Toy.no_directory).1 in
  exists results lines metadata,
    Toy.query_index fs (py "doing") DEFAULT_MODEL_NAME 5 = Ok results
    /\ metadata_jsonl fs = Some lines
    /\ read_metadata [] lines = Ok metadata
    /\ (length results <= Z.to_nat (Z.min 5 (len metadata)))%nat.
Proof.
  intros fs.
  set (r := Toy.query_index fs (py "doing") DEFAULT_MODEL_NAME 5).
  assert (Hr : r = Ok (match r with Ok l => l | Err _ => [] end))
    by (vm_compute; reflexivity).
  destruct (query_index_in_range Toy.load_model Toy.encode Toy.search
              fs (py "doing") DEFAULT_MODEL_NAME 5 _
              (flat_ip_search_length Toy.inner Z.leb) Hr)
    as (lines & metadata & H1 & H2 & _ & _ & H4).
  eexists _, lines, metadata. split; [exact Hr|]. repeat split; assumption.
Defined.

(** ** The vector index, as the spec describes it *)

Section SearchFacts.
Context {vector score model : Type}.
Variable load_model : pystr -> option model.
Variable encode : model -> pystr -> vector.
Variable model_dim : model -> nat.
Variable uuid4 : nat -> pystr.
Variable py_repr : json -> pystr.
Variable inner : vector -> vector -> score.
Variable score_leb : score -> score -> bool.

Abbreviation record' := (gmap (list N) (value score)).
Abbreviation search' := (flat_ip_search vector score inner score_leb).

Lemma insert_desc_perm h hs : insert_desc score score_leb h hs ≡ₚ h :: hs.
Proof.
  induction hs as [|h' hs IH]; simpl; [done|].
  destruct (score_leb h'.1 h.1); [done|].
  rewrite IH. apply Permutation_swap.
Qed.

Lemma rank_desc_perm hs : rank_desc score score_leb hs ≡ₚ hs.
Proof.
  induction hs as [|h hs IH]; simpl; [done|].
  by rewrite insert_desc_perm, IH.
Qed.

Lemma scored_ordinals (index : flat_index vector) q :
  map snd (scored vector score inner index q)
  = map Z.of_nat (seq 0 (length (index_vectors index))).
Proof.
  unfold scored. apply list_eq. intros i.
  change (map ?f ?l) with (f <$> l).
  rewrite !list_lookup_fmap, list_lookup_imap.
  destruct (index_vectors index !! i) as [v|] eqn:Hv; simpl.
  - rewrite lookup_seq_lt; [done|]. by eapply lookup_lt_Some.
  - rewrite lookup_seq_ge; [done|]. by apply lookup_ge_None.
Qed.

Lemma scored_elem (index : flat_index vector) q sc idx :
  (sc, idx) ∈ scored vector score inner index q ->
  0 <= idx /\ exists v, index_vectors index !! Z.to_nat idx = Some v
                        /\ sc = inner q v.
Proof.
  unfold scored. intros (i & Hi)%list_elem_of_lookup.
  rewrite list_lookup_imap in Hi.
  destruct (index_vectors index !! i) as [v|] eqn:Hv; [|done].
  injection Hi as <- <-. split; [lia|]. exists v. by rewrite Nat2Z.id.
Qed.

(** The lines that [build_index] writes are read back as they are. *)
Lemma read_metadata_record_lines (records : list record') acc :
  read_metadata acc (record_lines records) = Ok (acc ++ map EDict records).
Proof.
  revert acc. induction records as [|r records IH]; intros acc; simpl.
  - by rewrite app_nil_r.
  - unfold record_lines in IH. rewrite IH. by rewrite <- app_assoc.
Qed.

Lemma hit_records_in_range (metadata : list record') hits results :
  Forall (fun hit : score * Z => 0 <= hit.2 < len metadata) hits ->
  exists recs,
    hit_records (map EDict metadata) results hits = Ok (results ++ recs)
    /\ Forall2 (fun (r : record') (hit : score * Z) =>
                  exists rec, metadata !! Z.to_nat hit.2 = Some rec
                              /\ r = <[py "score" := VScore hit.1]> rec)
               recs hits.
Proof.
  intros Hall. revert results.
  induction Hall as [|[sc idx] hits Hh _ IH]; intros results.
  - exists []. by rewrite app_nil_r.
  - cbn [hit_records]. simpl in Hh.
    destruct (lookup_lt_is_Some_2 metadata (Z.to_nat idx)) as [rec Hrec].
    { unfold len in *. lia. }
    assert (hit_record (map EDict metadata) (sc, idx)
            = Ok [ <[py "score" := VScore sc]> rec ]) as ->.
    { unfold hit_record.
      assert (len (map (@EDict score) metadata) = len metadata) as ->
        by (unfold len; by rewrite length_map).
      destruct (Z.ltb_spec idx 0); [lia|].
      destruct (Z.leb_spec (len metadata) idx); [lia|]. simpl.
      change (map ?f ?l) with (f <$> l).
      by rewrite list_lookup_fmap, Hrec. }
    simpl. destruct (IH (results ++ [<[py "score" := VScore sc]> rec]))
      as (recs & -> & HF).
    exists (<[py "score" := VScore sc]> rec :: recs).
    split; [by rewrite <- app_assoc|].
    constructor; [|done]. by exists rec.
Qed.

(** C6. On the artifacts of a build that ended well, with [n] stored
    vectors: a query returns [min top_k n] results, one per hit of the
    search; the hits have pairwise different ordinals, each the position in
    add order of a stored vector and paired with its score, and each result
    is the metadata record at that ordinal with the score; for [top_k >= n]
    the ordinals are exactly [0 .. n-1], each once. *)
Theorem query_index_clamps data build_model campo fs0 fs query model_name m top_k :
  build_index vector score model load_model encode model_dim uuid4 py_repr
    data build_model campo fs0 = (fs, Some (Ok ())) ->
  load_model model_name = Some m ->
  exists index (metadata : list record') hits results,
    index_faiss fs = Some (Readable index)
    /\ metadata_jsonl fs = Some (record_lines metadata)
    /\ length (index_vectors index) = length metadata
    /\ search' index (encode m query) (Z.min top_k (len metadata)) = Ok hits
    /\ query_index vector score model load_model encode search'
         fs query model_name top_k = Ok results
    /\ length hits = Z.to_nat (Z.min top_k (len metadata))
    /\ length results = length hits
    /\ Forall2 (fun (r : record') (hit : score * Z) =>
                  exists rec, metadata !! Z.to_nat hit.2 = Some rec
                              /\ r = <[py "score" := VScore hit.1]> rec)
               results hits
    /\ Forall (fun hit : score * Z =>
                 0 <= hit.2 < len metadata
                 /\ exists v, index_vectors index !! Z.to_nat hit.2 = Some v
                              /\ hit.1 = inner (encode m query) v) hits
    /\ NoDup (map snd hits)
    /\ (len metadata <= top_k ->
        map snd hits ≡ₚ map Z.of_nat (seq 0 (length metadata))).
Proof.
  intros (m0 & cursos & courses & snippets & Hm0 & _ & _ & _ & Hne & ->)
    %build_index_ok_inv Hm.
  set (index := FlatIndex (model_dim m0) (map (encode m0) (map text snippets))).
  set (metadata := map snippet_record snippets).
  set (k := Z.min top_k (len metadata)).
  set (q := encode m query).
  set (ranked := rank_desc score score_leb (scored vector score inner index q)).
  assert (Hlen : length (index_vectors index) = length metadata).
  { unfold index, metadata. simpl. by rewrite !length_map. }
  assert (Hranked : map snd ranked ≡ₚ map Z.of_nat (seq 0 (length metadata))).
  { unfold ranked. rewrite rank_desc_perm, scored_ordinals. by rewrite Hlen. }
  assert (Hrlen : length ranked = length metadata).
  { rewrite <- (length_map snd ranked), Hranked. by rewrite length_map, length_seq. }
  assert (Hhits : Forall (fun hit : score * Z =>
                 0 <= hit.2 < len metadata
                 /\ exists v, index_vectors index !! Z.to_nat hit.2 = Some v
                              /\ hit.1 = inner q v) (take (Z.to_nat k) ranked)).
  { apply Forall_forall. intros [sc idx] Hin.
    assert ((sc, idx) ∈ scored vector score inner index q) as Hs.
    { apply (subseteq_take (Z.to_nat k) ranked) in Hin.
      unfold ranked in Hin. by rewrite rank_desc_perm in Hin. }
    apply scored_elem in Hs as [H0 (v & Hv & ->)]. simpl.
    split; [|by exists v].
    apply lookup_lt_Some in Hv. unfold len. lia. }
  destruct (hit_records_in_range metadata (take (Z.to_nat k) ranked) [])
    as (results & Hres & HF2).
  { eapply Forall_impl; [exact Hhits|]. by intros hit [? _]. }
  exists index, metadata, (take (Z.to_nat k) ranked), results.
  split; [done|]. split; [done|]. split; [done|]. split; [done|].
  split.
  { unfold query_index, load_index. simpl. rewrite Hm. simpl.
    rewrite read_metadata_record_lines. simpl.
    assert (len (map (@EDict score) metadata) = len metadata) as ->
      by (unfold len; by rewrite length_map).
    unfold flat_ip_search. simpl. exact Hres. }
  split.
  { rewrite length_take, Hrlen. unfold k, len. lia. }
  split; [by eapply Forall2_length|].
  split; [done|]. split; [done|]. split.
  - change (map snd ?l) with (snd <$> l). rewrite fmap_take.
    eapply sublist_NoDup; [|apply sublist_take].
    change (snd <$> ?l) with (map snd l).
    rewrite Hranked. apply NoDup_fmap_2; [apply _|apply NoDup_seq].
  - intros Hk. rewrite take_ge; [done|]. rewrite Hrlen. unfold k, len in *. lia.
Qed.
End SearchFacts.

Lemma query_index_clamps_witness :
  let data :=
    JObj [(py "cursos",
           JArr [JObj [(py "objetivoComercial", JStr (py "Learn."));
                       (py "comoVouAprender", JStr (py "By doing."))]])] in
  exists fs results,
    Toy.build_index data DEFAULT_MODEL_NAME None Toy.no_directory
    = (fs, Some (Ok ()))
    /\ Toy.query_index fs (py "doing") DEFAULT_MODEL_NAME 5 = Ok results
    /\ length results = 2%nat.
Proof.
  intros data.
  set (r := Toy.build_index data DEFAULT_MODEL_NAME None Toy.no_directory).
  assert (Hr : r = (r.1, Some (Ok ()))) by (vm_compute; reflexivity).
  destruct (query_index_clamps Toy.load_model Toy.encode Toy.model_dim
              Toy.uuid4 Toy.py_repr Toy.inner Z.leb data DEFAULT_MODEL_NAME None
              Toy.no_directory r.1 (py "doing") DEFAULT_MODEL_NAME () 5
              Hr eq_refl)
    as (index & metadata & hits & results & _ & Hmeta & _ & _ & Hq & Hlen & Hres & _).
  exists r.1, results. split; [exact Hr|]. split; [exact Hq|].
  rewrite Hres, Hlen.
  assert (H2 : length <$> metadata_jsonl r.1 = Some 2%nat)
    by (vm_compute; reflexivity).
  rewrite Hmeta in H2. injection H2 as H2.
  unfold record_lines in H2. rewrite length_map in H2.
  unfold len. rewrite H2. reflexivity.
Defined.

(** ** More on stripping, words and lengths *)

Lemma len_app {A} (a b : list A) : len (a ++ b) = len a + len b.
Proof. unfold len. rewrite length_app. lia. Qed.

Lemma len_cons {A} (c : A) (s : list A) : len (c :: s) = 1 + len s.
Proof. unfold len. simpl. lia. Qed.

Lemma len_nil {A} : len (@nil A) = 0.
Proof. done. Qed.

Lemma truthy_true {A} (s : list A) : truthy s = true <-> s <> [].
Proof. by destruct s. Qed.

Lemma truthy_false {A} (s : list A) : truthy s = false <-> s = [].
Proof. by destruct s. Qed.

Lemma lstrip_spec s :
  exists l, s = l ++ lstrip s /\ Forall (fun c => is_space c = true) l.
Proof.
  induction s as [|c r (l & Hl & Hsp)]; [by exists []|]. simpl.
  destruct (is_space c) eqn:Hc.
  - exists (c :: l). split; [simpl; congruence|by constructor].
  - by exists [].
Qed.

Lemma rstrip_spec s :
  exists r, s = rstrip s ++ r /\ Forall (fun c => is_space c = true) r.
Proof.
  induction s as [|c s (r & Hr & Hsp)]; [by exists []|].
  destruct (is_space c) eqn:Hc.
  - rewrite rstrip_cons_space by done.
    destruct (rstrip s) as [|c' s'] eqn:Hs; simpl in Hr.
    + exists (c :: r). split; [simpl; congruence|by constructor].
    + exists r. split; [simpl; congruence|done].
  - rewrite rstrip_cons_nonspace by done.
    exists r. split; [simpl; congruence|done].
Qed.

Lemma strip_spec s :
  exists l r, s = l ++ strip s ++ r
              /\ Forall (fun c => is_space c = true) l
              /\ Forall (fun c => is_space c = true) r.
Proof.
  destruct (lstrip_spec s) as (l & Hl & Hlsp).
  destruct (rstrip_spec (lstrip s)) as (r & Hr & Hrsp).
  exists l, r. unfold strip. split; [congruence|done].
Qed.

Lemma lstrip_head s c r : lstrip s = c :: r -> is_space c = false.
Proof.
  induction s as [|c' s IH]; simpl; [done|].
  destruct (is_space c') eqn:Hc'; [done|]. by intros [= <- _].
Qed.

Lemma rstrip_last s c : last (rstrip s) = Some c -> is_space c = false.
Proof.
  induction s as [|c' s IH]; [done|].
  destruct (is_space c') eqn:Hc'.
  - rewrite rstrip_cons_space by done.
    destruct (rstrip s) as [|c'' s'] eqn:Hs; [done|].
    by rewrite last_cons_cons.
  - rewrite rstrip_cons_nonspace by done.
    destruct (rstrip s) as [|c'' s'] eqn:Hs.
    + simpl. by intros [= <-].
    + by rewrite last_cons_cons.
Qed.

Lemma rstrip_head s c r :
  rstrip s = c :: r -> exists r', s = c :: r'.
Proof.
  destruct s as [|c' s]; [done|].
  destruct (is_space c') eqn:Hc'.
  - rewrite rstrip_cons_space by done. destruct (rstrip s); [done|].
    intros [= <- _]. eauto.
  - rewrite rstrip_cons_nonspace by done. intros [= <- _]. eauto.
Qed.

Lemma strip_head s c r : strip s = c :: r -> is_space c = false.
Proof.
  unfold strip. intros [r' H]%rstrip_head. by eapply lstrip_head.
Qed.

Lemma strip_last s c : last (strip s) = Some c -> is_space c = false.
Proof. apply rstrip_last. Qed.

Lemma nonspace_app a b : nonspace (a ++ b) = nonspace a ++ nonspace b.
Proof. apply filter_app. Qed.

Lemma nonspace_spaces l :
  Forall (fun c => is_space c = true) l -> nonspace l = [].
Proof.
  induction 1 as [|c l Hc _ IH]; [done|].
  unfold nonspace. rewrite filter_cons, decide_False by congruence. apply IH.
Qed.

Lemma nonspace_cons_space c s : is_space c = true -> nonspace (c :: s) = nonspace s.
Proof. intros Hc. unfold nonspace. by rewrite filter_cons, decide_False by congruence. Qed.

Lemma nonspace_cons_nonspace c s :
  is_space c = false -> nonspace (c :: s) = c :: nonspace s.
Proof. intros Hc. unfold nonspace. by rewrite filter_cons, decide_True. Qed.

Lemma nonspace_strip s : nonspace (strip s) = nonspace s.
Proof.
  destruct (strip_spec s) as (l & r & Hs & Hl & Hr).
  rewrite Hs at 2. rewrite !nonspace_app, (nonspace_spaces l), (nonspace_spaces r)
    by done. by rewrite app_nil_r.
Qed.

Lemma nonspace_word w :
  Forall (fun c => is_space c = false) w -> nonspace w = w.
Proof.
  induction 1 as [|c w Hc _ IH]; [done|].
  by rewrite nonspace_cons_nonspace, IH.
Qed.

Lemma split_aux_concat acc s :
  concat (split_aux acc s) = acc ++ nonspace s.
Proof.
  revert acc. induction s as [|c r IH]; intros acc; simpl.
  - destruct acc; simpl; by rewrite ?app_nil_r.
  - destruct (is_space c) eqn:Hc.
    + rewrite concat_app, IH, nonspace_cons_space by done.
      destruct acc; simpl; by rewrite ?app_nil_r.
    + rewrite IH, nonspace_cons_nonspace by done. by rewrite <- app_assoc.
Qed.

Lemma split_concat s : concat (split s) = nonspace s.
Proof. apply split_aux_concat. Qed.

Lemma split_spaces_l l s :
  Forall (fun c => is_space c = true) l -> split (l ++ s) = split s.
Proof.
  induction 1 as [|c l Hc _ IH]; [done|].
  unfold split in *. simpl. by rewrite Hc.
Qed.

Lemma split_aux_spaces acc r :
  Forall (fun c => is_space c = true) r -> split_aux acc r = flush acc.
Proof.
  intros Hr. revert acc. induction Hr as [|c r Hc _ IH]; intros acc; [done|].
  simpl. rewrite Hc, IH. simpl. by rewrite app_nil_r.
Qed.

Lemma split_aux_spaces_r acc s r :
  Forall (fun c => is_space c = true) r ->
  split_aux acc (s ++ r) = split_aux acc s.
Proof.
  intros Hr. revert acc. induction s as [|c s IH]; intros acc; simpl.
  - by apply split_aux_spaces.
  - destruct (is_space c); by rewrite IH.
Qed.

Lemma split_strip s : split (strip s) = split s.
Proof.
  destruct (strip_spec s) as (l & r & Hs & Hl & Hr).
  rewrite Hs at 2. rewrite split_spaces_l by done.
  unfold split. by rewrite split_aux_spaces_r.
Qed.

Lemma split_nil_inv s : split s = [] <-> Forall (fun c => is_space c = true) s.
Proof.
  split.
  - intros H. pose proof (split_concat s) as Hc. rewrite H in Hc. simpl in Hc.
    apply Forall_forall. intros c Hin.
    destruct (is_space c) eqn:Hsp; [done|].
    assert (c ∈ nonspace s) as Hn by (by apply list_elem_of_filter).
    rewrite <- Hc in Hn. by apply elem_of_nil in Hn.
  - intros H. rewrite <- (app_nil_r s). by rewrite split_spaces_l.
Qed.

Lemma strip_nil_inv s : strip s = [] <-> Forall (fun c => is_space c = true) s.
Proof.
  rewrite <- split_nil_inv, <- split_strip. split; [by intros ->|].
  intros H. destruct (strip s) as [|c r] eqn:Hs; [done|].
  pose proof (strip_head _ _ _ Hs) as Hc.
  unfold split in H. simpl in H. rewrite Hc in H.
  pose proof (split_aux_concat [c] r) as Hcc. rewrite H in Hcc. done.
Qed.

Lemma join_sp_app_len a b :
  len (join_sp a) <= len (join_sp (a ++ b))
  /\ len (join_sp b) <= len (join_sp (a ++ b)).
Proof.
  induction a as [|w a [IH1 IH2]].
  - split; [apply len_nonneg|apply Z.le_refl].
  - change ((w :: a) ++ b) with (w :: (a ++ b)).
    pose proof (len_nonneg w) as Hw.
    destruct (a ++ b) as [|w' ab] eqn:Hab.
    + apply app_eq_nil in Hab as [-> ->]. simpl. rewrite len_nil. split; lia.
    + rewrite (join_sp_cons w (w' :: ab)) by done.
      rewrite len_app, len_cons.
      pose proof (len_nonneg (join_sp (w' :: ab))) as Hab'.
      split; [|lia].
      destruct a as [|w'' a']; [change (join_sp [w]) with w; lia|].
      rewrite join_sp_cons by done. rewrite len_app, len_cons. lia.
Qed.

Lemma join_sp_snoc ws w :
  join_sp (ws ++ [w]) = match ws with [] => w | _ => join_sp ws ++ SP :: w end.
Proof.
  induction ws as [|w' ws IH]; [done|].
  destruct ws as [|w'' ws']; [done|].
  change ((w' :: w'' :: ws') ++ [w]) with (w' :: ((w'' :: ws') ++ [w])).
  rewrite join_sp_cons by done. rewrite IH.
  rewrite (join_sp_cons w' (w'' :: ws')) by done. by rewrite <- app_assoc.
Qed.

Lemma join_sp_app_prefix a b : join_sp a `prefix_of` join_sp (a ++ b).
Proof.
  induction a as [|w a IH]; [apply prefix_nil|].
  destruct a as [|w' a'].
  - simpl. destruct b; [done|]. by apply prefix_app_r.
  - change ((w :: w' :: a') ++ b) with (w :: (w' :: a') ++ b).
    rewrite !join_sp_cons by done.
    apply prefix_app, prefix_cons, IH.
Qed.

Lemma nonspace_join_sp ws : nonspace (join_sp ws) = nonspace (concat ws).
Proof.
  induction ws as [|w ws IH]; [done|].
  destruct ws as [|w' ws'].
  - simpl. by rewrite app_nil_r.
  - rewrite join_sp_cons by done. simpl concat in *.
    rewrite !nonspace_app, nonspace_cons_space by done. by rewrite IH, nonspace_app.
Qed.

Lemma split_join_sp_gen ss :
  split (join_sp ss) = concat (map split ss).
Proof.
  induction ss as [|s ss IH]; [done|].
  destruct ss as [|s' ss'].
  - simpl. by rewrite app_nil_r.
  - rewrite join_sp_cons by done. unfold split at 1.
    rewrite split_aux_app_space by done. by rewrite IH.
Qed.

(** ** [chunk_text_range] returns *)

Lemma hard_split_S fuel c max_chars start :
  hard_split (S fuel) c max_chars start =
  if start <? len c then
    cons (strip (slice c start (Z.min (len c) (start + max_chars))))
      <$> hard_split fuel c max_chars (Z.min (len c) (start + max_chars))
  else Some [].
Proof. reflexivity. Qed.

Lemma hard_split_total fuel c max_chars start :
  0 < max_chars -> len c - start <= Z.of_nat fuel ->
  is_Some (hard_split fuel c max_chars start).
Proof.
  intros Hm. revert start. induction fuel as [|fuel IH]; intros start Hf.
  - simpl. destruct (Z.ltb_spec start (len c)); [lia|done].
  - rewrite hard_split_S. destruct (Z.ltb_spec start (len c)); [|done].
    destruct (IH (Z.min (len c) (start + max_chars))) as [r ->]; [lia|done].
Qed.

Lemma fix_chunk_total max_chars c :
  0 < max_chars -> is_Some (fix_chunk max_chars c).
Proof.
  intros Hm. unfold fix_chunk. destruct (len c <=? max_chars); [done|].
  apply hard_split_total; [done|]. unfold len. lia.
Qed.

Lemma chunk_text_range_total text min_chars max_chars :
  0 < max_chars -> is_Some (chunk_text_range text min_chars max_chars).
Proof.
  intros Hm. unfold chunk_text_range.
  match goal with
  | |- is_Some (mbind _ (mapM _ ?l)) =>
      assert (is_Some (mapM (fix_chunk max_chars) l)) as [fixed ->]
  end; [|done].
  apply mapM_is_Some, Forall_forall. intros c _. by apply fix_chunk_total.
Qed.

(** ** [split_oque_vou_aprender_sections]: the header of every chunk *)

Lemma collapse_prefix header x :
  collapse_whitespace header `prefix_of` collapse_whitespace (header ++ SP :: x).
Proof.
  rewrite !collapse_whitespace_split. unfold split at 2.
  rewrite split_aux_app_space by done. apply join_sp_app_prefix.
Qed.

Lemma block_chunks_total block : is_Some (block_chunks block).
Proof.
  unfold block_chunks.
  destruct (filter _ (split_on NL block)) as [|header rest]; [done|].
  destruct (truthy rest); [|done].
  destruct (truthy (collapse_whitespace (join_sp rest))); [|done].
  destruct (len _ <=? 900); [done|].
  destruct (chunk_text_range_total (collapse_whitespace (join_sp rest)) 400 900)
    as [subs ->]; done.
Qed.

(** The non-blank lines of a block. *)
Lemma block_chunks_header block chunks c :
  block_chunks block = Some chunks -> c ∈ chunks ->
  exists header rest,
    filter (fun l => truthy (strip l) = true) (split_on NL block) = header :: rest
    /\ collapse_whitespace header `prefix_of` c.
Proof.
  unfold block_chunks.
  destruct (filter _ (split_on NL block)) as [|header rest];
    [by intros [= <-] ?%elem_of_nil|].
  intros Hc Hin. exists header, rest. split; [done|].
  destruct (truthy rest).
  - destruct (truthy (collapse_whitespace (join_sp rest)));
      [|injection Hc as <-; by apply elem_of_nil in Hin].
    destruct (len _ <=? 900).
    + injection Hc as <-. apply list_elem_of_singleton in Hin as ->.
      apply collapse_prefix.
    + destruct (chunk_text_range _ 400 900) as [subs|]; [|done].
      injection Hc as <-. apply list_elem_of_fmap in Hin as (sub & -> & _).
      apply collapse_prefix.
  - injection Hc as <-.
    destruct (truthy (collapse_whitespace header));
      [|by apply elem_of_nil in Hin].
    by apply list_elem_of_singleton in Hin as ->.
Qed.

Lemma elem_of_concat {A} (x : A) (ls : list (list A)) :
  x ∈ concat ls <-> exists l, x ∈ l /\ l ∈ ls.
Proof.
  induction ls as [|l ls IH]; simpl.
  - split; [by intros ?%elem_of_nil|]. by intros (l & _ & ?%elem_of_nil).
  - rewrite elem_of_app, IH. split.
    + intros [H|(l' & H1 & H2)]; [exists l; split; [done|by left]|].
      exists l'. split; [done|by right].
    + intros (l' & H1 & [->|H2]%elem_of_cons); [by left|right; eauto].
Qed.

Section SectionsFacts.
Variable format_disciplines : pystr -> pystr.
Variable sem_re_match : pystr -> bool.

Lemma group_semesters_nil :
  group_semesters sem_re_match [] = [].
Proof. reflexivity. Qed.

(** C4, as amended. The splitter returns for every curriculum text.  What
    it returns is made of the chunks of the semester blocks, block by block
    in order, and every chunk of a block starts with the whitespace-collapsed
    first line of that block: the semester header, also on every sub-chunk
    of a block that was split; it starts with the header as written when
    the header has no whitespace but single spaces between its words. *)
Theorem split_sections_header_prefix raw_text :
  exists per_block,
    split_oque_vou_aprender_sections format_disciplines sem_re_match raw_text
    = Some (concat per_block)
    /\ Forall2
         (fun block chunks =>
            block_chunks block = Some chunks
            /\ forall c, c ∈ chunks ->
                 exists header rest,
                   filter (fun l => truthy (strip l) = true) (split_on NL block)
                   = header :: rest
                   /\ collapse_whitespace header `prefix_of` c
                   /\ (collapse_whitespace header = header ->
                       header `prefix_of` c))
         (group_semesters sem_re_match (format_disciplines raw_text))
         per_block.
Proof.
  unfold split_oque_vou_aprender_sections.
  destruct (format_disciplines raw_text) as [|ch formatted] eqn:Hf.
  - exists []. split; [done|]. rewrite group_semesters_nil. constructor.
  - cbn [truthy].
    set (blocks := group_semesters sem_re_match (ch :: formatted)).
    assert (is_Some (mapM block_chunks blocks)) as [per_block Hpb].
    { apply mapM_is_Some, Forall_forall. intros b _. apply block_chunks_total. }
    rewrite Hpb. simpl. exists per_block. split; [done|].
    apply mapM_Some in Hpb. eapply Forall2_impl; [exact Hpb|].
    intros block chunks Hbc. split; [done|]. intros c Hc.
    destruct (block_chunks_header _ _ _ Hbc Hc) as (header & rest & Hl & Hp).
    exists header, rest. split; [done|]. split; [done|]. by intros <-.
Qed.
End SectionsFacts.

(** C4, as stated, fails: a header written with a no-break space between
    its words is collapsed in the chunk, which then starts with other text. *)
Lemma header_prefix_counterexample :
  let header := [49; 186; 160]%N ++ py "semestre" in
  let block := header ++ NL :: py "Logica" in
  filter (fun l => truthy (strip l) = true) (split_on NL block)
  = [header; py "Logica"]
  /\ block_chunks block = Some [[49; 186; 32]%N ++ py "semestre Logica"]
  /\ ~ header `prefix_of` ([49; 186; 32]%N ++ py "semestre Logica").
Proof.
  split; [vm_compute; reflexivity|]. split; [vm_compute; reflexivity|].
  intros [k Hk]. vm_compute in Hk. discriminate Hk.
Qed.

Lemma split_sections_header_prefix_witness :
  let raw := [49; 186]%N ++ py " semestre" ++ NL :: py "Logica" ++ NL
             :: [50; 186]%N ++ py " semestre" ++ NL :: py "Redes" in
  exists per_block,
    split_oque_vou_aprender_sections Toy.format_disciplines Toy.sem_re_match raw
    = Some (concat per_block)
    /\ Forall2
         (fun block chunks =>
            forall c, c ∈ chunks ->
              exists header rest,
                filter (fun l => truthy (strip l) = true) (split_on NL block)
                = header :: rest
                /\ collapse_whitespace header `prefix_of` c)
         [ [49; 186]%N ++ py " semestre" ++ NL :: py "Logica";
           [50; 186]%N ++ py " semestre" ++ NL :: py "Redes" ]
         per_block.
Proof.
  intros raw.
  destruct (split_sections_header_prefix Toy.format_disciplines Toy.sem_re_match raw)
    as (per_block & Hs & Hall).
  exists per_block. split; [exact Hs|].
  assert (Hb : group_semesters Toy.sem_re_match (Toy.format_disciplines raw)
               = [ [49; 186]%N ++ py " semestre" ++ NL :: py "Logica";
                   [50; 186]%N ++ py " semestre" ++ NL :: py "Redes" ])
    by (vm_compute; reflexivity).
  rewrite Hb in Hall. eapply Forall2_impl; [exact Hall|].
  intros block chunks [_ H] c Hc.
  destruct (H c Hc) as (header & rest & H1 & H2 & _).
  exists header, rest. split; assumption.
Defined.

(** ** Sentences of a text that is already collapsed *)

Lemma tightb_word_app p w x :
  w <> [] -> Forall (fun c => is_space c = false) w ->
  tightb p (w ++ x) = tightb false x.
Proof.
  intros Hne Hw. revert p. induction Hw as [|c w Hc Hw IH]; intros p; [done|].
  simpl. rewrite Hc. destruct w as [|c' w']; [done|]. by apply IH.
Qed.

Lemma tightb_join_sp ws :
  ws <> [] -> Forall word ws -> tightb true (join_sp ws) = true.
Proof.
  intros Hne Hws. induction Hws as [|w ws [Hw1 Hw2] Hws IH]; [done|].
  destruct ws as [|w' ws'].
  - simpl. rewrite <- (app_nil_r w). by rewrite tightb_word_app.
  - rewrite join_sp_cons by done. rewrite tightb_word_app by done.
    simpl. by apply IH.
Qed.

Lemma tightb_no_nl p s : tightb p s = true -> NL ∉ s.
Proof.
  revert p. induction s as [|c r IH]; intros p; simpl; [by intros _ ?%elem_of_nil|].
  destruct (is_space c) eqn:Hc.
  - intros [[Hsp _]%andb_prop Hr]%andb_prop.
    apply N.eqb_eq in Hsp. subst c.
    intros [?|?]%elem_of_cons; [done|]. by eapply IH.
  - intros Hr [<-|?]%elem_of_cons; [done|]. by eapply IH.
Qed.

Lemma sub_nl_id run s : NL ∉ run -> NL ∉ s -> sub_nl run s = run ++ s.
Proof.
  revert run. induction s as [|c r IH]; intros run Hrun Hs; simpl.
  - unfold flush_run. rewrite bool_decide_eq_false_2 by done. by rewrite app_nil_r.
  - assert (c <> NL) by (intros ->; apply Hs; by left).
    assert (NL ∉ r) by (intros ?; apply Hs; by right).
    destruct (is_space c).
    + rewrite IH; [by rewrite <- app_assoc| |done].
      intros [?|?%list_elem_of_singleton]%elem_of_app; done.
    + unfold flush_run. rewrite bool_decide_eq_false_2 by done.
      rewrite IH; [done|by intros ?%elem_of_nil|done].
Qed.

Lemma rstrip_id p d : last p = Some d -> is_space d = false -> rstrip p = p.
Proof.
  induction p as [|c p IH]; [done|]. destruct p as [|c' p'].
  - simpl. intros [= ->] ->. done.
  - rewrite last_cons_cons. intros Hl Hd.
    change (rstrip (c :: c' :: p')) with
      (match rstrip (c' :: p') with
       | [] => if is_space c then [] else [c]
       | r' => c :: r' end).
    by rewrite IH.
Qed.

Lemma strip_trimmed p : trimmed p -> strip p = p /\ p <> [].
Proof.
  intros [(c & x & -> & Hc) (d & Hl & Hd)]. split; [|done].
  unfold strip. simpl. rewrite Hc. by eapply rstrip_id.
Qed.

Lemma trimmed_join_sp ws : ws <> [] -> Forall word ws -> trimmed (join_sp ws).
Proof.
  intros Hne Hws. split.
  - destruct Hws as [|w ws [Hw1 Hw2] Hws]; [done|].
    destruct w as [|c w]; [done|]. apply Forall_cons in Hw2 as [Hc _].
    exists c. destruct ws; simpl; eauto.
  - induction Hws as [|w ws [Hw1 Hw2] Hws IH]; [done|].
    destruct ws as [|w' ws'].
    + simpl. destruct (last w) as [d|] eqn:Hl.
      * exists d. split; [done|].
        rewrite Forall_forall in Hw2. apply Hw2.
        apply last_Some in Hl as [l' ->]. apply elem_of_app. right. by left.
      * by apply last_None in Hl.
    + rewrite join_sp_cons by done. destruct IH as (d & Hl & Hd); [done|].
      exists d. split; [|done]. rewrite last_app, last_cons, Hl. done.
Qed.

Lemma re_split_sent_nonnil cur in_sep s : re_split_sent cur in_sep s <> [].
Proof.
  revert cur in_sep. induction s as [|c r IH]; intros cur in_sep; simpl.
  - by destruct in_sep.
  - destruct (is_space c); [destruct (in_sep || ends_with_punct cur)|destruct in_sep];
      try apply IH; done.
Qed.

Lemma re_split_sent_tight s :
  (forall cur p,
     (exists c x, cur = c :: x /\ is_space c = false) ->
     (exists d, last cur = Some d /\ is_space d = p) ->
     tightb p s = true ->
     join_sp (re_split_sent cur false s) = cur ++ s
     /\ Forall trimmed (re_split_sent cur false s))
  /\ (forall cur,
        trimmed cur -> tightb true s = true ->
        join_sp (re_split_sent cur true s) = cur ++ SP :: s
        /\ Forall trimmed (re_split_sent cur true s)).
Proof.
  induction s as [|c r [IH1 IH2]].
  - split.
    + intros cur p Hh (d & Hl & Hd) Hp. simpl in Hp. destruct p; [done|].
      simpl. rewrite app_nil_r. split; [done|].
      constructor; [|constructor]. split; eauto.
    + intros cur _ Ht. done.
  - split.
    + intros cur p Hh (d & Hl & Hd) Hp. simpl in Hp |- *.
      destruct (is_space c) eqn:Hc.
      * apply andb_prop in Hp as [[Hsp Hnp]%andb_prop Hr].
        apply N.eqb_eq in Hsp as ->. destruct p; [done|]. simpl.
        destruct (ends_with_punct cur).
        -- apply IH2; [|done]. split; eauto.
        -- destruct (IH1 (cur ++ [SP]) true) as [Hj Hf]; try done.
           ++ destruct Hh as (c0 & x & -> & Hc0). exists c0, (x ++ [SP]). done.
           ++ exists SP. by rewrite last_snoc.
           ++ split; [|done]. by rewrite Hj, <- app_assoc.
      * destruct (IH1 (cur ++ [c]) false) as [Hj Hf]; try done.
        -- destruct Hh as (c0 & x & -> & Hc0). exists c0, (x ++ [c]). done.
        -- exists c. by rewrite last_snoc.
        -- split; [|done]. by rewrite Hj, <- app_assoc.
    + intros cur Hcur Ht. simpl in Ht |- *.
      destruct (is_space c) eqn:Hc.
      { apply andb_prop in Ht as [[_ ?]%andb_prop _]. done. }
      destruct (IH1 [c] false) as [Hj Hf]; try done; [by exists c, []|by exists c|].
      split; [|by constructor].
      rewrite join_sp_cons by apply re_split_sent_nonnil. by rewrite Hj.
Qed.

Lemma filter_map_trimmed parts :
  Forall trimmed parts ->
  map strip (filter (fun p => truthy p && truthy (strip p) = true) parts) = parts.
Proof.
  induction 1 as [|p parts Hp _ IH]; [done|].
  destruct (strip_trimmed p Hp) as [Hs Hne].
  rewrite filter_cons, decide_True.
  - simpl. by rewrite Hs, IH.
  - rewrite Hs. by destruct p.
Qed.

Lemma split_into_sentences_tight ws :
  ws <> [] -> Forall word ws ->
  join_sp (split_into_sentences (join_sp ws)) = join_sp ws
  /\ Forall trimmed (split_into_sentences (join_sp ws))
  /\ split_into_sentences (join_sp ws) <> [].
Proof.
  intros Hne Hws.
  pose proof (trimmed_join_sp ws Hne Hws) as Htr.
  pose proof (tightb_join_sp ws Hne Hws) as Htight.
  destruct (strip_trimmed _ Htr) as [Hstrip Hnn].
  unfold split_into_sentences.
  destruct (join_sp ws) as [|c x] eqn:Hj; [done|]. simpl truthy. cbv iota.
  rewrite sub_nl_id; [|by intros ?%elem_of_nil|by eapply tightb_no_nl].
  rewrite app_nil_l, Hstrip.
  destruct Htr as [(c' & x' & [= <- <-] & Hc) Hlast].
  simpl re_split_sent. rewrite Hc. simpl in Htight. rewrite Hc in Htight.
  destruct (proj1 (re_split_sent_tight x) [c] false) as [Hjoin Hparts];
    [by exists c, []|by exists c|done|].
  rewrite filter_map_trimmed by done.
  split; [done|]. split; [done|]. apply re_split_sent_nonnil.
Qed.

(** ** [chunk_text_range] on a text that fits one chunk *)

Lemma ctr_fold_no_flush max_chars parts done :
  Forall trimmed parts ->
  len (join_sp (done ++ parts)) <= max_chars ->
  fold_left (ctr_step max_chars) parts (CtrState [] done (len (join_sp done)))
  = CtrState [] (done ++ parts) (len (join_sp (done ++ parts))).
Proof.
  intros Hparts. revert done. induction Hparts as [|s parts Hs _ IH]; intros done Hlen.
  - by rewrite app_nil_r.
  - destruct (strip_trimmed s Hs) as [Hstrip Hne].
    assert (Hsnoc : len (join_sp (done ++ [s]))
                    = len (join_sp done) + (len s + if truthy done then 1 else 0)).
    { rewrite join_sp_snoc. destruct done; [simpl; rewrite len_nil; lia|].
      rewrite len_app, len_cons. simpl. lia. }
    assert (Hle : len (join_sp (done ++ [s])) <= max_chars).
    { rewrite (cons_middle s done parts), app_assoc in Hlen.
      pose proof (join_sp_app_len (done ++ [s]) parts). lia. }
    simpl fold_left. unfold ctr_step at 2. cbn [ctr_current ctr_chunks ctr_current_len].
    rewrite Hstrip. destruct s as [|c s']; [done|]. simpl truthy at 1. cbv iota.
    destruct (Z.ltb_spec max_chars
                (len (join_sp done) + (len (c :: s') + if truthy done then 1 else 0)));
      [lia|].
    rewrite andb_false_r. rewrite <- Hsnoc.
    rewrite IH; rewrite <- app_assoc; done.
Qed.

Lemma chunk_text_range_single ws min_chars max_chars :
  ws <> [] -> Forall word ws -> len (join_sp ws) <= max_chars ->
  chunk_text_range (join_sp ws) min_chars max_chars = Some [join_sp ws].
Proof.
  intros Hne Hws Hlen.
  destruct (split_into_sentences_tight ws Hne Hws) as (Hj & Hparts & Hnn).
  destruct (strip_trimmed _ (trimmed_join_sp ws Hne Hws)) as [Hstrip Hnn'].
  unfold chunk_text_range.
  change 0 with (len (join_sp [])).
  rewrite ctr_fold_no_flush; [|done|by rewrite app_nil_l, Hj].
  rewrite app_nil_l. unfold ctr_finish. cbn [ctr_current ctr_chunks].
  destruct (split_into_sentences (join_sp ws)) as [|s ss] eqn:Hss; [done|].
  simpl truthy. cbv iota. rewrite andb_false_r, app_nil_l, Hj.
  simpl mapM. unfold fix_chunk.
  destruct (Z.leb_spec (len (join_sp ws)) max_chars); [|lia].
  simpl. rewrite Hstrip.
  rewrite filter_cons, decide_True; [done|]. by apply truthy_true.
Qed.

(** ** [split_oque_vou_aprender_sections]: the routing of a block *)

Lemma split_nonblank l : truthy (strip l) = true -> split l <> [].
Proof.
  intros Ht Hs. apply split_nil_inv, strip_nil_inv in Hs. by rewrite Hs in Ht.
Qed.

Lemma collapse_nonblank l :
  truthy (strip l) = true -> collapse_whitespace l <> [].
Proof.
  intros Ht Hc. rewrite collapse_whitespace_split in Hc.
  apply join_sp_nil_inv in Hc; [|apply split_words]. by apply split_nonblank in Ht.
Qed.

Lemma split_join_nonblank rest :
  rest <> [] -> Forall (fun l => truthy (strip l) = true) rest ->
  split (join_sp rest) <> [].
Proof.
  intros Hne Hall. rewrite split_join_sp_gen.
  destruct Hall as [|l rest Hl _]; [done|]. simpl.
  apply split_nonblank in Hl. by destruct (split l).
Qed.

(** C5, as amended. A block with a body is routed as the specification
    says: one chunk when the whole block has between 400 and 900 characters,
    else the header put before every piece of the re-chunked body, which
    for a block under 400 characters is again the one whole block, so that
    every block of at most 900 characters is one chunk.  A block that is
    only a header is one chunk, the collapsed header. *)
Theorem block_chunks_routing block header rest :
  filter (fun l => truthy (strip l) = true) (split_on NL block) = header :: rest ->
  let body := collapse_whitespace (join_sp rest) in
  let full := collapse_whitespace (header ++ SP :: body) in
  (rest = [] -> block_chunks block = Some [collapse_whitespace header])
  /\ (rest <> [] ->
      block_chunks block = block_chunks_as_stated header body
      /\ (len full <= 900 -> block_chunks block = Some [full])
      /\ (900 < len full ->
          exists subs,
            chunk_text_range body 400 900 = Some subs
            /\ block_chunks block
               = Some (map (fun sub => collapse_whitespace (header ++ SP :: sub))
                         subs))).
Proof.
  intros Hlines body full.
  assert (Hall : Forall (fun l => truthy (strip l) = true) (header :: rest)).
  { rewrite <- Hlines. apply Forall_forall. intros l Hl.
    by apply list_elem_of_filter in Hl as [? _]. }
  apply Forall_cons in Hall as [Hh Hrest].
  unfold block_chunks. rewrite Hlines. split.
  - intros ->. simpl.
    pose proof (collapse_nonblank header Hh) as Hne.
    by destruct (collapse_whitespace header).
  - intros Hne.
    assert (truthy rest = true) as -> by by apply truthy_true.
    pose proof (split_join_nonblank rest Hne Hrest) as Hws.
    pose proof (split_words (join_sp rest)) as Hwords.
    assert (Hbody : body = join_sp (split (join_sp rest)))
      by apply collapse_whitespace_split.
    assert (Hbne : body <> []).
    { rewrite Hbody. intros H. by apply join_sp_nil_inv in H. }
    fold body. assert (truthy body = true) as -> by by apply truthy_true.
    fold full.
    assert (Hsmall : len full < 400 ->
              chunk_text_range body 400 900 = Some [body]).
    { intros Hlt. rewrite Hbody. apply chunk_text_range_single; try done.
      assert (len (join_sp (split (join_sp rest))) <= len full); [|lia].
      unfold full. rewrite collapse_whitespace_split.
      assert (split (header ++ SP :: body) = split header ++ split body) as ->
        by (by apply split_aux_app_space).
      rewrite Hbody at 1. rewrite (split_join_sp _ Hwords).
      apply join_sp_app_len. }
    unfold block_chunks_as_stated. fold full.
    destruct (Z.leb_spec (len full) 900) as [Hle|Hgt].
    + split; [|split; [done|lia]].
      destruct (Z.leb_spec 400 (len full)); [done|].
      simpl. by rewrite Hsmall.
    + rewrite andb_false_r. split; [done|]. split; [lia|]. intros _.
      destruct (chunk_text_range_total body 400 900) as [subs Hsubs]; [lia|].
      exists subs. by rewrite Hsubs.
Qed.

Lemma block_chunks_routing_witness :
  let header := [49; 186]%N ++ py " semestre" in
  let block := header ++ NL :: py "Logica." ++ NL :: py "Redes." in
  block_chunks block = block_chunks_as_stated header (py "Logica. Redes.")
  /\ block_chunks block = Some [header ++ py " Logica. Redes."].
Proof.
  intros header block.
  destruct (block_chunks_routing block header [py "Logica."; py "Redes."])
    as [_ H]; [vm_compute; reflexivity|].
  destruct H as (H1 & H2 & _); [discriminate|].
  split; [exact H1|]. apply H2. vm_compute. discriminate.
Defined.

(** C5, as stated, fails on a block that is only a header: the code emits
    the header as a chunk, the routing of the specification re-chunks an
    empty body and emits nothing. *)
Lemma block_chunks_routing_counterexample :
  let header := [49; 186]%N ++ py " semestre" in
  filter (fun l => truthy (strip l) = true) (split_on NL header) = [header]
  /\ block_chunks header = Some [header]
  /\ block_chunks_as_stated header [] = Some [].
Proof. repeat split; vm_compute; reflexivity. Qed.

(** ** [chunk_to_range]: the word wrap *)

Lemma phrase_word w : word w -> phrase w.
Proof. intros Hw. exists [w]. repeat split; [done|by constructor]. Qed.

Lemma phrase_join_sp ws : ws <> [] -> Forall word ws -> phrase (join_sp ws).
Proof. intros. by exists ws. Qed.

Lemma phrase_strip s : phrase s -> strip s = s /\ s <> [].
Proof.
  intros (ws & Hne & Hws & ->). by apply strip_trimmed, trimmed_join_sp.
Qed.

Lemma phrase_split s : phrase s -> Forall word (split s) /\ split s <> [] /\ join_sp (split s) = s.
Proof.
  intros (ws & Hne & Hws & ->). rewrite split_join_sp by done. done.
Qed.

Lemma phrase_app a b : phrase a -> phrase b -> phrase (a ++ SP :: b).
Proof.
  intros (wa & Ha1 & Ha2 & ->) (wb & Hb1 & Hb2 & ->).
  exists (wa ++ wb). split; [by destruct wa|]. split; [by apply Forall_app|].
  clear Ha2 Hb2. induction wa as [|w wa IH]; [done|].
  destruct wa as [|w' wa'].
  - simpl. by destruct wb.
  - change ((w :: w' :: wa') ++ wb) with (w :: (w' :: wa') ++ wb).
    rewrite !join_sp_cons by done. rewrite <- app_assoc. simpl.
    f_equal. f_equal. by apply IH.
Qed.

Lemma split_app_sp a b : split (a ++ SP :: b) = split a ++ split b.
Proof. by apply split_aux_app_space. Qed.

Lemma adjacent_app_last {A} (R : A -> A -> Prop) l x :
  adjacent R l -> (forall a, last l = Some a -> R a x) -> adjacent R (l ++ [x]).
Proof.
  induction l as [|a l IH]; [done|]. intros [Ha Hl] Hlast.
  destruct l as [|b l'].
  - simpl. split; [|done]. by apply Hlast.
  - change ((a :: b :: l') ++ [x]) with (a :: ((b :: l') ++ [x])).
    split; [exact Ha|]. apply IH; [done|].
    intros a' Ha'. apply Hlast. by rewrite last_cons_cons.
Qed.

Lemma len_join_sp_head w rest : len w <= len (join_sp (w :: rest)).
Proof.
  destruct rest as [|w' rest']; [simpl; lia|].
  rewrite join_sp_cons by done. rewrite len_app, len_cons.
  pose proof (len_nonneg (join_sp (w' :: rest'))). lia.
Qed.

Lemma wrap_step_inv max_len seen st w :
  wrap_inv max_len seen st -> word w ->
  wrap_inv max_len (seen ++ [w]) (wrap_step max_len st w).
Proof.
  destruct st as [chunks current].
  intros (Hcur & Hch & Hseen & Hemp & Hfit & Hok & Hadj & Hlast) Hw.
  assert (Hcw : Forall word (current ++ [w])).
  { apply Forall_app. split; [done|by constructor]. }
  assert (Hstrip : strip (join_sp (current ++ [w])) = join_sp (current ++ [w])).
  { apply phrase_strip, phrase_join_sp; [by destruct current|done]. }
  unfold wrap_step. rewrite Hstrip.
  destruct (Z.leb_spec (len (join_sp (current ++ [w]))) max_len) as [Hle|Hgt].
  - split; [done|]. split; [done|]. split; [by rewrite app_assoc, Hseen|].
    split; [by destruct current|]. split; [by right|]. split; [done|].
    split; [done|].
    intros c w0 rest Hc Hcons. destruct current as [|w1 cur'].
    + rewrite Hemp in Hc; done.
    + injection Hcons as <- <-. by eapply Hlast.
  - destruct current as [|w0 cur'].
    + assert (Hc0 : chunks = []) by (by apply Hemp). subst chunks.
      simpl in Hseen. subst seen. simpl. repeat split; try done.
      by constructor.
    + simpl truthy. cbv iota. set (c0 := join_sp (w0 :: cur')).
      assert (G1 : Forall word [w]) by (by constructor).
      assert (G2 : Forall phrase (chunks ++ [c0])).
      { apply Forall_app. split; [done|]. constructor; [|done].
        by apply phrase_join_sp. }
      assert (G3 : concat (map split (chunks ++ [c0])) ++ [w] = seen ++ [w]).
      { rewrite map_app, concat_app. simpl. rewrite app_nil_r.
        unfold c0. rewrite split_join_sp by done. by rewrite Hseen. }
      assert (G4 : [w] = [] -> chunks ++ [c0] = []) by done.
      assert (G5 : (length [w] <= 1)%nat \/ len (join_sp [w]) <= max_len)
        by (left; simpl; lia).
      assert (G6 : Forall (fun c => word c \/ len c <= max_len) (chunks ++ [c0])).
      { apply Forall_app. split; [done|]. constructor; [|done].
        destruct Hfit as [H1|H1]; [|by right].
        left. unfold c0. destruct cur'; [|simpl in H1; lia]. simpl.
        by apply Forall_cons in Hcur as [? _]. }
      assert (G7 : adjacent (overfull max_len) (chunks ++ [c0])).
      { apply adjacent_app_last; [done|]. intros c Hc. unfold overfull.
        pose proof (Hlast c w0 cur' Hc eq_refl).
        pose proof (len_join_sp_head w0 cur'). unfold c0. lia. }
      assert (G8 : forall c w' rest, last (chunks ++ [c0]) = Some c ->
                 [w] = w' :: rest -> max_len < len c + 1 + len w').
      { intros c w' rest Hc [= <- <-]. rewrite last_snoc in Hc.
        injection Hc as <-. rewrite join_sp_snoc in Hgt.
        rewrite len_app, len_cons in Hgt. unfold c0. lia. }
      exact (conj G1 (conj G2 (conj G3 (conj G4 (conj G5 (conj G6 (conj G7 G8))))))).
Qed.

Lemma wrap_fold_inv max_len words seen st :
  wrap_inv max_len seen st -> Forall word words ->
  wrap_inv max_len (seen ++ words) (fold_left (wrap_step max_len) words st).
Proof.
  intros Hinv Hws. revert seen st Hinv.
  induction Hws as [|w words Hw _ IH]; intros seen st Hinv.
  - by rewrite app_nil_r.
  - simpl. rewrite (cons_middle w seen words), app_assoc.
    apply IH. by apply wrap_step_inv.
Qed.

Lemma wrap_words_spec max_len words :
  Forall word words ->
  Forall phrase (wrap_words max_len words)
  /\ concat (map split (wrap_words max_len words)) = words
  /\ Forall (fun c => word c \/ len c <= max_len) (wrap_words max_len words)
  /\ adjacent (overfull max_len) (wrap_words max_len words).
Proof.
  intros Hws. unfold wrap_words.
  pose proof (wrap_fold_inv max_len words [] ([], [])) as Hinv.
  destruct (fold_left (wrap_step max_len) words ([], [])) as [chunks current].
  destruct Hinv as (Hcur & Hch & Hseen & Hemp & Hfit & Hok & Hadj & Hlast);
    [|done|].
  { simpl. repeat split; try done. left. simpl. lia. }
  rewrite app_nil_l in Hseen.
  destruct current as [|w0 cur'].
  - simpl. rewrite app_nil_r in Hseen. done.
  - simpl truthy. cbv iota. set (c0 := join_sp (w0 :: cur')).
    split; [|split; [|split]].
    + apply Forall_app. split; [done|]. constructor; [|done].
      by apply phrase_join_sp.
    + rewrite map_app, concat_app. simpl. rewrite app_nil_r.
      unfold c0. by rewrite split_join_sp.
    + apply Forall_app. split; [done|]. constructor; [|done].
      destruct Hfit as [H1|H1]; [|by right].
      left. unfold c0. destruct cur'; [|simpl in H1; lia]. simpl.
      by apply Forall_cons in Hcur as [? _].
    + apply adjacent_app_last; [done|]. intros c Hc. unfold overfull.
      pose proof (Hlast c w0 cur' Hc eq_refl).
      pose proof (len_join_sp_head w0 cur'). unfold c0. lia.
Qed.

(** ** [chunk_to_range]: the merge of small pieces *)

Lemma list_pair_ind {A} (P : list A -> Prop) :
  P [] -> (forall a, P [a]) ->
  (forall a b l, P l -> P (b :: l) -> P (a :: b :: l)) ->
  forall l, P l.
Proof.
  intros H0 H1 H2 l.
  assert (P l /\ forall a, P (a :: l)) as [? _]; [|done].
  induction l as [|b l [IHl IHc]]; [by split|].
  split; [apply IHc|]. intros a. by apply H2.
Qed.

Lemma merge_small_cons2 min_len max_len a b l :
  merge_small min_len max_len (a :: b :: l) =
  if (len a <? min_len) && (len (a ++ SP :: b) <=? max_len * 2)
  then (a ++ SP :: b) :: merge_small min_len max_len l
  else a :: merge_small min_len max_len (b :: l).
Proof. reflexivity. Qed.

Lemma merge_small_spec min_len max_len cs :
  Forall phrase cs ->
  Forall (fun c => word c \/ len c <= max_len) cs ->
  adjacent (overfull max_len) cs ->
  let ms := merge_small min_len max_len cs in
  Forall phrase ms
  /\ concat (map split ms) = concat (map split cs)
  /\ Forall (item_ok min_len max_len) ms
  /\ adjacent (overfull max_len) ms
  /\ (min_len <= max_len -> adjacent (undersized_blocked min_len max_len) ms)
  /\ head_kept min_len cs ms.
Proof.
  induction cs as [|a|a b l IHl IHbl] using list_pair_ind.
  - intros _ _ _. simpl. repeat split; done.
  - intros Hp Hok _. simpl.
    apply Forall_cons in Hok as [Hok _].
    split; [done|]. split; [done|]. split.
    { constructor; [|done]. destruct Hok; [by left|right; by left]. }
    repeat split; done.
  - intros Hp Hok Hadj.
    apply Forall_cons in Hp as [Hpa Hp]. pose proof Hp as Hpbl.
    apply Forall_cons in Hp as [Hpb Hpl].
    apply Forall_cons in Hok as [Hoka Hok]. pose proof Hok as Hokbl.
    apply Forall_cons in Hok as [Hokb Hokl].
    destruct Hadj as [Hab Hadjbl]. pose proof Hadjbl as [_ Hadjl].
    unfold overfull in Hab.
    cbv zeta. rewrite merge_small_cons2.
    destruct (Z.ltb_spec (len a) min_len) as [Hlt|Hge];
      [destruct (Z.leb_spec (len (a ++ SP :: b)) (max_len * 2)) as [Hle|Hgt]|];
      simpl andb; cbv iota.
    + destruct (IHl Hpl Hokl Hadjl) as (M1 & M2 & M3 & M5 & M4 & _).
      assert (Hcombo : len (a ++ SP :: b) = len a + 1 + len b).
      { rewrite len_app, len_cons. lia. }
      split; [constructor; [by apply phrase_app|done]|].
      split; [cbn [map concat]; rewrite split_app_sp, M2; by rewrite <- app_assoc|].
      split.
      { constructor; [|done]. right; right. split; [lia|]. by exists a, b. }
      split.
      { split; [|done]. destruct (merge_small min_len max_len l) as [|m' ?];
          [done|]. unfold overfull. pose proof (len_nonneg m'). lia. }
      split.
      { intros Hmm. split; [|by apply M4].
        destruct (merge_small min_len max_len l) as [|m' ?]; [done|].
        intros ?. lia. }
      unfold head_kept. rewrite Hcombo. pose proof (len_nonneg b).
      split; [lia|intros; lia].
    + destruct (IHbl Hpbl Hokbl Hadjbl) as (M1 & M2 & M3 & M5 & M4 & Mh).
      split; [by constructor|]. split; [cbn [map concat]; by rewrite M2|].
      split.
      { constructor; [|done]. destruct Hoka; [by left|right; by left]. }
      unfold head_kept in Mh |- *.
      destruct (merge_small min_len max_len (b :: l)) as [|m' ms'];
        [done|]. destruct Mh as [Mh1 Mh2].
      split; [split; [unfold overfull; lia|done]|].
      split; [|split; [lia|done]].
      intros Hmm. split; [|by apply M4].
      intros _. rewrite len_app, len_cons in Hgt.
      assert (max_len < len b) by lia.
      rewrite Mh2 by lia. split; [|lia].
      destruct Hokb; [done|lia].
    + destruct (IHbl Hpbl Hokbl Hadjbl) as (M1 & M2 & M3 & M5 & M4 & Mh).
      split; [by constructor|]. split; [cbn [map concat]; by rewrite M2|].
      split.
      { constructor; [|done]. destruct Hoka; [by left|right; by left]. }
      unfold head_kept in Mh |- *.
      destruct (merge_small min_len max_len (b :: l)) as [|m' ms'];
        [done|]. destruct Mh as [Mh1 Mh2].
      split; [split; [unfold overfull; lia|done]|].
      split; [|split; [lia|done]].
      intros Hmm. split; [|by apply M4]. intros ?. lia.
Qed.

Lemma chunk_to_range_spec text min_len max_len :
  let ms := chunk_to_range text min_len max_len in
  Forall phrase ms
  /\ concat (map split ms) = split text
  /\ Forall (item_ok min_len max_len) ms
  /\ adjacent (overfull max_len) ms
  /\ (min_len <= max_len -> adjacent (undersized_blocked min_len max_len) ms).
Proof.
  destruct (wrap_words_spec max_len (split text) (split_words text))
    as (W1 & W2 & W3 & W4).
  destruct (merge_small_spec min_len max_len _ W1 W3 W4)
    as (M1 & M2 & M3 & M5 & M4 & _).
  unfold chunk_to_range. cbv zeta. rewrite M2, W2. done.
Qed.

(** ** [split_into_sentences] keeps the words *)

Lemma flush_run_spaces run :
  Forall (fun c => is_space c = true) run ->
  Forall (fun c => is_space c = true) (flush_run run)
  /\ (flush_run run = [] <-> run = []).
Proof.
  intros Hrun. unfold flush_run. case_bool_decide as Hnl.
  - split; [by repeat constructor|]. split; [done|].
    intros ->. by apply elem_of_nil in Hnl.
  - done.
Qed.

Lemma split_aux_spaces_l acc x y :
  Forall (fun c => is_space c = true) x ->
  split_aux acc (x ++ y)
  = match x with [] => split_aux acc y | _ => flush acc ++ split y end.
Proof.
  intros Hx. destruct Hx as [|c x Hc Hx]; [done|].
  simpl. rewrite Hc. f_equal. by apply split_spaces_l.
Qed.

Lemma split_aux_sub_nl acc run s :
  Forall (fun c => is_space c = true) run ->
  split_aux acc (sub_nl run s) = split_aux acc (run ++ s).
Proof.
  revert acc run. induction s as [|c r IH]; intros acc run Hrun; simpl.
  - destruct (flush_run_spaces run Hrun) as [Hf _].
    rewrite app_nil_r. by rewrite !split_aux_spaces.
  - destruct (is_space c) eqn:Hc.
    + rewrite IH; [by rewrite <- app_assoc|].
      apply Forall_app. split; [done|by constructor].
    + destruct (flush_run_spaces run Hrun) as [Hf Hnil].
      rewrite !split_aux_spaces_l by done.
      destruct run as [|c0 run'].
      * assert (flush_run [] = []) as -> by by apply Hnil.
        simpl. rewrite Hc. by apply IH.
      * assert (Hnn : flush_run (c0 :: run') <> [])
          by (intros Hfr; by apply Hnil in Hfr).
        destruct (flush_run (c0 :: run')); [done|].
        f_equal. unfold split. simpl. rewrite Hc. by apply IH.
Qed.

Lemma split_sub_nl s : split (sub_nl [] s) = split s.
Proof. unfold split. by rewrite split_aux_sub_nl. Qed.

Lemma split_re_split_sent cur in_sep s :
  concat (map split (re_split_sent cur in_sep s))
  = split (cur ++ (if in_sep then [SP] else []) ++ s).
Proof.
  revert cur in_sep. induction s as [|c r IH]; intros cur in_sep; simpl.
  - destruct in_sep; simpl; rewrite ?app_nil_r; [|done].
    unfold split. rewrite split_aux_spaces_r; [done|by repeat constructor].
  - destruct (is_space c) eqn:Hc.
    + assert (Hskip : split (cur ++ (if in_sep then [SP] else []) ++ c :: r)
                      = split cur ++ split r).
      { destruct in_sep; simpl.
        - rewrite split_app_sp. unfold split at 2. simpl. by rewrite Hc.
        - unfold split at 1. by rewrite split_aux_app_space. }
      destruct (in_sep || ends_with_punct cur) eqn:Hsep.
      * rewrite IH, Hskip. simpl. by rewrite split_app_sp.
      * apply orb_false_elim in Hsep as [-> _]. rewrite IH. simpl.
        by rewrite <- app_assoc.
    + destruct in_sep; simpl.
      * rewrite IH. simpl. by rewrite split_app_sp.
      * rewrite IH. simpl. by rewrite <- app_assoc.
Qed.

Lemma strip_strip s : strip (strip s) = strip s.
Proof.
  destruct (strip s) as [|c r] eqn:Hs; [done|]. rewrite <- Hs.
  apply strip_trimmed. split.
  - exists c, r. split; [done|]. by eapply strip_head.
  - destruct (last (strip s)) as [d|] eqn:Hl.
    + exists d. split; [done|]. by eapply strip_last.
    + apply last_None in Hl. congruence.
Qed.

Lemma split_into_sentences_spec text :
  concat (map split (split_into_sentences text)) = split text
  /\ Forall (fun s => s <> [] /\ strip s = s) (split_into_sentences text).
Proof.
  unfold split_into_sentences. destruct text as [|c0 text0] eqn:Ht;
    [split; [done|constructor]|].
  assert (truthy text = true) as Htt by (by rewrite Ht).
  rewrite <- Ht, Htt. clear Ht Htt.
  set (parts := re_split_sent [] false (strip (sub_nl [] text))).
  assert (Hparts : concat (map split parts) = split text).
  { unfold parts. rewrite split_re_split_sent. simpl.
    by rewrite split_strip, split_sub_nl. }
  clearbody parts. split.
  - rewrite <- Hparts. clear Hparts. induction parts as [|p parts IH]; [done|].
    rewrite filter_cons. case_decide as Hp.
    + simpl. by rewrite split_strip, IH.
    + rewrite IH. simpl.
      assert (split p = []) as ->; [|done].
      destruct p as [|c p']; [done|]. simpl in Hp.
      apply not_true_is_false, truthy_false in Hp.
      by apply split_nil_inv, strip_nil_inv.
  - apply Forall_forall. intros s Hs.
    apply list_elem_of_fmap in Hs as (p & -> & Hp).
    apply list_elem_of_filter in Hp as [Hp _].
    apply andb_prop in Hp as [_ Hp]. apply truthy_true in Hp.
    split; [done|apply strip_strip].
Qed.

(** ** [bullets_from_text] *)

Lemma small_excused_app min_len max_len prev items ms :
  small_excused min_len max_len prev items ->
  small_excused min_len max_len
    (match last items with Some x => Some x | None => prev end) ms ->
  small_excused min_len max_len prev (items ++ ms).
Proof.
  revert prev. induction items as [|x tl IH]; intros prev; [done|].
  intros [Hx Htl] Hms. split.
  - intros Hlt. destruct (Hx Hlt) as [?|[?|(next & Hn & ?)]]; [by left|by right; left|].
    right; right. exists next. split; [|done]. by destruct tl.
  - apply IH; [done|]. rewrite last_cons in Hms. by destruct (last tl).
Qed.

Lemma small_excused_replace_last min_len max_len prev init x x' :
  small_excused min_len max_len prev (init ++ [x]) ->
  len x <= len x' -> len x' <= max_len ->
  small_excused min_len max_len prev (init ++ [x']).
Proof.
  intros H Hle Hmax. revert prev H. induction init as [|a init IH]; intros prev.
  - intros [Hx _]. split; [|done]. intros Hlt.
    destruct Hx as [?|[(p & ? & Hp)|(next & ? & _)]]; [lia|by left| |done].
    right; left. exists p. split; [done|]. unfold overfull in *. lia.
  - intros [Ha Hrest]. split; [|by apply IH].
    intros Hlt. destruct (Ha Hlt) as [?|[?|(next & Hn & Hw & Hlen)]];
      [by left|by right; left|].
    destruct init as [|b init'].
    + simpl in Hn. injection Hn as <-. lia.
    + right; right. by exists next.
Qed.

Lemma small_excused_overfull min_len max_len m l :
  adjacent (overfull max_len) (m :: l) ->
  small_excused min_len max_len (Some m) l.
Proof.
  revert m. induction l as [|m' l IH]; intros m; [done|].
  intros [Hm Hl]. split; [|by apply IH].
  intros _. right; left. by exists m.
Qed.

Lemma small_excused_pieces min_len max_len prev ms :
  (forall m, ms = [m] -> min_len <= len m) ->
  adjacent (overfull max_len) ms ->
  adjacent (undersized_blocked min_len max_len) ms ->
  small_excused min_len max_len prev ms.
Proof.
  intros Hone Hadj Hblk. destruct ms as [|m0 ms']; [done|].
  split; [|by apply small_excused_overfull].
  intros Hlt. destruct ms' as [|m1 tl].
  - specialize (Hone m0 eq_refl). lia.
  - destruct Hblk as [Hb _]. destruct (Hb Hlt) as (Hw & Hlen & _).
    right; right. by exists m1.
Qed.

Lemma small_excused_first min_len max_len ms :
  adjacent (overfull max_len) ms -> small_excused min_len max_len None ms.
Proof.
  destruct ms as [|m0 ms']; [done|]. intros Hadj.
  split; [by left|by apply small_excused_overfull].
Qed.

Lemma bullet_drop item : drop 2 (bullet item) = item.
Proof. done. Qed.

Lemma collapse_phrase sent :
  split sent <> [] ->
  phrase (collapse_whitespace sent)
  /\ split (collapse_whitespace sent) = split sent.
Proof.
  intros Hne. rewrite collapse_whitespace_split.
  split; [apply phrase_join_sp; [done|apply split_words]|].
  apply split_join_sp, split_words.
Qed.

Lemma len_phrase_app a b : len (a ++ SP :: b) = len a + 1 + len b.
Proof. rewrite len_app, len_cons. lia. Qed.

Lemma bullets_step_inv min_len max_len seen bullets sent :
  bullets_inv min_len max_len seen bullets ->
  bullets_inv min_len max_len (seen ++ split sent)
    (bullets_step min_len max_len bullets sent).
Proof.
  intros (items & -> & Hph & Hok & Hseen & Hex).
  unfold bullets_step.
  destruct (split sent) as [|w0 ws0] eqn:Hsplit.
  { assert (collapse_whitespace sent = []) as ->
      by (by rewrite collapse_whitespace_split, Hsplit).
    simpl. rewrite app_nil_r. by exists items. }
  destruct (collapse_phrase sent) as [Hp Hs]; [by rewrite Hsplit|].
  rewrite <- Hsplit, <- Hs. clear Hsplit Hs.
  set (sent' := collapse_whitespace sent) in *. clearbody sent'.
  destruct (phrase_strip _ Hp) as [_ Hne].
  assert (truthy sent' = true) as -> by by apply truthy_true.
  destruct (Z.ltb_spec max_len (len sent')) as [Hlong|Hfit].
  - destruct (chunk_to_range_spec sent' min_len max_len)
      as (M1 & M2 & M3 & M5 & M4).
    exists (items ++ chunk_to_range sent' min_len max_len).
    split; [by rewrite map_app|]. split; [by apply Forall_app|].
    split; [by apply Forall_app|].
    split; [by rewrite map_app, concat_app, Hseen, M2|].
    intros Hmm. apply small_excused_app; [by apply Hex|].
    apply small_excused_pieces; [|done|by apply M4].
    intros m Hm. rewrite Hm in M1, M2. simpl in M2. rewrite app_nil_r in M2.
    apply Forall_cons in M1 as [M1 _].
    destruct (phrase_split _ M1) as (_ & _ & Hjm).
    destruct (phrase_split _ Hp) as (_ & _ & Hjs).
    rewrite <- Hjm, M2, Hjs. lia.
  - assert (Happend :
      bullets_inv min_len max_len (seen ++ split sent')
        (map bullet items ++ [bullet sent']) <->
      (min_len <= max_len ->
       small_excused min_len max_len None (items ++ [sent']))).
    { split.
      - intros (items' & Heq & _ & _ & _ & Hex') Hmm.
        change (map bullet items ++ [bullet sent'])
          with (map bullet items ++ map bullet [sent']) in Heq.
        rewrite <- map_app in Heq.
        apply (inj (fmap bullet)) in Heq. rewrite Heq. by apply Hex'.
      - intros Hex'. exists (items ++ [sent']).
        split; [by rewrite map_app|].
        split; [apply Forall_app; split; [done|by constructor]|].
        split.
        { apply Forall_app; split; [done|]. constructor; [|done]. right; by left. }
        split; [|done].
        rewrite map_app, concat_app, Hseen. simpl. by rewrite app_nil_r. }
    destruct (Z.ltb_spec (len sent') min_len) as [Hshort|Hbig]; simpl andb.
    + destruct (last items) as [x|] eqn:Hlast.
      * apply last_Some in Hlast as [init ->].
        rewrite map_app. simpl map.
        assert (truthy (map bullet init ++ [bullet x]) = true) as ->
          by (by destruct (map bullet init)).
        rewrite last_snoc. simpl default. rewrite bullet_drop.
        apply Forall_app in Hph as [Hph1 Hpx].
        apply Forall_cons in Hpx as [Hpx _].
        apply Forall_app in Hok as [Hok1 _].
        destruct (phrase_strip _ (phrase_app _ _ Hpx Hp)) as [-> _].
        rewrite len_phrase_app.
        destruct (Z.leb_spec (len x + 1 + len sent') max_len) as [Hle|Hgt].
        -- rewrite removelast_last. exists (init ++ [x ++ SP :: sent']).
           split; [by rewrite map_app|].
           split; [apply Forall_app; split; [done|]; constructor; [|done];
                   by apply phrase_app|].
           split.
           { apply Forall_app; split; [done|]. constructor; [|done].
             right; left. by rewrite len_phrase_app. }
           split.
           { rewrite <- Hseen, !map_app, !concat_app. simpl.
             rewrite !app_nil_r, split_app_sp. by rewrite <- app_assoc. }
           intros Hmm. eapply small_excused_replace_last; [by apply Hex| |].
           ++ rewrite len_phrase_app. pose proof (len_nonneg sent'). lia.
           ++ by rewrite len_phrase_app.
        -- change [bullet x] with (map bullet [x]).
           rewrite <- (map_app bullet init [x]).
           apply Happend. intros Hmm.
           apply small_excused_app; [by apply Hex|].
           rewrite last_snoc. split; [|done].
           intros _. right; left. exists x. split; [done|]. unfold overfull. lia.
      * assert (items = []) as -> by (by apply last_None).
        simpl. apply Happend. intros _. simpl. split; [|done]. by left.
    + apply Happend. intros Hmm. apply small_excused_app; [by apply Hex|].
      split; [|done]. intros ?. lia.
Qed.

Lemma bullets_fold_inv min_len max_len sentences seen bullets :
  bullets_inv min_len max_len seen bullets ->
  bullets_inv min_len max_len (seen ++ concat (map split sentences))
    (fold_left (bullets_step min_len max_len) sentences bullets).
Proof.
  revert seen bullets. induction sentences as [|s ss IH]; intros seen bullets Hinv.
  - simpl. by rewrite app_nil_r.
  - simpl. rewrite app_assoc. apply IH. by apply bullets_step_inv.
Qed.

Lemma bullets_from_text_inv text min_len max_len :
  bullets_inv min_len max_len (split text) (bullets_from_text text min_len max_len).
Proof.
  unfold bullets_from_text.
  destruct (split_into_sentences_spec text) as [<- _].
  apply (bullets_fold_inv _ _ _ []).
  exists []. repeat split; done.
Qed.

(** C3, as amended. Every bullet is ["- "] followed by an item; the items
    are made of the words of the input, whole and in order; an item is a
    single word, or has at most [max_len] characters, or is a word-wrapped
    piece under [min_len] merged with the next piece into at most twice
    [max_len] characters.  With [min_len <= max_len], an item under
    [min_len] is the first item, or does not fit within [max_len] together
    with the item before it, or is followed by a single word longer than
    [max_len].  The same holds for the pieces of [chunk_to_range]. *)
Theorem bullets_from_text_bounds text min_len max_len :
  (exists items,
     bullets_from_text text min_len max_len = map bullet items
     /\ Forall (item_ok min_len max_len) items
     /\ concat (map split items) = split text
     /\ (min_len <= max_len -> small_excused min_len max_len None items))
  /\ (let pieces := chunk_to_range text min_len max_len in
      Forall (item_ok min_len max_len) pieces
      /\ concat (map split pieces) = split text
      /\ small_excused min_len max_len None pieces).
Proof.
  split.
  - destruct (bullets_from_text_inv text min_len max_len)
      as (items & H1 & _ & H3 & H4 & H5).
    by exists items.
  - destruct (chunk_to_range_spec text min_len max_len) as (_ & M2 & M3 & M5 & _).
    cbv zeta. split; [done|]. split; [done|]. by apply small_excused_first.
Qed.

Lemma bullets_from_text_bounds_witness :
  exists items,
    bullets_from_text (py "Short one. Then a longer sentence follows here.") 12 20
    = map bullet items
    /\ small_excused 12 20 None items.
Proof.
  destruct (bullets_from_text_bounds
              (py "Short one. Then a longer sentence follows here.") 12 20)
    as [(items & H1 & _ & _ & H4) _].
  exists items. split; [exact H1|]. apply H4. lia.
Defined.

(** C3, as stated, fails: with the default bounds 80 and 140, a sentence
    made of a one-letter word and a word of 140 letters is wrapped into two
    pieces and merged back into one item of 142 characters, though none of
    its words is longer than 140. *)
Lemma bullets_length_counterexample :
  let text := py "a " ++ repeat 98%N 140 in
  bullets_from_text text 80 140 = [bullet text]
  /\ chunk_to_range text 80 140 = [text]
  /\ len text = 142
  /\ split text = [py "a"; repeat 98%N 140]
  /\ len (repeat 98%N 140) = 140.
Proof. repeat split; vm_compute; reflexivity. Qed.

(** ** [chunk_text_range] keeps the content *)

Lemma nonspace_concat_join ws :
  nonspace (concat ws) = concat (map nonspace ws).
Proof.
  induction ws as [|w ws IH]; [done|]. simpl. by rewrite nonspace_app, IH.
Qed.

Lemma split_into_sentences_nonspace text :
  nonspace (concat (split_into_sentences text)) = nonspace text.
Proof.
  destruct (split_into_sentences_spec text) as [Hs _].
  rewrite <- (split_concat text), <- Hs. clear Hs.
  induction (split_into_sentences text) as [|s ss IH]; [done|].
  cbn [concat map]. rewrite nonspace_app, IH, concat_app, split_concat. done.
Qed.

Lemma len_sublist_strip s : len (strip s) <= len s.
Proof.
  destruct (strip_spec s) as (l & r & Hs & _ & _).
  rewrite Hs at 2. rewrite !len_app.
  pose proof (len_nonneg l). pose proof (len_nonneg r). lia.
Qed.

Lemma ctr_step_content max_chars st sent :
  nonspace (concat (ctr_chunks (ctr_step max_chars st sent)))
  ++ nonspace (concat (ctr_current (ctr_step max_chars st sent)))
  = (nonspace (concat (ctr_chunks st)) ++ nonspace (concat (ctr_current st)))
    ++ nonspace sent.
Proof.
  unfold ctr_step. rewrite <- (nonspace_strip sent).
  destruct (strip sent) as [|c s] eqn:Hs; simpl truthy; cbv iota.
  - by rewrite app_nil_r.
  - destruct (truthy (ctr_current st) && _); cbn [ctr_chunks ctr_current].
    + rewrite concat_app, nonspace_app. simpl concat. rewrite !app_nil_r.
      by rewrite nonspace_join_sp.
    + rewrite concat_app, nonspace_app. simpl concat. rewrite app_nil_r.
      by rewrite app_assoc.
Qed.

Lemma ctr_fold_content max_chars sentences st :
  let st' := fold_left (ctr_step max_chars) sentences st in
  nonspace (concat (ctr_chunks st')) ++ nonspace (concat (ctr_current st'))
  = (nonspace (concat (ctr_chunks st)) ++ nonspace (concat (ctr_current st)))
    ++ nonspace (concat sentences).
Proof.
  revert st. induction sentences as [|s ss IH]; intros st; simpl.
  - by rewrite app_nil_r.
  - rewrite IH, ctr_step_content, nonspace_app. by rewrite <- !app_assoc.
Qed.

Lemma last_removelast {A} (l : list A) x :
  last l = Some x -> l = removelast l ++ [x].
Proof.
  intros [l' ->]%last_Some. by rewrite removelast_last.
Qed.

Lemma ctr_finish_content min_chars max_chars st :
  nonspace (concat (ctr_finish min_chars max_chars st))
  = nonspace (concat (ctr_chunks st)) ++ nonspace (concat (ctr_current st)).
Proof.
  unfold ctr_finish. destruct (ctr_current st) as [|s ss] eqn:Hcur.
  - simpl. by rewrite app_nil_r.
  - simpl truthy. cbv iota.
    set (rest := join_sp (s :: ss)).
    assert (Hrest : nonspace rest = nonspace (concat (s :: ss)))
      by apply nonspace_join_sp.
    clearbody rest.
    assert (Hone : forall x : list N, concat [x] = x)
      by (intros x; simpl; apply app_nil_r).
    assert (Happ : nonspace (concat (ctr_chunks st ++ [rest]))
              = nonspace (concat (ctr_chunks st)) ++ nonspace (concat (s :: ss))).
    { by rewrite concat_app, nonspace_app, Hone, Hrest. }
    destruct (len rest <? min_chars); simpl andb; [|done].
    destruct (last (ctr_chunks st)) as [prev|] eqn:Hlast.
    + assert (truthy (ctr_chunks st) = true) as ->
        by (by destruct (ctr_chunks st)).
      simpl default.
      destruct (len _ <=? max_chars * 2); [|done].
      rewrite (last_removelast _ _ Hlast) at 2.
      rewrite !concat_app, !nonspace_app, !Hone.
      rewrite nonspace_strip, nonspace_app, nonspace_cons_space by done.
      rewrite Hrest. by rewrite <- app_assoc.
    + apply last_None in Hlast. rewrite Hlast. simpl truthy. cbv iota.
      rewrite Hlast in Happ. done.
Qed.

(** ** Slices *)

Lemma norm_index_id n i : 0 <= i <= n -> norm_index n i = i.
Proof. intros H. unfold norm_index. destruct (Z.ltb_spec i 0); lia. Qed.

Lemma slice_sub t a b :
  0 <= a <= len t -> 0 <= b <= len t -> slice t a b = sub t a b.
Proof.
  intros Ha Hb. unfold slice, sub. by rewrite !norm_index_id.
Qed.

Lemma sub_app t a b c :
  0 <= a <= b -> b <= c -> sub t a c = sub t a b ++ sub t b c.
Proof.
  intros Hab Hbc. unfold sub.
  replace (Z.to_nat (c - a)) with (Z.to_nat (b - a) + Z.to_nat (c - b))%nat by lia.
  rewrite <- take_take_drop. rewrite drop_drop.
  by replace (Z.to_nat a + Z.to_nat (b - a))%nat with (Z.to_nat b) by lia.
Qed.

Lemma len_sub t a b : 0 <= a <= b -> b <= len t -> len (sub t a b) = b - a.
Proof.
  intros Hab Hb. unfold sub, len in *. rewrite length_take, length_drop. lia.
Qed.

Lemma sub_nil t a b : b <= a -> sub t a b = [].
Proof. intros H. unfold sub. replace (Z.to_nat (b - a)) with 0%nat by lia. done. Qed.

Lemma sub_all t : sub t 0 (len t) = t.
Proof.
  unfold sub, len. rewrite Z.sub_0_r, Nat2Z.id. simpl. apply firstn_all.
Qed.

Lemma blank_app a b : blank (a ++ b) <-> blank a /\ blank b.
Proof. apply Forall_app. Qed.

Lemma blank_sub_inner t x y x' y' :
  blank (sub t x y) -> 0 <= x <= x' -> x' <= y' -> y' <= y ->
  blank (sub t x' y').
Proof.
  intros Hb Hx Hxy Hy.
  rewrite (sub_app t x x' y), (sub_app t x' y' y) in Hb by lia.
  by apply blank_app in Hb as [_ [? _]%blank_app].
Qed.

Lemma nonspace_blank s : blank s -> nonspace s = [].
Proof. apply nonspace_spaces. Qed.

Lemma blank_nonspace_at t x y p :
  blank (sub t x y) -> 0 <= x <= p -> p < y -> nonspace_at t p -> False.
Proof.
  intros Hb Hx Hp (c & Hc & Hsp).
  pose proof (blank_sub_inner t x y p (p + 1) Hb ltac:(lia) ltac:(lia) ltac:(lia))
    as Hb'.
  rewrite Hc in Hb'. apply Forall_cons in Hb' as [? _]. congruence.
Qed.

Lemma sub_single t p :
  0 <= p -> p < len t -> exists c, sub t p (p + 1) = [c].
Proof.
  intros Hp Hlt. pose proof (len_sub t p (p + 1) ltac:(lia) ltac:(lia)) as Hl.
  destruct (sub t p (p + 1)) as [|c [|c' r]] eqn:Hs.
  - rewrite len_nil in Hl. lia.
  - by exists c.
  - rewrite !len_cons in Hl. pose proof (len_nonneg r). lia.
Qed.

(** The positions of a stripped window. *)
Lemma strip_sub t s c :
  0 <= s <= c -> c <= len t ->
  (strip (sub t s c) = [] /\ blank (sub t s c))
  \/ (exists a b,
        s <= a /\ a < b /\ b <= c
        /\ strip (sub t s c) = sub t a b
        /\ blank (sub t s a) /\ blank (sub t b c)
        /\ nonspace_at t a /\ nonspace_at t (b - 1)).
Proof.
  intros Hsc Hc.
  destruct (strip_spec (sub t s c)) as (l & r & Hw & Hl & Hr).
  destruct (strip (sub t s c)) as [|c0 chunk'] eqn:Hstrip.
  { left. split; [done|]. rewrite Hw. by apply blank_app. }
  right. rewrite <- Hstrip in *.
  assert (Hlen : len l + len (strip (sub t s c)) + len r = c - s).
  { rewrite <- (len_sub t s c) by lia. rewrite Hw at 2. rewrite !len_app. lia. }
  pose proof (len_nonneg l). pose proof (len_nonneg r).
  assert (0 < len (strip (sub t s c))) by (rewrite Hstrip, len_cons; pose proof (len_nonneg chunk'); lia).
  set (a := s + len l). set (b := a + len (strip (sub t s c))).
  assert (Hsplit : sub t s c = sub t s a ++ sub t a b ++ sub t b c).
  { rewrite (sub_app t s a c), (sub_app t a b c) by (unfold a, b; lia). done. }
  rewrite Hsplit in Hw at 1.
  apply app_inj_1 in Hw as [Hl1 Hw].
  2:{ apply Nat2Z.inj. fold (len (sub t s a)). fold (len l).
      rewrite len_sub; unfold a; lia. }
  apply app_inj_1 in Hw as [Hl2 Hw].
  2:{ apply Nat2Z.inj. fold (len (sub t a b)). fold (len (strip (sub t s c))).
      rewrite len_sub; unfold a, b; lia. }
  exists a, b. split; [unfold a; lia|]. split; [unfold b; lia|].
  split; [unfold a, b; lia|]. split; [done|].
  split; [by rewrite Hl1|]. split; [by rewrite Hw|].
  split.
  - destruct (sub_single t a) as [x Hx]; [unfold a; lia|unfold a, b in *; lia|].
    exists x. split; [done|].
    rewrite (sub_app t a (a + 1) b), Hx in Hl2 by (unfold b; lia).
    rewrite Hstrip in Hl2. injection Hl2 as -> _. eapply strip_head, Hstrip.
  - destruct (sub_single t (b - 1)) as [x Hx]; [unfold a, b; lia|unfold a, b in *; lia|].
    unfold nonspace_at. replace (b - 1 + 1) with b in * by lia.
    exists x. split; [done|].
    rewrite (sub_app t a (b - 1) b), Hx in Hl2 by (unfold b; lia).
    eapply strip_last. rewrite <- Hl2. by rewrite last_snoc.
Qed.

(** ** [chunk_text_range]: the hard split and the result *)

Lemma hard_split_content fuel c max_chars start pieces :
  0 < max_chars -> 0 <= start <= len c ->
  hard_split fuel c max_chars start = Some pieces ->
  nonspace (concat pieces) = nonspace (sub c start (len c))
  /\ Forall (fun p => len p <= max_chars) pieces.
Proof.
  intros Hm. revert start pieces.
  induction fuel as [|fuel IH]; intros start pieces Hs.
  - simpl. destruct (Z.ltb_spec start (len c)); [done|]. intros [= <-].
    by rewrite sub_nil by lia.
  - rewrite hard_split_S. destruct (Z.ltb_spec start (len c)) as [Hlt|Hge].
    + set (e := Z.min (len c) (start + max_chars)).
      destruct (hard_split fuel c max_chars e) as [rest|] eqn:Hrest; [|done].
      simpl. intros [= <-].
      destruct (IH e rest ltac:(unfold e; lia) Hrest) as [IH1 IH2].
      rewrite slice_sub by (unfold e; lia).
      split.
      * simpl. rewrite nonspace_app, nonspace_strip, IH1.
        rewrite (sub_app c start e (len c)) by (unfold e; lia).
        by rewrite nonspace_app.
      * constructor; [|done].
        pose proof (len_sublist_strip (sub c start e)).
        rewrite len_sub in * by (unfold e; lia). unfold e in *. lia.
    + intros [= <-]. by rewrite sub_nil by lia.
Qed.

Lemma fix_chunk_content max_chars c pieces :
  0 < max_chars -> fix_chunk max_chars c = Some pieces ->
  nonspace (concat pieces) = nonspace c
  /\ Forall (fun p => len p <= max_chars) pieces.
Proof.
  intros Hm. unfold fix_chunk. destruct (Z.leb_spec (len c) max_chars).
  - intros [= <-]. simpl. rewrite app_nil_r. split; [done|by constructor].
  - intros H'. apply hard_split_content in H' as [H1 H2];
      [|done|pose proof (len_nonneg c); lia].
    by rewrite sub_all in H1.
Qed.

Lemma mapM_fix_content max_chars chunks fixed :
  0 < max_chars -> mapM (fix_chunk max_chars) chunks = Some fixed ->
  nonspace (concat (concat fixed)) = nonspace (concat chunks)
  /\ Forall (fun p => len p <= max_chars) (concat fixed).
Proof.
  intros Hm Hf. apply mapM_Some in Hf.
  induction Hf as [|c ps chunks fixed Hc _ [IH1 IH2]]; [done|].
  destruct (fix_chunk_content _ _ _ Hm Hc) as [H1 H2].
  cbn [concat]. split.
  - by rewrite concat_app, !nonspace_app, IH1, H1.
  - by apply Forall_app.
Qed.

Lemma strip_filter_content l :
  nonspace (concat (filter (fun f => truthy f = true) (map strip l)))
  = nonspace (concat l).
Proof.
  induction l as [|x l IH]; [done|].
  cbn [map concat]. rewrite filter_cons, nonspace_app, <- IH, <- (nonspace_strip x).
  case_decide as Hx.
  - cbn [concat]. by rewrite nonspace_app.
  - apply not_true_is_false, truthy_false in Hx. by rewrite Hx.
Qed.

Lemma strip_filter_bound max_chars l :
  Forall (fun p => len p <= max_chars) l ->
  Forall (fun p => len p <= max_chars)
    (filter (fun f => truthy f = true) (map strip l)).
Proof.
  intros Hl. apply Forall_forall. intros x [_ Hx]%list_elem_of_filter.
  apply list_elem_of_fmap in Hx as (y & -> & Hy).
  rewrite Forall_forall in Hl. pose proof (Hl y Hy).
  pose proof (len_sublist_strip y). lia.
Qed.

Lemma chunk_text_range_content text min_chars max_chars :
  0 < max_chars ->
  exists chunks,
    chunk_text_range text min_chars max_chars = Some chunks
    /\ nonspace (concat chunks) = nonspace text
    /\ Forall (fun c => len c <= max_chars) chunks.
Proof.
  intros Hm.
  destruct (chunk_text_range_total text min_chars max_chars Hm) as [chunks Hc].
  exists chunks. split; [done|]. unfold chunk_text_range in Hc.
  destruct (mapM _ _) as [fixed|] eqn:Hfixed; [|done].
  simpl in Hc. injection Hc as <-.
  destruct (mapM_fix_content _ _ _ Hm Hfixed) as [H1 H2].
  split; [|by apply strip_filter_bound].
  rewrite strip_filter_content, H1, ctr_finish_content.
  pose proof (ctr_fold_content max_chars (split_into_sentences text)
                (CtrState [] [] 0)) as Hfold.
  cbv zeta in Hfold. rewrite Hfold. simpl.
  apply split_into_sentences_nonspace.
Qed.

(** ** [simple_chunk] keeps the content *)

Lemma shared_ok_length overlap prev chunks shared :
  shared_ok overlap prev chunks shared -> length shared = length chunks.
Proof.
  revert prev shared. induction chunks as [|c cs IH]; intros prev [|k ks]; simpl;
    try done.
  intros [_ H]. f_equal. by eapply IH.
Qed.

Lemma shared_ok_snoc overlap prev chunks shared c k :
  shared_ok overlap prev chunks shared ->
  match (match last chunks with Some x => Some x | None => prev end) with
  | None => k = 0%nat
  | Some p =>
      Z.of_nat k <= overlap /\ (k <= length c)%nat /\ take k c `suffix_of` p
  end ->
  shared_ok overlap prev (chunks ++ [c]) (shared ++ [k]).
Proof.
  revert prev shared. induction chunks as [|c0 cs IH]; intros prev [|k0 ks];
    simpl; try done.
  intros [H0 Hrest] Hk. split; [done|]. apply IH; [done|].
  rewrite last_cons in Hk. by destruct (last cs).
Qed.

Lemma dedup_concat_snoc shared chunks k c :
  length shared = length chunks ->
  dedup_concat (shared ++ [k]) (chunks ++ [c])
  = dedup_concat shared chunks ++ drop k c.
Proof.
  intros Hlen. unfold dedup_concat.
  rewrite zip_with_app by done. rewrite concat_app. simpl. by rewrite app_nil_r.
Qed.

Lemma take_sub t a m b :
  0 <= a <= m -> m <= b -> b <= len t ->
  take (Z.to_nat (m - a)) (sub t a b) = sub t a m.
Proof.
  intros Ha Hm Hb. rewrite (sub_app t a m b) by lia.
  apply take_app_length'. apply Nat2Z.inj. fold (len (sub t a m)).
  rewrite len_sub by lia. lia.
Qed.

Lemma drop_sub t a m b :
  0 <= a <= m -> m <= b -> b <= len t ->
  drop (Z.to_nat (m - a)) (sub t a b) = sub t m b.
Proof.
  intros Ha Hm Hb. rewrite (sub_app t a m b) by lia.
  apply drop_app_length'. apply Nat2Z.inj. fold (len (sub t a m)).
  rewrite len_sub by lia. lia.
Qed.

Lemma nonspace_sub_drop_prefix t x x' y :
  blank (sub t x x') -> 0 <= x <= x' -> x' <= y ->
  nonspace (sub t x y) = nonspace (sub t x' y).
Proof.
  intros Hb Hx Hy. rewrite (sub_app t x x' y) by lia.
  by rewrite nonspace_app, nonspace_blank.
Qed.

Lemma nonspace_sub_drop_suffix t x y' y :
  blank (sub t y' y) -> 0 <= x <= y' -> y' <= y ->
  nonspace (sub t x y) = nonspace (sub t x y').
Proof.
  intros Hb Hx Hy. rewrite (sub_app t x y' y) by lia.
  by rewrite nonspace_app, (nonspace_blank (sub t y' y)), app_nil_r.
Qed.

Lemma blank_sub_nil t a b : b <= a -> blank (sub t a b).
Proof. intros H. rewrite sub_nil by done. constructor. Qed.

Lemma blank_sub_app t a b c :
  0 <= a <= b -> b <= c -> blank (sub t a b) -> blank (sub t b c) ->
  blank (sub t a c).
Proof.
  intros Ha Hb H1 H2. rewrite (sub_app t a b c) by lia. by apply blank_app.
Qed.

Lemma simple_chunk_step_facts t max_chars overlap start cut chunk next :
  0 < max_chars -> 0 <= start < len t ->
  simple_chunk_step t max_chars overlap start = (cut, chunk, next) ->
  start < cut <= len t /\ cut <= start + max_chars
  /\ (cut = Z.min (len t) (start + max_chars) \/ 2 * start + max_chars < 2 * cut)
  /\ chunk = strip (sub t start cut)
  /\ next = Z.max (cut - overlap) (start + 1).
Proof.
  intros Hm Hs Hstep.
  pose proof (simple_chunk_step_cut t max_chars overlap start Hm Hs) as Hcut.
  rewrite Hstep in Hcut.
  unfold simple_chunk_step in Hstep. injection Hstep as Hc Hch Hn.
  split; [lia|]. split; [lia|]. split.
  - rewrite <- Hc.
    destruct ((_ =? -1) || (2 * _ <=? 2 * start + max_chars)) eqn:Hcond;
      [by left|right].
    apply orb_false_elim in Hcond as [_ H2]. apply Z.leb_gt in H2. lia.
  - split; [|by rewrite <- Hn, Hc].
    rewrite <- Hch, Hc. by rewrite slice_sub by lia.
Qed.

Lemma simple_chunk_step_inv t max_chars overlap start chunks cut chunk next :
  0 < max_chars -> 0 <= overlap -> 2 * overlap <= max_chars ->
  start < len t ->
  sc_inv t max_chars overlap start chunks ->
  simple_chunk_step t max_chars overlap start = (cut, chunk, next) ->
  sc_inv t max_chars overlap next
    (if truthy chunk then chunks ++ [chunk] else chunks).
Proof.
  intros Hm Ho Hom Hlt (shared & hi & Hs & Hhi & Hgap & Hsh & Hbound & Hcontent & Hlast)
    Hstep.
  assert (Hs0 : 0 <= start < len t) by lia.
  destruct (simple_chunk_step_facts _ _ _ _ _ _ _ Hm Hs0 Hstep)
    as (Hcut & Hcutmax & Hcutkind & -> & ->).
  assert (Hhicut : hi <= cut) by lia.
  assert (Hnext : 0 <= Z.max (cut - overlap) (start + 1) <= cut) by lia.
  assert (Hnextgap : cut - Z.max (cut - overlap) (start + 1) <= overlap) by lia.
  set (next := Z.max (cut - overlap) (start + 1)) in *.
  assert (Hsn : start <= next) by (unfold next; lia).
  assert (Hcover : nonspace (sub t 0 cut)
                   = nonspace (sub t 0 hi) ++ nonspace (sub t hi cut)).
  { rewrite (sub_app t 0 hi cut) by lia. apply nonspace_app. }
  destruct (strip_sub t start cut ltac:(lia) ltac:(lia))
    as [[Hempty Hblank]|(a' & b' & Ha' & Hab' & Hb' & Hchunk & Hbl & Hbr & Hna & Hnb)].
  - (* a window of whitespace: no chunk *)
    rewrite Hempty. simpl truthy. cbv iota.
    assert (Hbhc : blank (sub t hi cut))
      by (eapply blank_sub_inner; [exact Hblank|lia..]).
    exists shared, cut.
    split; [lia|]. split; [lia|]. split; [lia|]. split; [done|]. split; [done|].
    split; [by rewrite Hcontent, Hcover, (nonspace_blank _ Hbhc), app_nil_r|].
    destruct (last chunks) as [c|].
    + destruct Hlast as (a & b & H0a & Hab & Hbhi & -> & Hb1 & Hb2 & Hb3).
      exists a, b. split; [done|]. split; [done|]. split; [lia|]. split; [done|].
      split; [apply (blank_sub_app t b hi cut); [lia|lia|done|done]|].
      split; [|done].
      intros Hna. eapply blank_sub_inner; [apply Hb2; lia|lia..].
    + apply (blank_sub_app t 0 hi cut); [lia|lia|done|done].
  - (* a chunk from [a'] to [b'] *)
    rewrite Hchunk.
    assert (Hlenc : len (sub t a' b') = b' - a') by (apply len_sub; lia).
    assert (truthy (sub t a' b') = true) as ->.
    { apply truthy_true. intros Hnil. rewrite Hnil, len_nil in Hlenc. lia. }
    pose proof (shared_ok_length _ _ _ _ Hsh) as Hshlen.
    assert (Hnew : forall k : nat,
      match last chunks with
      | None => k = 0%nat
      | Some p =>
          Z.of_nat k <= overlap /\ (k <= length (sub t a' b'))%nat
          /\ take k (sub t a' b') `suffix_of` p
      end ->
      nonspace (drop k (sub t a' b')) = nonspace (sub t hi cut) ->
      sc_inv t max_chars overlap next (chunks ++ [sub t a' b'])).
    { intros k Hk Hdrop. exists (shared ++ [k]), cut.
      split; [lia|]. split; [lia|]. split; [lia|].
      split; [apply shared_ok_snoc; [done|by destruct (last chunks)]|].
      split; [apply Forall_app; split; [done|]; constructor; [lia|done]|].
      split; [by rewrite dedup_concat_snoc, nonspace_app, Hcontent, Hcover, Hdrop|].
      rewrite last_snoc. exists a', b'.
      split; [lia|]. split; [done|]. split; [done|]. split; [done|].
      split; [done|]. split; [|done].
      intros Hna'. eapply blank_sub_inner; [exact Hbl|lia..]. }
    assert (Hfresh : hi <= a' ->
              nonspace (drop 0 (sub t a' b')) = nonspace (sub t hi cut)).
    { intros Hle. simpl.
      rewrite (nonspace_sub_drop_prefix t hi a' cut); [|
        eapply blank_sub_inner; [exact Hbl|lia..]|lia|lia].
      by rewrite (nonspace_sub_drop_suffix t a' b' cut) by (done || lia). }
    destruct (last chunks) as [c|] eqn:Hlc.
    + destruct Hlast as (a & b & H0a & Hab & Hbhi & -> & Hb1 & Hb2 & Hb3).
      destruct (Z.ltb_spec a' b) as [Hov|Hnov].
      * (* the chunk starts inside the one before it *)
        assert (Haa : a <= a').
        { destruct (Z.le_gt_cases a a') as [?|Hgt]; [done|]. exfalso.
          eapply (blank_nonspace_at t start a a'); [apply Hb2; lia|lia|lia|done]. }
        assert (Hbb : b <= b').
        { destruct (Z.le_gt_cases b b') as [?|Hgt]; [done|]. exfalso.
          eapply (blank_nonspace_at t b' cut (b - 1)); [done|lia|lia|done]. }
        apply (Hnew (Z.to_nat (b - a'))).
        -- split; [lia|]. split.
           { apply Nat2Z.inj_le. fold (len (sub t a' b')). lia. }
           rewrite take_sub by lia.
           rewrite (sub_app t a a' b) by lia. by apply suffix_app_r.
        -- rewrite drop_sub by lia.
           rewrite <- (nonspace_sub_drop_suffix t b b' cut) by (done || lia).
           by rewrite (nonspace_sub_drop_prefix t b hi cut) by (done || lia).
      * (* the chunk starts after the one before it *)
        assert (Hhia : hi <= a').
        { destruct (Z.le_gt_cases hi a') as [?|Hgt]; [done|]. exfalso.
          eapply (blank_nonspace_at t b hi a'); [done|lia|lia|done]. }
        apply (Hnew 0%nat); [|by apply Hfresh].
        split; [lia|]. split; [lia|]. simpl. apply suffix_nil.
    + assert (Hhia : hi <= a').
      { destruct (Z.le_gt_cases hi a') as [?|Hgt]; [done|]. exfalso.
        eapply (blank_nonspace_at t 0 hi a'); [done|lia|lia|done]. }
      apply (Hnew 0%nat); [done|by apply Hfresh].
Qed.

Lemma simple_chunk_loop_inv fuel t max_chars overlap start chunks r :
  0 < max_chars -> 0 <= overlap -> 2 * overlap <= max_chars ->
  sc_inv t max_chars overlap start chunks ->
  simple_chunk_loop fuel t max_chars overlap start chunks = Some r ->
  exists shared,
    shared_ok overlap None r shared
    /\ Forall (fun c => len c <= max_chars) r
    /\ nonspace (dedup_concat shared r) = nonspace t.
Proof.
  intros Hm Ho Hom. revert start chunks.
  assert (Hdone : forall start chunks,
            sc_inv t max_chars overlap start chunks -> len t <= start ->
            exists shared,
              shared_ok overlap None chunks shared
              /\ Forall (fun c => len c <= max_chars) chunks
              /\ nonspace (dedup_concat shared chunks) = nonspace t).
  { intros start chunks (shared & hi & Hs & Hhi & _ & Hsh & Hb & Hc & _) Hge.
    exists shared. split; [done|]. split; [done|].
    assert (hi = len t) as -> by lia. by rewrite sub_all in Hc. }
  induction fuel as [|fuel IH]; intros start chunks Hinv.
  - simpl. destruct (Z.ltb_spec start (len t)); [done|].
    intros [= <-]. by eapply Hdone.
  - rewrite simple_chunk_loop_S.
    destruct (Z.ltb_spec start (len t)) as [Hlt|Hge];
      [|intros [= <-]; by eapply Hdone].
    destruct (simple_chunk_step t max_chars overlap start)
      as [[cut chunk] next] eqn:Hstep.
    apply IH. by eapply simple_chunk_step_inv.
Qed.

Lemma simple_chunk_content text max_chars overlap :
  0 < max_chars -> 0 <= overlap -> 2 * overlap <= max_chars ->
  exists chunks shared,
    simple_chunk text max_chars overlap = Some chunks
    /\ shared_ok overlap None chunks shared
    /\ Forall (fun c => len c <= max_chars) chunks
    /\ nonspace (dedup_concat shared chunks) = nonspace text.
Proof.
  intros Hm Ho Hom.
  destruct (simple_chunk_total text max_chars overlap) as [chunks Hc].
  exists chunks. pose proof Hc as Hc0. unfold simple_chunk in Hc.
  rewrite <- (nonspace_strip text).
  destruct (truthy (strip text)) eqn:Ht.
  - destruct (Z.leb_spec (len (strip text)) max_chars) as [Hle|Hgt].
    + injection Hc as <-. exists [0%nat]. split; [done|].
      split; [done|]. split; [by constructor|].
      unfold dedup_concat. simpl. by rewrite app_nil_r.
    + apply simple_chunk_loop_inv in Hc as (shared & H1 & H2 & H3); try done.
      * by exists shared.
      * exists [], 0. split; [lia|]. split; [apply len_nonneg|].
        split; [lia|]. split; [done|]. split; [done|].
        rewrite sub_nil by lia. split; [done|]. simpl. constructor.
  - injection Hc as <-. apply truthy_false in Ht. rewrite Ht.
    by exists [].
Qed.

(** C2. No content is lost in chunking.  For the character windows of
    [simple_chunk], at the default bounds 900 and 150 and whenever
    [0 < max_chars] and the overlap is at most half of it: every chunk has a prefix, of at most
    [overlap] characters and none for the first chunk, that is also the end
    of the chunk before it, and the chunks without these prefixes hold
    the characters of the text, in order, up to the whitespace stripped at
    the edges of chunks; no chunk is longer than [max_chars].  For the
    sentence windows of [chunk_text_range], with [0 < max_chars]: the chunks
    hold the characters of the text in order, up to whitespace, and none is
    longer than [max_chars], the pieces of a hard split included.  For the
    bullet merge: the items of [bullets_from_text], and the pieces of
    [chunk_to_range], hold the words of the text, in order. *)
Theorem chunking_keeps_content text :
  (exists chunks shared,
     simple_chunk text 900 150 = Some chunks
     /\ shared_ok 150 None chunks shared
     /\ Forall (fun c => len c <= 900) chunks
     /\ nonspace (dedup_concat shared chunks) = nonspace text)
  /\ (exists chunks,
        chunk_text_range text 400 900 = Some chunks
        /\ nonspace (concat chunks) = nonspace text
        /\ Forall (fun c => len c <= 900) chunks)
  /\ (forall max_chars overlap,
        0 < max_chars -> 0 <= overlap -> 2 * overlap <= max_chars ->
        exists chunks shared,
          simple_chunk text max_chars overlap = Some chunks
          /\ shared_ok overlap None chunks shared
          /\ Forall (fun c => len c <= max_chars) chunks
          /\ nonspace (dedup_concat shared chunks) = nonspace text)
  /\ (forall min_chars max_chars,
        0 < max_chars ->
        exists chunks,
          chunk_text_range text min_chars max_chars = Some chunks
          /\ nonspace (concat chunks) = nonspace text
          /\ Forall (fun c => len c <= max_chars) chunks)
  /\ (forall min_len max_len,
        (exists items,
           bullets_from_text text min_len max_len = map bullet items
           /\ concat (map split items) = split text)
        /\ concat (map split (chunk_to_range text min_len max_len)) = split text).
Proof.
  split; [|split; [|split; [|split]]].
  - apply simple_chunk_content; lia.
  - apply chunk_text_range_content; lia.
  - intros. by apply simple_chunk_content.
  - intros. by apply chunk_text_range_content.
  - intros min_len max_len. split.
    + destruct (bullets_from_text_inv text min_len max_len)
        as (items & H1 & _ & _ & H4 & _).
      by exists items.
    + by destruct (chunk_to_range_spec text min_len max_len) as (_ & M2 & _).
Qed.

Lemma chunking_keeps_content_witness :
  let text := py "One two. Three four five. Six." in
  (exists chunks shared,
     simple_chunk text 12 4 = Some chunks
     /\ shared_ok 4 None chunks shared
     /\ nonspace (dedup_concat shared chunks) = nonspace text)
  /\ (exists chunks,
        chunk_text_range text 5 12 = Some chunks
        /\ nonspace (concat chunks) = nonspace text).
Proof.
  intros text.
  destruct (chunking_keeps_content text) as (_ & _ & HA & HB & _). split.
  - destruct (HA 12 4) as (chunks & shared & H1 & H2 & _ & H4); [lia..|].
    exists chunks, shared. exact (conj H1 (conj H2 H4)).
  - destruct (HB 5 12) as (chunks & H1 & H2 & _); [lia|].
    exists chunks. exact (conj H1 H2).
Defined.
(** ** [join_non_empty] *)

Lemma trimmed_strip s : strip s <> [] -> trimmed (strip s).
Proof.
  intros Hs. split.
  - destruct (strip s) as [|c x] eqn:E; [done|].
    exists c, x. split; [done|]. by eapply strip_head.
  - destruct (last (strip s)) as [d|] eqn:E.
    + exists d. split; [done|]. by eapply strip_last.
    + by apply last_None in E.
Qed.

Lemma trimmed_app a m b : trimmed a -> trimmed b -> trimmed (a ++ m ++ b).
Proof.
  intros [(c & x & -> & Hc) _] [(c' & x' & Hb & _) (d & Hd & Hd')]. split.
  - by exists c, (x ++ m ++ b).
  - exists d. split; [|done]. rewrite !last_app, Hd. done.
Qed.

Lemma join_with_trimmed sep ls :
  ls <> [] -> Forall trimmed ls -> trimmed (join_with sep ls).
Proof.
  induction ls as [|l ls IH]; [done|]. intros _ Hall.
  apply Forall_cons in Hall as [Hl Hls].
  destruct ls as [|l' ls']; [done|].
  change (trimmed (l ++ sep ++ join_with sep (l' :: ls'))).
  apply trimmed_app; [done|]. by apply IH.
Qed.

Lemma join_with_nonspace sep ls :
  blank sep -> nonspace (join_with sep ls) = nonspace (concat ls).
Proof.
  intros Hsep. induction ls as [|l ls IH]; [done|].
  destruct ls as [|l' ls'].
  - simpl. by rewrite app_nil_r.
  - change (nonspace (l ++ sep ++ join_with sep (l' :: ls'))
            = nonspace (l ++ concat (l' :: ls'))).
    rewrite !nonspace_app, IH, (nonspace_blank sep) by done. done.
Qed.

Lemma kept_parts_trimmed parts :
  Forall trimmed (filter (fun p => truthy p = true) (map strip parts)).
Proof.
  induction parts as [|p parts IH]; [constructor|].
  cbn [map]. rewrite filter_cons. case_decide as Hp; [|done].
  constructor; [|done]. apply trimmed_strip. by apply truthy_true.
Qed.

Lemma kept_parts_nil parts :
  filter (fun p => truthy p = true) (map strip parts) = [] <-> Forall blank parts.
Proof.
  induction parts as [|p parts IH]; [done|].
  cbn [map]. rewrite filter_cons, Forall_cons. case_decide as Hp.
  - split; [done|]. intros [Hb _]. apply strip_nil_inv in Hb.
    rewrite Hb in Hp. done.
  - rewrite IH. split; [|tauto]. intros H. split; [|done].
    apply strip_nil_inv. by destruct (strip p).
Qed.

(** X1. With a separator made of whitespace (as the default, two line
    feeds), [join_non_empty] keeps the non-whitespace characters of the
    parts, all of them and in order. *)
Theorem join_non_empty_content parts sep :
  blank sep ->
  nonspace (join_non_empty parts sep) = nonspace (concat parts).
Proof.
  intros Hsep. unfold join_non_empty. rewrite join_with_nonspace by done.
  apply strip_filter_content.
Qed.

Lemma join_non_empty_content_witness :
  nonspace (join_non_empty [py " a b "; py "  "; py "c"] [NL; NL])
  = nonspace (concat [py " a b "; py "  "; py "c"]).
Proof.
  apply (join_non_empty_content [py " a b "; py "  "; py "c"] [NL; NL]).
  by repeat constructor.
Defined.

(** X2. Whatever the separator, the result of [join_non_empty] neither
    starts nor ends with whitespace, and it is empty exactly when every
    part is blank. *)
Theorem join_non_empty_trimmed parts sep :
  strip (join_non_empty parts sep) = join_non_empty parts sep
  /\ (join_non_empty parts sep = [] <-> Forall blank parts).
Proof.
  unfold join_non_empty.
  destruct (filter _ (map strip parts)) as [|l ls] eqn:E.
  - split; [done|]. rewrite <- kept_parts_nil, E. done.
  - assert (trimmed (join_with sep (l :: ls))) as Ht.
    { apply join_with_trimmed; [done|]. rewrite <- E. apply kept_parts_trimmed. }
    apply strip_trimmed in Ht as [Hs Hne]. split; [done|].
    split; [done|]. intros Hb%kept_parts_nil. congruence.
Qed.

(** ** [ensure_absolute_url] *)

Lemma startswith_true p s : startswith p s = true <-> p `prefix_of` s.
Proof. unfold startswith. apply bool_decide_eq_true. Qed.

Lemma startswith_nonempty p s : p <> [] -> startswith p s = true -> s <> [].
Proof. intros Hp [k ->]%startswith_true. by destruct p. Qed.

Lemma strip_app_trimmed a s :
  (exists c x, a = c :: x /\ is_space c = false) ->
  strip s <> [] -> strip (a ++ strip s) = a ++ strip s.
Proof.
  intros (c & x & -> & Hc) Hs.
  apply strip_trimmed. split.
  - by exists c, (x ++ strip s).
  - destruct (trimmed_strip s Hs) as [_ (d & Hd & Hd')].
    exists d. split; [|done].
    change (last ((c :: x) ++ strip s) = Some d). by rewrite last_app, Hd.
Qed.

Lemma ensure_absolute_url_cases url_value :
  let s := strip url_value in
  (ensure_absolute_url url_value = s
   /\ startswith (py "/") (ensure_absolute_url url_value) = false)
  \/ (ensure_absolute_url url_value = py "https://www.sp.senac.br" ++ s
      /\ startswith (py "/") s = true
      /\ startswith (py "https://") (ensure_absolute_url url_value) = true).
Proof.
  intros s. unfold ensure_absolute_url.
  destruct (truthy url_value) eqn:Ht.
  - fold s.
    destruct (startswith (py "http://") s) eqn:H1.
    { left. split; [done|]. apply startswith_true in H1 as [k ->].
      done. }
    destruct (startswith (py "https://") s) eqn:H2.
    { left. split; [done|]. apply startswith_true in H2 as [k ->].
      done. }
    cbn [orb].
    destruct (startswith (py "/") s) eqn:H3.
    + right. split; [done|]. split; [done|].
      apply startswith_true. by exists (py "www.sp.senac.br" ++ s).
    + left. done.
  - left. apply truthy_false in Ht. subst url_value. done.
Qed.

(** X3. [ensure_absolute_url] is idempotent: a URL that went through it is
    returned unchanged by a second pass. *)
Theorem ensure_absolute_url_idempotent url_value :
  ensure_absolute_url (ensure_absolute_url url_value)
  = ensure_absolute_url url_value.
Proof.
  unfold ensure_absolute_url at 2 3.
  destruct (truthy url_value) eqn:Ht; [|done].
  set (s := strip url_value).
  assert (forall x, startswith (py "http://") x || startswith (py "https://") x
                    = true ->
                    strip x = x -> ensure_absolute_url x = x) as Habs.
  { intros x Hx Hsx. unfold ensure_absolute_url.
    assert (x <> []) as Hne.
    { apply orb_true_iff in Hx as [Hx|Hx];
        by eapply startswith_nonempty; [|exact Hx]. }
    destruct x; [done|]. cbn [truthy]. rewrite Hsx, Hx. done. }
  destruct (startswith (py "http://") s || startswith (py "https://") s) eqn:H1.
  { apply Habs; [done|]. apply strip_strip. }
  destruct (startswith (py "/") s) eqn:H3.
  - apply Habs.
    + apply orb_true_iff. right. apply startswith_true.
      by exists (py "www.sp.senac.br" ++ s).
    + apply strip_app_trimmed; [by eexists _, _|].
      by eapply startswith_nonempty; [|eassumption].
  - unfold ensure_absolute_url.
    destruct (truthy s) eqn:Hs; [|by apply truthy_false in Hs].
    unfold s. rewrite strip_strip. fold s. by rewrite H1, H3.
Qed.

(** X4. The result of [ensure_absolute_url] neither starts nor ends with
    whitespace and never starts with a slash: it is the stripped input, or
    the stripped input behind the site root when that input starts with a
    slash. *)
Theorem ensure_absolute_url_shape url_value :
  let r := ensure_absolute_url url_value in
  strip r = r
  /\ ~ (py "/" `prefix_of` r)
  /\ (r = strip url_value
      \/ (py "/" `prefix_of` strip url_value
          /\ r = py "https://www.sp.senac.br" ++ strip url_value)).
Proof.
  intros r. unfold r.
  destruct (ensure_absolute_url_cases url_value) as [[-> H]|(-> & H1 & H2)].
  - split; [apply strip_strip|]. split; [|by left].
    intros Hp%startswith_true. congruence.
  - split; [|split].
    + apply strip_app_trimmed; [by eexists _, _|].
      by eapply startswith_nonempty; [|eassumption].
    + by intros [k [=]].
    + right. split; [|done]. by apply startswith_true.
Qed.

(** ** [clean_html_text], [prepare_field_text] and [format_section_block] *)

Lemma ws_edit_app a b x y :
  ws_edit a b -> ws_edit x y -> ws_edit (a ++ x) (b ++ y).
Proof.
  intros Hab Hxy. induction Hab; simpl; [done|..].
  - by apply ws_edit_keep.
  - by apply ws_edit_drop.
  - by apply ws_edit_repl.
Qed.

Lemma ws_edit_blank a b :
  blank a -> blank b -> (length b <= length a)%nat -> ws_edit a b.
Proof.
  revert b. induction a as [|c a IH]; intros b Ha Hb Hlen.
  - destruct b; [constructor|simpl in Hlen; lia].
  - apply Forall_cons in Ha as [Hc Ha]. destruct b as [|c' b].
    + apply ws_edit_drop; [done|]. apply IH; [done|constructor|simpl; lia].
    + apply Forall_cons in Hb as [Hc' Hb].
      apply ws_edit_repl; [done..|]. apply IH; [done..|simpl in Hlen; lia].
Qed.

Lemma ws_edit_flush_nl_run need repl st :
  blank repl -> (length repl <= need)%nat -> nl_run_ok st ->
  ws_edit (nl_run_raw st) (flush_nl_run need repl st).
Proof.
  intros Hrepl Hneed Hst. destruct st as [[[raw nls] tail]|]; [|constructor].
  simpl. destruct Hst as (Hraw & pre & -> & Hnls).
  destruct (Nat.leb_spec need nls); [|apply ws_edit_refl].
  apply ws_edit_app; [|apply ws_edit_refl].
  apply blank_app in Hraw as [Hpre _].
  apply ws_edit_blank; [done..|lia].
Qed.

Lemma ws_edit_sub_nl_run_gen need repl s st :
  blank repl -> (length repl <= need)%nat -> nl_run_ok st ->
  ws_edit (nl_run_raw st ++ s) (sub_nl_run need repl st s).
Proof.
  intros Hrepl Hneed. revert st.
  induction s as [|c r IH]; intros st Hst.
  - rewrite app_nil_r. by apply ws_edit_flush_nl_run.
  - destruct st as [[[raw nls] tail]|]; cbn [sub_nl_run nl_run_raw].
    + destruct Hst as (Hraw & pre & -> & Hnls).
      destruct (N.eqb_spec c NL) as [->|Hc].
      * rewrite cons_middle, app_assoc.
        apply (IH (Some ((pre ++ tail) ++ [NL], S nls, []))). split.
        -- apply blank_app. split; [done|]. by repeat constructor.
        -- exists ((pre ++ tail) ++ [NL]). split; [by rewrite app_nil_r|].
           rewrite !length_app. simpl. lia.
      * destruct (is_space c) eqn:Hsp.
        -- rewrite cons_middle, app_assoc.
           apply (IH (Some ((pre ++ tail) ++ [c], nls, tail ++ [c]))). split.
           ++ apply blank_app. split; [done|]. by repeat constructor.
           ++ exists pre. split; [by rewrite app_assoc|done].
        -- apply ws_edit_app.
           ++ apply (ws_edit_flush_nl_run need repl (Some (pre ++ tail, nls, tail)));
                [done..|]. split; [done|]. by exists pre.
           ++ apply ws_edit_keep. by apply (IH None).
    + destruct (N.eqb_spec c NL) as [->|Hc].
      * apply (IH (Some ([NL], 1%nat, []))). split; [by repeat constructor|].
        exists [NL]. split; [done|]. simpl. lia.
      * apply ws_edit_keep. by apply (IH None).
Qed.

Lemma ws_edit_sub_nl_run need repl s :
  blank repl -> (length repl <= need)%nat ->
  ws_edit s (sub_nl_run need repl None s).
Proof. intros. by apply (ws_edit_sub_nl_run_gen need repl s None). Qed.

Lemma ws_edit_sub_spaces b s : ws_edit s (sub_spaces b s).
Proof.
  revert b. induction s as [|c r IH]; intros b; [constructor|]. simpl.
  destruct (N.eqb_spec c SP) as [->|Hc].
  - destruct b; [by apply ws_edit_drop|by apply ws_edit_keep].
  - by apply ws_edit_keep.
Qed.

Lemma adjacent_app_inv {A} (R : A -> A -> Prop) a b :
  adjacent R (a ++ b) -> adjacent R a /\ adjacent R b.
Proof.
  induction a as [|x a IH]; [done|]. intros [H1 H2].
  destruct (IH H2) as [Ha Hb]. split; [|done]. split; [|done].
  destruct a; [done|]. done.
Qed.

Lemma single_spaced_sub_spaces b s :
  single_spaced (sub_spaces b s)
  /\ (b = true -> head (sub_spaces b s) <> Some SP).
Proof.
  revert b. induction s as [|c r IH]; intros b; [done|]. simpl.
  destruct (N.eqb_spec c SP) as [->|Hc].
  - destruct b.
    + destruct (IH true) as [H1 H2]. split; [done|]. intros _. by apply H2.
    + destruct (IH true) as [H1 H2]. split; [|done]. split; [|done].
      destruct (sub_spaces true r) as [|c' r'] eqn:E; [done|].
      intros [_ ->]. by apply H2.
  - destruct (IH false) as [H1 _]. split.
    + split; [|done]. destruct (sub_spaces false r); [done|]. by intros [? _].
    + intros _ [=]. done.
Qed.

Lemma single_spaced_strip s : single_spaced s -> single_spaced (strip s).
Proof.
  intros H. destruct (strip_spec s) as (l & r & Hs & _ & _).
  rewrite Hs in H. apply adjacent_app_inv in H as [_ H].
  by apply adjacent_app_inv in H as [H _].
Qed.

Section FieldsFacts.
Variable unescape : pystr -> pystr.
Variable sem_re_match : pystr -> bool.

(** X5. Whatever [html.unescape] returns, the text cleaned by
    [clean_html_text] neither starts nor ends with whitespace, holds no
    HTML tag (the pattern [<[^>]+>] matches nowhere in it) and no two
    spaces in a row. *)
Theorem clean_html_text_shape html_text :
  let out := clean_html_text unescape html_text in
  strip out = out
  /\ tag_free out
  /\ single_spaced out.
Proof.
  unfold clean_html_text. destruct (truthy html_text); [|done].
  cbv zeta. split; [apply strip_strip|]. split.
  - apply tag_free_strip.
    eapply tag_free_ws_edit; [apply ws_edit_sub_spaces|].
    eapply tag_free_ws_edit.
    + apply ws_edit_sub_nl_run; [by repeat constructor|simpl; lia].
    + apply tag_free_strip_tags.
  - apply single_spaced_strip, single_spaced_sub_spaces.
Qed.

Lemma spaced_lines_skip p t x :
  blank t -> NL ∉ t -> spaced_lines p (t ++ x) = spaced_lines p x.
Proof.
  induction t as [|c t IH]; [done|]. intros [Hc Ht]%Forall_cons Hnl.
  apply not_elem_of_cons in Hnl as [Hc' Hnl]. simpl.
  destruct (N.eqb_spec c NL); [done|]. rewrite Hc. by apply IH.
Qed.

Lemma spaced_lines_weaken p s :
  spaced_lines p s = true -> spaced_lines false s = true.
Proof.
  destruct p; [|done]. revert s.
  induction s as [|c r IH]; [done|]. simpl.
  destruct (N.eqb_spec c NL); [done|].
  destruct (is_space c); [done|done].
Qed.

Lemma spaced_lines_app p a b :
  spaced_lines p (a ++ b) = true ->
  spaced_lines p a = true /\ spaced_lines false b = true.
Proof.
  revert p. induction a as [|c a IH]; intros p.
  - simpl. intros H. split; [done|]. by eapply spaced_lines_weaken.
  - simpl. destruct (N.eqb_spec c NL).
    + intros [Hp H]%andb_true_iff. destruct (IH _ H) as [H1 H2].
      by rewrite Hp, H1.
    + destruct (is_space c); apply IH.
Qed.

Lemma spaced_lines_blank_nl m b :
  blank m -> spaced_lines true (m ++ NL :: b) = false.
Proof.
  induction m as [|c m IH]; [done|]. intros [Hc Hm]%Forall_cons. simpl.
  destruct (N.eqb_spec c NL); [done|]. rewrite Hc. by apply IH.
Qed.

Lemma spaced_lines_spec s :
  spaced_lines false s = true ->
  forall a m b, s = a ++ NL :: m ++ NL :: b -> ~ blank m.
Proof.
  intros H a m b -> Hm.
  apply spaced_lines_app in H as [_ H]. simpl in H.
  by rewrite spaced_lines_blank_nl in H.
Qed.

Lemma spaced_lines_strip s :
  spaced_lines false s = true -> spaced_lines false (strip s) = true.
Proof.
  intros H. destruct (strip_spec s) as (l & r & Hs & _ & _).
  rewrite Hs in H. apply spaced_lines_app in H as [_ H].
  by apply spaced_lines_app in H as [H _].
Qed.

(** [\n\s*\n+] replaced by one line feed leaves one line feed per run. *)
Lemma spaced_lines_sub_nl_run s :
  spaced_lines false (sub_nl_run 2 [NL] None s) = true
  /\ (forall raw nls tail,
        blank tail -> NL ∉ tail -> (1 <= nls)%nat ->
        (nls = 1%nat -> raw = NL :: tail) ->
        spaced_lines false (sub_nl_run 2 [NL] (Some (raw, nls, tail)) s) = true).
Proof.
  assert (forall raw nls tail,
            (1 <= nls)%nat -> (nls = 1%nat -> raw = NL :: tail) ->
            flush_nl_run 2 [NL] (Some (raw, nls, tail)) = NL :: tail) as Hflush.
  { intros raw nls tail H1 H2. unfold flush_nl_run.
    destruct (Nat.leb_spec 2 nls); [done|]. apply H2. lia. }
  induction s as [|c r [IH1 IH2]].
  - split; [done|]. intros raw nls tail Hb Hnl H1 H2.
    cbn [sub_nl_run]. rewrite Hflush by done.
    change (spaced_lines true tail = true).
    rewrite <- (app_nil_r tail). by rewrite spaced_lines_skip.
  - split.
    + cbn [sub_nl_run]. destruct (N.eqb_spec c NL) as [->|Hc].
      * apply IH2; [constructor|by intros ?%elem_of_nil|lia|done].
      * cbn [spaced_lines]. destruct (N.eqb_spec c NL); [done|].
        by destruct (is_space c).
    + intros raw nls tail Hb Hnl H1 H2. cbn [sub_nl_run].
      destruct (N.eqb_spec c NL) as [->|Hc].
      * apply IH2; [constructor|by intros ?%elem_of_nil|lia|lia].
      * destruct (is_space c) eqn:Hsp.
        -- apply IH2; [| |done|].
           ++ apply Forall_app. split; [done|]. by repeat constructor.
           ++ intros [?|Hc'%list_elem_of_singleton]%elem_of_app; done.
           ++ intros Hn. rewrite (H2 Hn). done.
        -- rewrite Hflush by done.
           change (spaced_lines true (tail ++ c :: sub_nl_run 2 [NL] None r) = true).
           rewrite spaced_lines_skip by done. cbn [spaced_lines].
           destruct (N.eqb_spec c NL); [done|]. by rewrite Hsp.
Qed.

Lemma elem_of_strip c s : c ∈ strip s -> c ∈ s.
Proof.
  intros H. destruct (strip_spec s) as (l & r & Hs & _ & _).
  rewrite Hs. apply elem_of_app. right. apply elem_of_app. by left.
Qed.

Lemma strip_nonblank s : strip s <> [] -> split s <> [].
Proof.
  intros H Hs. apply H. apply strip_nil_inv. by apply split_nil_inv.
Qed.

Lemma prepare_field_text_stripped field_name raw_text :
  strip (prepare_field_text unescape sem_re_match field_name raw_text)
  = prepare_field_text unescape sem_re_match field_name raw_text.
Proof.
  unfold prepare_field_text. destruct (truthy raw_text); [|done].
  apply strip_strip.
Qed.

(** X6. The text prepared for a section neither starts nor ends with
    whitespace, holds no [|], and has no blank line: between any two of
    its line feeds there is a character that is not whitespace. *)
Theorem prepare_field_text_shape field_name raw_text :
  let out := prepare_field_text unescape sem_re_match field_name raw_text in
  strip out = out
  /\ (PIPE ∉ out)
  /\ (forall a m b, out = a ++ NL :: m ++ NL :: b -> ~ blank m).
Proof.
  unfold prepare_field_text. destruct (truthy raw_text).
  2:{ split; [done|]. split; [by intros ?%elem_of_nil|].
      intros a m b H. by destruct a. }
  cbv zeta. set (p := if bool_decide _ then _ else _).
  split; [apply strip_strip|]. split.
  - intros H%elem_of_strip.
    assert (ws_edit (replace_char PIPE SP p)
              (sub_nl_run 2 [NL] None (replace_char PIPE SP p))) as He.
    { apply ws_edit_sub_nl_run; [by repeat constructor|simpl; lia]. }
    destruct (ws_edit_elem _ _ _ He H) as [H'|H']; [|done].
    clear H. rename H' into H.
    unfold replace_char in H. apply list_elem_of_fmap in H as (c & Hc & _).
    destruct (N.eqb_spec c PIPE); [done|congruence].
  - apply spaced_lines_spec, spaced_lines_strip, spaced_lines_sub_nl_run.
Qed.

(** X7. [format_section_block] returns [None] exactly when the prepared
    text is empty.  Otherwise it returns a non-empty text, which is the
    whitespace-collapsed prepared text when that has between 400 and 900
    characters, and else the bullets of the prepared text, joined by line
    feeds: there is always at least one bullet, so the final truncation to
    900 characters is never reached. *)
Theorem format_section_block_cases field_name raw_text :
  let text := prepare_field_text unescape sem_re_match field_name raw_text in
  match format_section_block unescape sem_re_match field_name raw_text with
  | None => text = []
  | Some out =>
      text <> [] /\ out <> []
      /\ ((400 <= len (collapse_whitespace text) <= 900
           /\ out = collapse_whitespace text)
          \/ (~ (400 <= len (collapse_whitespace text) <= 900)
              /\ bullets_from_text text 80 140 <> []
              /\ out = join_nl (bullets_from_text text 80 140)))
  end.
Proof.
  intros text. unfold format_section_block. fold text.
  destruct (truthy text) eqn:Ht; [|by apply truthy_false].
  apply truthy_true in Ht.
  assert (strip text = text) as Hstrip.
  { apply prepare_field_text_stripped. }
  assert (split text <> []) as Hsplit.
  { apply strip_nonblank. by rewrite Hstrip. }
  assert (exists b bs, bullets_from_text text 80 140 = b :: bs
                       /\ join_nl (b :: bs) <> []) as (b & bs & Hb & Hne).
  { destruct (bullets_from_text_inv text 80 140)
      as (items & Hb & _ & _ & Hwords & _).
    destruct items as [|i items']; [by rewrite <- Hwords in Hsplit|].
    exists (bullet i), (map bullet items'). split; [done|].
    by destruct (map bullet items'). }
  rewrite Hb. cbn [truthy].
  destruct (Z.leb_spec 400 (len (collapse_whitespace text))) as [H1|H1];
    [destruct (Z.leb_spec (len (collapse_whitespace text)) 900) as [H2|H2]|];
    cbn [andb].
  - split; [done|]. split; [|left; split; [lia|done]].
    intros H0. rewrite H0, len_nil in H1. lia.
  - split; [done|]. split; [done|]. right. split; [lia|done].
  - split; [done|]. split; [done|]. right. split; [lia|done].
Qed.
End FieldsFacts.

(** ** [_wrap_line] and [_wrap_text_by_lines] *)

Lemma wrap_line_step_inv width seen st w :
  wrap_line_inv width seen st -> word w ->
  wrap_line_inv width (seen ++ [w]) (wrap_line_step width st w).
Proof.
  destruct st as [[out_lines cur] cur_len].
  intros (Hcur & Hout & Hseen & Hlen & Hemp & Hfit & Hok) Hw.
  assert (Hsnoc : len (join_sp (cur ++ [w]))
                  = len (join_sp cur) + (len w + if truthy cur then 1 else 0)).
  { rewrite join_sp_snoc. destruct cur; [simpl; rewrite len_nil; lia|].
    rewrite len_app, len_cons. simpl. lia. }
  unfold wrap_line_step. subst cur_len.
  destruct cur as [|w0 cur'].
  - cbn [truthy andb]. rewrite (Hemp eq_refl) in *. simpl in Hseen. subst seen.
    repeat split; try done; [by constructor|by left].
  - cbn [truthy andb].
    destruct (Z.ltb_spec width (len (join_sp (w0 :: cur')) + (len w + 1)))
      as [Hgt|Hle].
    + set (c0 := join_sp (w0 :: cur')).
      assert (G1 : Forall word [w]) by (by constructor).
      assert (G2 : Forall phrase (out_lines ++ [c0])).
      { apply Forall_app. split; [done|]. constructor; [|done].
        by apply phrase_join_sp. }
      assert (G3 : concat (map split (out_lines ++ [c0])) ++ [w] = seen ++ [w]).
      { rewrite map_app, concat_app. simpl. rewrite app_nil_r.
        unfold c0. rewrite split_join_sp by done. by rewrite Hseen. }
      assert (G6 : Forall (fun l => word l \/ len l <= width) (out_lines ++ [c0])).
      { apply Forall_app. split; [done|]. constructor; [|done].
        destruct Hfit as [H1|H1]; [|by right].
        left. unfold c0. destruct cur'; [|simpl in H1; lia]. simpl.
        by apply Forall_cons in Hcur as [? _]. }
      split; [done|]. split; [done|]. split; [done|]. split; [done|].
      split; [done|]. split; [left; simpl; lia|done].
    + assert (Hcw : Forall word ((w0 :: cur') ++ [w])).
      { apply Forall_app. split; [done|by constructor]. }
      split; [done|]. split; [done|]. split; [by rewrite app_assoc, Hseen|].
      split; [by rewrite Hsnoc|]. split; [by destruct cur'|]. split; [|done].
      right. rewrite Hsnoc. cbn [truthy]. lia.
Qed.

Lemma wrap_line_fold_inv width words seen st :
  Forall word words -> wrap_line_inv width seen st ->
  wrap_line_inv width (seen ++ words) (fold_left (wrap_line_step width) words st).
Proof.
  intros Hws. revert seen st. induction Hws as [|w words Hw _ IH]; intros seen st Hst.
  - by rewrite app_nil_r.
  - simpl. rewrite (cons_middle w seen words), app_assoc.
    apply IH. by apply wrap_line_step_inv.
Qed.

(** The lines written by [_wrap_line] for a line longer than [width]. *)
Lemma wrap_line_lines line width :
  width < len line ->
  exists lines,
    wrap_line line width = join_nl lines
    /\ Forall phrase lines
    /\ concat (map split lines) = split line
    /\ Forall (fun l => word l \/ len l <= width) lines.
Proof.
  intros Hlong. unfold wrap_line.
  destruct (Z.leb_spec (len line) width); [lia|].
  assert (wrap_line_inv width [] ([], [], 0)) as H0.
  { split; [constructor|]. split; [constructor|]. split; [done|].
    split; [reflexivity|]. split; [done|]. split; [left; simpl; lia|constructor]. }
  pose proof (wrap_line_fold_inv width (split line) [] ([], [], 0)
                (split_words line) H0) as Hinv.
  destruct (fold_left _ _ _) as [[out_lines cur] cur_len].
  destruct Hinv as (Hcur & Hout & Hseen & Hlen & Hemp & Hfit & Hok).
  simpl in Hseen. destruct cur as [|w0 cur'].
  - exists out_lines. rewrite app_nil_r in Hseen. done.
  - exists (out_lines ++ [join_sp (w0 :: cur')]). split; [done|].
    split; [|split].
    + apply Forall_app. split; [done|]. constructor; [|done].
      by apply phrase_join_sp.
    + rewrite map_app, concat_app. cbn [map concat]. rewrite app_nil_r.
      by rewrite split_join_sp.
    + apply Forall_app. split; [done|]. constructor; [|done].
      destruct Hfit as [H1|H1]; [|by right].
      left. destruct cur'; [|simpl in H1; lia]. simpl.
      by apply Forall_cons in Hcur as [? _].
Qed.

Lemma is_space_NL : is_space NL = true.
Proof. reflexivity. Qed.

Lemma split_join_nl ls : split (join_nl ls) = concat (map split ls).
Proof.
  induction ls as [|l ls IH]; [done|]. destruct ls as [|l' ls'].
  - simpl. by rewrite app_nil_r.
  - change (join_nl (l :: l' :: ls')) with (l ++ NL :: join_nl (l' :: ls')).
    unfold split at 1. rewrite split_aux_app_space by apply is_space_NL.
    by rewrite IH.
Qed.

(** X8. [_wrap_line] keeps the words of the line, all of them and in
    order, whatever the width. *)
Theorem wrap_line_words line width :
  split (wrap_line line width) = split line.
Proof.
  destruct (Z.leb_spec (len line) width) as [Hle|Hgt].
  - unfold wrap_line. destruct (Z.leb_spec (len line) width); [done|lia].
  - destruct (wrap_line_lines line width Hgt) as (lines & -> & _ & H & _).
    by rewrite split_join_nl.
Qed.

Lemma split_on_nonnil d s : split_on d s <> [].
Proof.
  induction s as [|c r IH]; [done|]. simpl.
  destruct (c =? d)%N; [done|]. by destruct (split_on d r).
Qed.

Lemma split_on_app d a b :
  split_on d (a ++ d :: b) = split_on d a ++ split_on d b.
Proof.
  induction a as [|c a IH].
  - simpl. by rewrite N.eqb_refl.
  - simpl. destruct (c =? d)%N; [by rewrite IH|].
    rewrite IH. pose proof (split_on_nonnil d a).
    by destruct (split_on d a).
Qed.

Lemma split_on_id d l : d ∉ l -> split_on d l = [l].
Proof.
  induction l as [|c l IH]; [done|].
  intros [Hc Hl]%not_elem_of_cons. simpl.
  destruct (N.eqb_spec c d); [done|]. by rewrite IH.
Qed.

Lemma split_on_join_nl ls :
  ls <> [] -> Forall (fun l => NL ∉ l) ls -> split_on NL (join_nl ls) = ls.
Proof.
  induction ls as [|l ls IH]; [done|]. intros _ [Hl Hls]%Forall_cons.
  destruct ls as [|l' ls']; [by apply split_on_id|].
  change (join_nl (l :: l' :: ls')) with (l ++ NL :: join_nl (l' :: ls')).
  rewrite split_on_app, split_on_id, IH by done. done.
Qed.

Lemma split_on_len d s : Forall (fun l => len l <= len s) (split_on d s).
Proof.
  induction s as [|c r IH]; [by repeat constructor|]. simpl.
  assert (Forall (fun l => len l <= len (c :: r)) (split_on d r)) as IH'.
  { eapply Forall_impl; [exact IH|]. intros l Hl. cbv beta in Hl |- *.
    rewrite len_cons. lia. }
  destruct (c =? d)%N.
  - constructor; [|done]. rewrite len_nil. apply len_nonneg.
  - destruct (split_on d r) as [|p ps].
    { constructor; [|constructor]. rewrite !len_cons, len_nil.
      pose proof (len_nonneg r). lia. }
    apply Forall_cons in IH as [Hp _]. apply Forall_cons in IH' as [_ Hps].
    constructor; [|done]. rewrite !len_cons. lia.
Qed.

Lemma phrase_no_nl s : phrase s -> NL ∉ s.
Proof.
  intros (ws & _ & Hws & ->) Hin.
  by destruct (join_sp_chars ws NL Hws Hin).
Qed.

(** X9. With a width that is not negative, every line written by
    [_wrap_line] is a single word or has at most [width] characters: a line
    is longer than the width only when one word is. *)
Theorem wrap_line_bound line width :
  0 <= width ->
  Forall (fun l => word l \/ len l <= width) (split_on NL (wrap_line line width)).
Proof.
  intros Hw. destruct (Z.leb_spec (len line) width) as [Hle|Hgt].
  - unfold wrap_line. destruct (Z.leb_spec (len line) width); [|lia].
    eapply Forall_impl; [apply split_on_len|]. intros l Hl.
    cbv beta in Hl |- *. right. lia.
  - destruct (wrap_line_lines line width Hgt) as (lines & -> & Hph & _ & Hok).
    destruct lines as [|l lines].
    + simpl. constructor; [right; by rewrite len_nil|constructor].
    + rewrite split_on_join_nl; [done|done|].
      eapply Forall_impl; [exact Hph|]. apply phrase_no_nl.
Qed.

Lemma wrap_line_bound_witness :
  Forall (fun l => word l \/ len l <= 7)
    (split_on NL (wrap_line (py "aa bb cc dd ee") 7)).
Proof. apply (wrap_line_bound (py "aa bb cc dd ee") 7). lia. Defined.

Lemma is_linebreak_space c : is_linebreak c = true -> is_space c = true.
Proof.
  unfold is_linebreak. intros H.
  assert (c = 10 \/ c = 11 \/ c = 12 \/ c = 13 \/ c = 28 \/ c = 29 \/ c = 30
          \/ c = 133 \/ c = 8232 \/ c = 8233)%N as Hc.
  { repeat (apply orb_true_iff in H as [H|H]);
      repeat (apply andb_true_iff in H as [? H]);
      repeat match goal with
             | H : (_ <=? _)%N = true |- _ => apply N.leb_le in H
             | H : (_ =? _)%N = true |- _ => apply N.eqb_eq in H
             end; lia. }
  repeat (destruct Hc as [->|Hc]; [reflexivity|]). by subst c.
Qed.

Lemma splitlines_aux_cons cur c r :
  splitlines_aux cur (c :: r)
  = if is_linebreak c then
      match r with
      | c' :: r' =>
          if (c =? 13)%N && (c' =? 10)%N then cur :: splitlines_aux [] r'
          else cur :: splitlines_aux [] r
      | [] => [cur]
      end
    else splitlines_aux (cur ++ [c]) r.
Proof. reflexivity. Qed.

Lemma splitlines_aux_words s :
  (forall cur, concat (map split (splitlines_aux cur s)) = split (cur ++ s))
  /\ (forall c cur,
        concat (map split (splitlines_aux cur (c :: s))) = split (cur ++ c :: s)).
Proof.
  assert (forall cur, concat (map split (flush cur)) = split cur) as Hflush.
  { intros cur. destruct cur; [done|]. simpl. by rewrite app_nil_r. }
  induction s as [|c' r' [IH1 IH2]].
  - split; [intros cur; rewrite app_nil_r; apply Hflush|].
    intros c cur. rewrite splitlines_aux_cons.
    destruct (is_linebreak c) eqn:Hc.
    + apply is_linebreak_space in Hc. cbn [map concat]. rewrite app_nil_r.
      unfold split at 2. rewrite split_aux_app_space by done.
      change (split []) with (@nil (list N)). by rewrite app_nil_r.
    + apply Hflush.
  - split; [apply IH2|]. intros c cur. rewrite splitlines_aux_cons.
    destruct (is_linebreak c) eqn:Hc.
    + apply is_linebreak_space in Hc.
      unfold split at 2. rewrite split_aux_app_space by done. fold (split cur).
      destruct ((c =? 13)%N && (c' =? 10)%N) eqn:Hcr.
      * apply andb_true_iff in Hcr as [_ ->%N.eqb_eq].
        cbn [map concat]. rewrite IH1. simpl app.
        change (10%N :: r') with ([10%N] ++ r').
        by rewrite (split_spaces_l [10%N] r') by (by repeat constructor).
      * cbn [map concat]. by rewrite IH2.
    + rewrite IH2. by rewrite <- app_assoc.
Qed.

Lemma splitlines_words s : concat (map split (splitlines s)) = split s.
Proof. apply (splitlines_aux_words s). Qed.

(** X10. [_wrap_text_by_lines] keeps the words of the page text, all of
    them and in order, whatever the width: wrapping changes line breaks
    and spacing only. *)
Theorem wrap_text_by_lines_words text width :
  split (wrap_text_by_lines text width) = split text.
Proof.
  unfold wrap_text_by_lines. rewrite split_join_nl, <- splitlines_words.
  rewrite map_map. f_equal. apply map_ext. intros l.
  destruct (Z.leb_spec (len l) width) as [Hle|Hgt].
  - unfold wrap_line. destruct (Z.leb_spec (len l) width); [done|lia].
  - destruct (wrap_line_lines l width Hgt) as (lines & -> & _ & H & _).
    by rewrite split_join_nl.
Qed.

(** ** [fix_text] and [deep_fix] *)

Lemma utf8_decode_cons b0 r0 :
  utf8_decode (b0 :: r0)
  = if (b0 <? 128)%N then cons b0 <$> utf8_decode r0
    else if ((194 <=? b0) && (b0 <=? 223))%N then
      match r0 with
      | b1 :: r1 =>
          if is_cont b1
          then cons ((b0 - 192) * 64 + (b1 - 128))%N <$> utf8_decode r1
          else None
      | _ => None
      end
    else if ((224 <=? b0) && (b0 <=? 239))%N then
      match r0 with
      | b1 :: b2 :: r2 =>
          if second_of_three b0 b1 && is_cont b2
          then cons ((b0 - 224) * 4096 + (b1 - 128) * 64 + (b2 - 128))%N
                 <$> utf8_decode r2
          else None
      | _ => None
      end
    else if ((240 <=? b0) && (b0 <=? 244))%N then
      match r0 with
      | b1 :: b2 :: b3 :: r3 =>
          if second_of_four b0 b1 && is_cont b2 && is_cont b3
          then cons ((b0 - 240) * 262144 + (b1 - 128) * 4096
                     + (b2 - 128) * 64 + (b3 - 128))%N
                 <$> utf8_decode r3
          else None
      | _ => None
      end
    else None.
Proof. reflexivity. Qed.

Lemma count_hi_cons c r :
  count_hi (c :: r) = (if (128 <=? c)%N then 1 else 0) + count_hi r.
Proof. reflexivity. Qed.

Lemma count_hi_nonneg s : 0 <= count_hi s.
Proof.
  induction s as [|c r IH]; [done|]. rewrite count_hi_cons.
  destruct (128 <=? c)%N; lia.
Qed.

Lemma count_hi_cons_le c r : count_hi (c :: r) <= 1 + count_hi r.
Proof. rewrite count_hi_cons. destruct (128 <=? c)%N; lia. Qed.

Lemma is_cont_hi b : is_cont b = true -> (128 <=? b)%N = true.
Proof. by intros [? _]%andb_true_iff. Qed.

Lemma second_of_three_hi b0 b1 : second_of_three b0 b1 = true -> (128 <=? b1)%N = true.
Proof.
  unfold second_of_three.
  destruct (b0 =? 224)%N; [|destruct (b0 =? 237)%N; [|apply is_cont_hi]];
    intros [H _]%andb_true_iff; apply N.leb_le in H; apply N.leb_le; lia.
Qed.

Lemma second_of_four_hi b0 b1 : second_of_four b0 b1 = true -> (128 <=? b1)%N = true.
Proof.
  unfold second_of_four.
  destruct (b0 =? 240)%N; [|destruct (b0 =? 244)%N; [|apply is_cont_hi]];
    intros [H _]%andb_true_iff; apply N.leb_le in H; apply N.leb_le; lia.
Qed.

(** A decoded text has at most as many characters from U+0080 on as the
    bytes had, and as many only when nothing but ASCII was decoded. *)
Lemma utf8_decode_count n :
  forall bs cs,
    (length bs <= n)%nat -> utf8_decode bs = Some cs ->
    count_hi cs <= count_hi bs /\ (count_hi bs <= count_hi cs -> cs = bs).
Proof.
  induction n as [|n IH]; intros bs cs Hn.
  { destruct bs; [|simpl in Hn; lia]. by intros [= <-]. }
  destruct bs as [|b0 r0]; [by intros [= <-]|].
  rewrite utf8_decode_cons. simpl in Hn.
  destruct (N.ltb_spec b0 128) as [Hlo|Hhi].
  { destruct (utf8_decode r0) as [cs'|] eqn:E; [|done]. intros [= <-].
    destruct (IH r0 cs' ltac:(lia) E) as [H1 H2].
    rewrite !count_hi_cons. split; [lia|]. intros H. f_equal. apply H2. lia. }
  assert ((128 <=? b0)%N = true) as Hb0 by (apply N.leb_le; lia).
  destruct ((194 <=? b0) && (b0 <=? 223))%N.
  { destruct r0 as [|b1 r1]; [done|].
    destruct (is_cont b1) eqn:H1; [|done].
    destruct (utf8_decode r1) as [cs'|] eqn:E; [|done]. intros [= <-].
    simpl in Hn. destruct (IH r1 cs' ltac:(lia) E) as [IH1 _].
    pose proof (count_hi_cons_le ((b0 - 192) * 64 + (b1 - 128))%N cs').
    rewrite (count_hi_cons b0), (count_hi_cons b1), Hb0, (is_cont_hi _ H1).
    split; [lia|]. intros H'. lia. }
  destruct ((224 <=? b0) && (b0 <=? 239))%N.
  { destruct r0 as [|b1 [|b2 r2]]; [done..|].
    destruct (second_of_three b0 b1 && is_cont b2) eqn:H1; [|done].
    apply andb_true_iff in H1 as [H1 H2].
    destruct (utf8_decode r2) as [cs'|] eqn:E; [|done]. intros [= <-].
    simpl in Hn. destruct (IH r2 cs' ltac:(lia) E) as [IH1 _].
    pose proof (count_hi_cons_le
                  ((b0 - 224) * 4096 + (b1 - 128) * 64 + (b2 - 128))%N cs').
    pose proof (count_hi_nonneg r2).
    rewrite (count_hi_cons b0), (count_hi_cons b1), (count_hi_cons b2), Hb0,
      (second_of_three_hi _ _ H1), (is_cont_hi _ H2).
    split; [lia|]. intros H'. lia. }
  destruct ((240 <=? b0) && (b0 <=? 244))%N; [|done].
  destruct r0 as [|b1 [|b2 [|b3 r3]]]; [done..|].
  destruct (second_of_four b0 b1 && is_cont b2 && is_cont b3) eqn:H1; [|done].
  apply andb_true_iff in H1 as [H1 H3]. apply andb_true_iff in H1 as [H1 H2].
  destruct (utf8_decode r3) as [cs'|] eqn:E; [|done]. intros [= <-].
  simpl in Hn. destruct (IH r3 cs' ltac:(lia) E) as [IH1 _].
  pose proof (count_hi_cons_le
                ((b0 - 240) * 262144 + (b1 - 128) * 4096
                 + (b2 - 128) * 64 + (b3 - 128))%N cs').
  pose proof (count_hi_nonneg r3).
  rewrite (count_hi_cons b0), (count_hi_cons b1), (count_hi_cons b2),
    (count_hi_cons b3), Hb0, (second_of_four_hi _ _ H1), (is_cont_hi _ H2),
    (is_cont_hi _ H3).
  split; [lia|]. intros H'. lia.
Qed.

Lemma fix_text_str_id value : fix_text_str value = value.
Proof.
  unfold fix_text_str, latin1_encode.
  destruct (forallb _ value); [|done]. simpl.
  destruct (utf8_decode value) as [repaired|] eqn:E; [|done].
  destruct (Z.leb_spec (count_hi value) (count_hi repaired)) as [H|H]; [|done].
  by apply (utf8_decode_count (length value) value repaired).
Qed.

(** X11. [fix_text] returns every value as it is.  A text that decodes as
    UTF-8 after its encoding as Latin-1 is kept only when the decoded text
    has at least as many characters from U+0080 on; every sequence of
    several bytes decodes to one character, so this holds for plain ASCII
    only, where both texts are the same: the repair of mojibake never takes
    effect. *)
Theorem fix_text_id value : fix_text value = value.
Proof.
  destruct value; try done. simpl. by rewrite fix_text_str_id.
Qed.

(** X12. [deep_fix] returns every parsed JSON document as it is: the keys,
    the order and the values, strings included. *)
Theorem deep_fix_id : forall obj, deep_fix obj = obj.
Proof.
  fix IH 1. intros [ | b | z | m e | s | items | pairs]; try reflexivity.
  - simpl. by rewrite fix_text_str_id.
  - simpl. f_equal. induction items as [|x items IHitems]; [done|].
    simpl. by rewrite IH, IHitems.
  - simpl. f_equal. induction pairs as [|[k v] pairs IHpairs]; [done|].
    simpl. by rewrite IH, IHpairs.
Qed.

(** ** The chunks of [simple_chunk] and [chunk_text_range] *)

Lemma nonspace_nil_blank s : nonspace s = [] -> blank s.
Proof.
  induction s as [|c s IH]; [constructor|]. unfold nonspace.
  rewrite filter_cons. case_decide as Hc; [done|].
  intros H. constructor; [by destruct (is_space c)|by apply IH].
Qed.

Lemma trimmed_not_blank p : trimmed p -> ~ blank p.
Proof.
  intros [(c & x & -> & Hc) _] [Hb _]%Forall_cons. congruence.
Qed.

Lemma trimmed_stripped p : trimmed p -> p <> [] /\ strip p = p.
Proof. intros [? ?]%strip_trimmed. done. Qed.

Lemma kept_windows_trimmed text ws :
  Forall trimmed (filter (fun c => truthy c = true) (map (window_chunk text) ws)).
Proof.
  induction ws as [|w ws IH]; [constructor|].
  cbn [map]. rewrite filter_cons. case_decide as Hp; [|done].
  constructor; [|done]. apply trimmed_strip. by apply truthy_true.
Qed.

Lemma simple_chunk_loop_first c0 t' max_chars overlap r :
  0 < max_chars -> is_space c0 = false ->
  simple_chunk_loop (length (c0 :: t')) (c0 :: t') max_chars overlap 0 [] = Some r ->
  r <> [].
Proof.
  intros Hm Hc0 Hr. set (t := c0 :: t') in *.
  assert (0 < len t) as Hlen.
  { unfold t. rewrite len_cons. pose proof (len_nonneg t'). lia. }
  change (length t) with (S (length t')) in Hr.
  rewrite simple_chunk_loop_S in Hr.
  destruct (Z.ltb_spec 0 (len t)); [|lia].
  destruct (simple_chunk_step t max_chars overlap 0) as [[cut chunk] next] eqn:Hstep.
  destruct (simple_chunk_step_facts t max_chars overlap 0 cut chunk next Hm
              ltac:(lia) Hstep) as (Hcut & _ & _ & Hchunk & _).
  assert (chunk <> []) as Hne.
  { rewrite Hchunk. intros Hb%strip_nil_inv.
    unfold sub, t in Hb. simpl in Hb.
    replace (Z.to_nat (cut - 0)) with (S (Z.to_nat (cut - 1))) in Hb by lia.
    simpl in Hb. apply Forall_cons in Hb as [Hb _]. congruence. }
  destruct chunk as [|x chunk]; [done|]. cbn [truthy app] in Hr.
  apply simple_chunk_loop_trace in Hr. rewrite Hr. done.
Qed.

Lemma simple_chunk_trimmed text max_chars overlap chunks :
  simple_chunk text max_chars overlap = Some chunks ->
  Forall (fun c => c <> [] /\ strip c = c) chunks.
Proof.
  intros Hc. unfold simple_chunk in Hc.
  destruct (truthy (strip text)) eqn:Ht.
  2:{ injection Hc as <-. constructor. }
  apply truthy_true in Ht.
  destruct (Z.leb_spec (len (strip text)) max_chars) as [Hle|Hgt].
  { injection Hc as <-. constructor; [|constructor].
    split; [done|apply strip_strip]. }
  apply simple_chunk_loop_trace in Hc. simpl in Hc. subst chunks.
  eapply Forall_impl; [apply kept_windows_trimmed|]. apply trimmed_stripped.
Qed.

(** X13. For a positive [max_chars] and any overlap, [simple_chunk]
    returns, and every chunk is non-empty and neither starts nor ends with
    whitespace; there is no chunk at all exactly when the text is blank. *)
Theorem simple_chunk_chunks text max_chars overlap :
  0 < max_chars ->
  exists chunks,
    simple_chunk text max_chars overlap = Some chunks
    /\ Forall (fun c => c <> [] /\ strip c = c) chunks
    /\ (chunks = [] <-> blank text).
Proof.
  intros Hm.
  destruct (simple_chunk_total text max_chars overlap) as [chunks Hc].
  exists chunks. split; [done|]. unfold simple_chunk in Hc.
  destruct (truthy (strip text)) eqn:Ht.
  2:{ injection Hc as <-. apply truthy_false in Ht. split; [constructor|].
      split; [intros _; by apply strip_nil_inv|done]. }
  apply truthy_true in Ht.
  assert (~ blank text) as Hnb by (by intros ?%strip_nil_inv).
  destruct (Z.leb_spec (len (strip text)) max_chars) as [Hle|Hgt].
  { injection Hc as <-. split.
    - constructor; [|constructor]. split; [done|apply strip_strip].
    - split; [done|]. intros Hb. done. }
  split.
  { apply simple_chunk_loop_trace in Hc. simpl in Hc. subst chunks.
    eapply Forall_impl; [apply kept_windows_trimmed|]. apply trimmed_stripped. }
  split; [|done]. intros Hnil. exfalso.
  destruct (strip text) as [|c0 t'] eqn:Et; [done|].
  apply simple_chunk_loop_first in Hc; [done|done|].
  by apply (strip_head text c0 t').
Qed.

Lemma simple_chunk_chunks_witness :
  exists chunks,
    simple_chunk (py " One two. Three. ") 8 2 = Some chunks
    /\ Forall (fun c => c <> [] /\ strip c = c) chunks
    /\ (chunks = [] <-> blank (py " One two. Three. ")).
Proof. apply (simple_chunk_chunks (py " One two. Three. ") 8 2). lia. Defined.

(** X14. For a positive [max_chars], every chunk of [chunk_text_range] is
    non-empty and neither starts nor ends with whitespace; there is no
    chunk at all exactly when the text is blank. *)
Theorem chunk_text_range_chunks text min_chars max_chars :
  0 < max_chars ->
  exists chunks,
    chunk_text_range text min_chars max_chars = Some chunks
    /\ Forall (fun c => c <> [] /\ strip c = c) chunks
    /\ (chunks = [] <-> blank text).
Proof.
  intros Hm.
  destruct (chunk_text_range_content text min_chars max_chars Hm)
    as (chunks & Hc & Hcontent & _).
  exists chunks. split; [done|].
  assert (Forall trimmed chunks) as Htr.
  { unfold chunk_text_range in Hc.
    destruct (mapM _ _) as [fixed|]; [|done]. simpl in Hc.
    injection Hc as <-. apply kept_parts_trimmed. }
  split; [eapply Forall_impl; [exact Htr|apply trimmed_stripped]|].
  split.
  - intros ->. by apply nonspace_nil_blank.
  - intros Hb. rewrite (nonspace_blank text Hb) in Hcontent.
    destruct chunks as [|c chunks]; [done|].
    apply Forall_cons in Htr as [Hc0 _]. exfalso.
    apply (trimmed_not_blank c Hc0). apply nonspace_nil_blank.
    simpl in Hcontent. rewrite nonspace_app in Hcontent.
    by apply app_eq_nil in Hcontent as [? _].
Qed.

Lemma chunk_text_range_chunks_witness :
  exists chunks,
    chunk_text_range (py "One two. Three four five. Six.") 5 12 = Some chunks
    /\ Forall (fun c => c <> [] /\ strip c = c) chunks
    /\ (chunks = [] <-> blank (py "One two. Three four five. Six.")).
Proof.
  apply (chunk_text_range_chunks (py "One two. Three four five. Six.") 5 12).
  lia.
Defined.

(** ** The chunks of [split_oque_vou_aprender_sections] *)

Lemma collapse_phrase_truthy s :
  truthy (strip s) = true -> phrase (collapse_whitespace s).
Proof. intros H. by apply collapse_phrase, split_nonblank. Qed.

Lemma collapse_phrase_header header x :
  truthy (strip header) = true ->
  phrase (collapse_whitespace (header ++ SP :: x)).
Proof.
  intros H. apply collapse_phrase. rewrite split_app_sp.
  pose proof (split_nonblank header H). by destruct (split header).
Qed.

Lemma block_chunks_phrases block chunks :
  block_chunks block = Some chunks -> Forall phrase chunks.
Proof.
  unfold block_chunks.
  destruct (filter _ (split_on NL block)) as [|header rest] eqn:Hlines.
  { by intros [= <-]. }
  assert (truthy (strip header) = true) as Hh.
  { assert (header ∈ filter (fun l => truthy (strip l) = true) (split_on NL block))
      as Hin by (rewrite Hlines; by left).
    by apply list_elem_of_filter in Hin as [? _]. }
  destruct (truthy rest).
  - destruct (truthy (collapse_whitespace (join_sp rest))); [|by intros [= <-]].
    destruct (len _ <=? 900).
    + intros [= <-]. constructor; [|constructor]. by apply collapse_phrase_header.
    + destruct (chunk_text_range _ 400 900) as [subs|]; [|done].
      simpl. intros [= <-]. apply Forall_forall. intros c Hc.
      change (map ?f ?l) with (f <$> l) in Hc.
      apply list_elem_of_fmap in Hc as (x & -> & _).
      by apply collapse_phrase_header.
  - intros [= <-]. destruct (truthy (collapse_whitespace header)); [|constructor].
    constructor; [|constructor]. by apply collapse_phrase_truthy.
Qed.

Section SectionsPhrases.
Variable format_disciplines : pystr -> pystr.
Variable sem_re_match : pystr -> bool.

(** X15. [split_oque_vou_aprender_sections] returns, and every chunk is
    whitespace-collapsed text: not empty, made of words separated by single
    spaces, without line feeds or tabs. *)
Theorem split_sections_phrases raw_text :
  exists chunks,
    split_oque_vou_aprender_sections format_disciplines sem_re_match raw_text
    = Some chunks
    /\ Forall phrase chunks.
Proof.
  unfold split_oque_vou_aprender_sections.
  destruct (truthy (format_disciplines raw_text)); [|by exists []].
  set (blocks := group_semesters sem_re_match (format_disciplines raw_text)).
  assert (is_Some (mapM block_chunks blocks)) as [per_block Hper].
  { apply mapM_is_Some. apply Forall_forall. intros b _.
    apply block_chunks_total. }
  rewrite Hper. simpl. eexists. split; [done|].
  apply mapM_Some in Hper. apply Forall_forall. intros c Hc.
  apply elem_of_concat in Hc as (chunks & Hc & Hin).
  apply list_elem_of_lookup in Hin as [i Hi].
  destruct (Forall2_lookup_r _ _ _ _ _ Hper Hi) as (b & _ & Hb).
  apply block_chunks_phrases in Hb.
  by eapply Forall_forall in Hb.
Qed.
End SectionsPhrases.

(** ** [strip_html] and [collapse_whitespace] *)

Lemma sub_ws_replace_nbsp b s :
  sub_ws b (replace_char NBSP SP s) = sub_ws b s.
Proof.
  revert b. induction s as [|c s IH]; intros b; [done|].
  unfold replace_char in *. cbn [map sub_ws].
  destruct (N.eqb_spec c NBSP) as [->|Hc].
  - change (is_space SP) with true. change (is_space NBSP) with true.
    cbv iota. by rewrite IH.
  - by rewrite !IH.
Qed.

(** X16. [strip_html] of [rag_index.py] is the removal of the tags followed
    by [collapse_whitespace] of [json_to_pdf.py]: the replacement of the
    no-break space changes nothing, as [\s] matches it. *)
Theorem strip_html_collapse value :
  strip_html value = collapse_whitespace (strip_tags false value).
Proof.
  unfold strip_html, collapse_whitespace.
  destruct value as [|c value]; [done|]. cbn [truthy].
  rewrite sub_ws_replace_nbsp.
  by destruct (strip_tags false (c :: value)).
Qed.

(** X17. [collapse_whitespace] is idempotent, and what it returns is empty
    or made of words separated by single spaces. *)
Theorem collapse_whitespace_idempotent text :
  collapse_whitespace (collapse_whitespace text) = collapse_whitespace text
  /\ (collapse_whitespace text = [] \/ phrase (collapse_whitespace text)).
Proof.
  rewrite !collapse_whitespace_split.
  rewrite split_join_sp by apply split_words. split; [done|].
  destruct (split text) as [|w ws] eqn:E; [by left|]. right.
  exists (w :: ws). split; [done|]. split; [|done].
  rewrite <- E. apply split_words.
Qed.

(** ** The sentences of [split_into_sentences] *)

Lemma removelast_cons {A} (x : A) l : l <> [] -> removelast (x :: l) = x :: removelast l.
Proof. by destruct l. Qed.

Lemma re_split_sent_punct s cur in_sep :
  (in_sep = true -> ends_with_punct cur = true) ->
  Forall (fun p => ends_with_punct p = true)
    (removelast (re_split_sent cur in_sep s)).
Proof.
  revert cur in_sep. induction s as [|c r IH]; intros cur in_sep Hsep.
  - simpl. destruct in_sep; [|constructor].
    simpl. constructor; [by apply Hsep|constructor].
  - cbn [re_split_sent]. destruct (is_space c).
    + destruct (in_sep || ends_with_punct cur) eqn:E.
      * apply IH. intros _. apply orb_true_iff in E as [->|E]; [by apply Hsep|done].
      * by apply IH.
    + destruct in_sep.
      * rewrite removelast_cons by apply re_split_sent_nonnil.
        constructor; [by apply Hsep|]. by apply IH.
      * by apply IH.
Qed.

Lemma removelast_filter {A} (P : A -> Prop) (f : A -> bool) l :
  Forall P (removelast l) ->
  Forall P (removelast (filter (fun x => f x = true) l)).
Proof.
  induction l as [|x l IH]; [done|].
  destruct l as [|y l'].
  { intros _. rewrite filter_cons. case_decide; constructor. }
  rewrite removelast_cons by done. intros [Hx Hl]%Forall_cons.
  rewrite filter_cons. case_decide; [|by apply IH].
  destruct (filter (fun x => f x = true) (y :: l')) as [|z l''] eqn:E;
    [constructor|].
  rewrite removelast_cons by done. constructor; [done|]. by apply IH.
Qed.

Lemma removelast_map {A B} (g : A -> B) l :
  removelast (map g l) = map g (removelast l).
Proof.
  induction l as [|x l IH]; [done|]. destruct l as [|y l']; [done|].
  cbn [map]. rewrite !removelast_cons by done. cbn [map] in IH.
  by rewrite IH.
Qed.

Lemma is_punct_nonspace c : is_punct c = true -> is_space c = false.
Proof.
  unfold is_punct. intros H.
  repeat (apply orb_true_iff in H as [H|H]);
    apply N.eqb_eq in H; by subst c.
Qed.

Lemma ends_with_punct_strip p :
  ends_with_punct p = true -> ends_with_punct (strip p) = true.
Proof.
  unfold ends_with_punct. destruct (last p) as [d|] eqn:Hd; [|done].
  intros Hp. pose proof (is_punct_nonspace d Hp) as Hsp.
  destruct (lstrip_spec p) as (l & Hl & Hbl).
  assert (last (lstrip p) = Some d) as Hd'.
  { rewrite Hl, last_app in Hd.
    destruct (last (lstrip p)) as [d'|]; [done|].
    apply last_Some in Hd as [l' ->].
    apply Forall_app in Hbl as [_ [Hb _]%Forall_cons]. congruence. }
  unfold strip. rewrite (rstrip_id _ d Hd' Hsp), Hd'. done.
Qed.

(** X18. Every sentence returned by [split_into_sentences], except the
    last one, ends with a full stop, an exclamation mark or a question
    mark. *)
Theorem split_into_sentences_punct text :
  Forall (fun s => ends_with_punct s = true)
    (removelast (split_into_sentences text)).
Proof.
  unfold split_into_sentences. destruct (truthy text); [|constructor].
  cbv zeta. rewrite removelast_map.
  change (map ?f ?l) with (f <$> l). apply Forall_fmap.
  eapply Forall_impl.
  - apply (removelast_filter (fun p => ends_with_punct p = true)
             (fun p => truthy p && truthy (strip p))).
    by apply re_split_sent_punct.
  - intros p Hp. by apply ends_with_punct_strip.
Qed.

(** ** [build_index]: a line that does not encode *)

Section PersistFacts.
Context {vector score model : Type}.
Variable load_model : pystr -> option model.
Variable encode : model -> pystr -> vector.
Variable model_dim : model -> nat.
Variable uuid4 : nat -> pystr.
Variable py_repr : json -> pystr.

(** X19. The two artifacts are not written as one.  When the snippets are
    collected and their texts encode, but the record of one of them does
    not (a surrogate in the title, the article id or the [campo]), the
    build raises [UnicodeEncodeError] after it has created the directory
    and written [index.faiss] with the vectors of all the snippets;
    [metadata.jsonl] is left with the records before the first that does
    not encode, fewer lines than there are vectors. *)
Theorem build_index_persist_failure data model_name campo fs cursos courses m
    snippets :
  py_get data (py "cursos") (JArr []) = Ok cursos ->
  json_truthy cursos = true ->
  load_model model_name = Some m ->
  py_iter cursos = Ok courses ->
  all_snippets score uuid4 py_repr campo [] courses = Ok (Some snippets) ->
  Forall (fun s : Snippet score => utf8_encodable (text s) = true) snippets ->
  Exists (fun s : Snippet score => record_encodable (snippet_record s) = false)
    snippets ->
  exists written r rest,
    map snippet_record snippets = written ++ r :: rest
    /\ Forall (fun r => record_encodable r = true) written
    /\ record_encodable r = false
    /\ (length written < length snippets)%nat
    /\ build_index vector score model load_model encode model_dim uuid4 py_repr
         data model_name campo fs
       = (Artifacts true
            (Some (Readable (FlatIndex (model_dim m)
                               (map (encode m) (map text snippets)))))
            (Some (record_lines written)),
          Some (Err UnicodeEncodeError)).
Proof.
  intros Hg Ht Hm Hi Ha _ Hex.
  destruct (write_records_spec [] (map snippet_record snippets))
    as (written & rest & Hsplit & Hw & [[-> Hr]|(r & rest' & -> & Hbad & Hr)]).
  - rewrite app_nil_r in Hsplit. subst written.
    apply Exists_exists in Hex as (s & Hin & Hs).
    rewrite Forall_forall in Hw.
    rewrite (Hw (snippet_record s)) in Hs; [done|].
    change (map ?f ?l) with (f <$> l). by apply list_elem_of_fmap_2.
  - exists written, r, rest'. split; [done|]. split; [done|]. split; [done|].
    split.
    { apply (f_equal length) in Hsplit.
      rewrite length_map, length_app in Hsplit. simpl in Hsplit. lia. }
    unfold build_index. rewrite Hg, Ht, Hm, Hi, Ha.
    assert (truthy snippets = true) as ->.
    { destruct snippets; [|done]. by apply Exists_nil in Hex. }
    cbv zeta. by rewrite Hr.
Qed.
End PersistFacts.

Lemma build_index_persist_failure_witness :
  let course := JObj [(py "title", JStr [55296%N]);
                      (py "objetivoComercial", JStr (py "Learn."))] in
  exists index,
    Toy.build_index (JObj [(py "cursos", JArr [course])]) DEFAULT_MODEL_NAME
      None Toy.no_directory
    = (Artifacts true (Some (Readable index)) (Some []),
       Some (Err UnicodeEncodeError))
    /\ index_vectors index = [6].
Proof.
  intros course.
  set (s := MkSnippet (py "Learn.")
              (make_meta Z Toy.uuid4 0 [] [55296%N] [] (py "objetivo"))).
  destruct (build_index_persist_failure Toy.load_model Toy.encode Toy.model_dim
              Toy.uuid4 Toy.py_repr (JObj [(py "cursos", JArr [course])])
              DEFAULT_MODEL_NAME None Toy.no_directory (JArr [course]) [course]
              () [s])
    as (written & r & rest & Hsplit & _ & _ & Hlen & Hb);
    [reflexivity|reflexivity|reflexivity|reflexivity|vm_compute; reflexivity
    |repeat constructor| |].
  - apply Exists_cons_hd. vm_compute. reflexivity.
  - destruct written; [|simpl in Hlen; lia].
    eexists. split; [exact Hb|]. reflexivity.
Defined.

(** ** [build_index]: the metadata records *)

Section RecordFacts.
Context {vector score model : Type}.
Variable load_model : pystr -> option model.
Variable encode : model -> pystr -> vector.
Variable model_dim : model -> nat.
Variable uuid4 : nat -> pystr.
Variable py_repr : json -> pystr.

Lemma simple_chunk_defaults field_text chunks :
  simple_chunk field_text 900 150 = Some chunks ->
  Forall (fun c => c <> [] /\ strip c = c /\ len c <= 900) chunks.
Proof.
  intros Hc.
  pose proof (simple_chunk_trimmed _ _ _ _ Hc) as Htr.
  destruct (simple_chunk_content field_text 900 150 ltac:(lia) ltac:(lia) ltac:(lia))
    as (chunks2 & shared & H2 & _ & Hlen & _).
  assert (chunks2 = chunks) as -> by congruence.
  apply Forall_forall. intros c Hin.
  eapply Forall_forall in Htr as [? ?]; [|exact Hin].
  eapply Forall_forall in Hlen; [|exact Hin]. done.
Qed.

Lemma field_snippets_ok campo article_id title campo_value snippets fname ftext r :
  fname ∈ FIELD_NAMES ->
  (forall c, campo = Some c -> c <> [] -> campo_value = c) ->
  Forall (fun s : Snippet score => record_ok campo (snippet_record s)) snippets ->
  field_snippets score uuid4 article_id title campo_value snippets (fname, ftext)
  = Some r ->
  Forall (fun s : Snippet score => record_ok campo (snippet_record s)) r.
Proof.
  intros Hf Hcampo Hs. unfold field_snippets.
  destruct (truthy ftext); [|by intros [= <-]].
  destruct (simple_chunk ftext 900 150) as [chunks|] eqn:Hc; [|done].
  simpl. intros [= <-]. apply simple_chunk_defaults in Hc.
  revert snippets Hs. induction Hc as [|c chunks (H1 & H2 & H3) _ IH];
    intros snippets Hs; [done|].
  simpl. apply IH. apply Forall_app. split; [done|].
  constructor; [|constructor].
  exists (uuid4 (length snippets)), article_id, title, campo_value, fname, c.
  done.
Qed.

Lemma fields_snippets_ok campo article_id title campo_value fields snippets r :
  Forall (fun f => f.1 ∈ FIELD_NAMES) fields ->
  (forall c, campo = Some c -> c <> [] -> campo_value = c) ->
  Forall (fun s : Snippet score => record_ok campo (snippet_record s)) snippets ->
  fields_snippets score uuid4 article_id title campo_value snippets fields
  = Some r ->
  Forall (fun s : Snippet score => record_ok campo (snippet_record s)) r.
Proof.
  intros Hf Hcampo. revert snippets.
  induction Hf as [|[fname ftext] fields Hin _ IH]; intros snippets Hs.
  - by intros [= <-].
  - cbn [fields_snippets].
    destruct (field_snippets score uuid4 article_id title campo_value snippets
                (fname, ftext)) as [snippets'|] eqn:E; [|done].
    simpl. apply IH. by eapply field_snippets_ok.
Qed.

Lemma course_snippets_ok campo snippets course r :
  Forall (fun s : Snippet score => record_ok campo (snippet_record s)) snippets ->
  course_snippets score uuid4 py_repr campo snippets course = Ok (Some r) ->
  Forall (fun s : Snippet score => record_ok campo (snippet_record s)) r.
Proof.
  intros Hs. unfold course_snippets, mbind, result_bind.
  repeat match goal with
         | |- match ?x with Ok _ => _ | Err _ => _ end = _ -> _ =>
             destruct x; [|done]
         end.
  intros H.
  match type of H with
  | Ok ?x = _ => assert (x = Some r) as H' by congruence
  end.
  clear H. eapply fields_snippets_ok; [| |exact Hs|exact H'].
  - unfold FIELD_NAMES. repeat constructor; simpl; set_solver.
  - intros c -> Hc. by destruct c.
Qed.

Lemma all_snippets_ok campo courses snippets r :
  Forall (fun s : Snippet score => record_ok campo (snippet_record s)) snippets ->
  all_snippets score uuid4 py_repr campo snippets courses = Ok (Some r) ->
  Forall (fun s : Snippet score => record_ok campo (snippet_record s)) r.
Proof.
  revert snippets. induction courses as [|c rest IH]; intros snippets Hs.
  - by intros [= <-].
  - cbn [all_snippets].
    destruct (course_snippets score uuid4 py_repr campo snippets c)
      as [[snippets'|]|e] eqn:E; simpl; [|done|done].
    apply IH. by eapply course_snippets_ok.
Qed.

(** X20. After a build that ends well, [metadata.jsonl] has at least one
    line, and every line has the six keys [id], [articleId], [nomeCurso],
    [campo], [field] and [text], all of string value: the field is one of
    [objetivo], [metodologia], [requisitos] and [conteudo]; the text is not
    empty, neither starts nor ends with whitespace and has at most 900
    characters; with a non-empty [campo_override], every line carries it as
    its [campo]. *)
Theorem build_index_records data model_name campo fs fs' :
  build_index vector score model load_model encode model_dim uuid4 py_repr
    data model_name campo fs = (fs', Some (Ok ())) ->
  exists records,
    metadata_jsonl fs' = Some (record_lines records)
    /\ records <> []
    /\ Forall (record_ok campo) records.
Proof.
  intros (m & cursos & courses & snippets & _ & _ & _ & Hall & Hne & ->)
    %build_index_ok_inv.
  exists (map snippet_record snippets). split; [done|].
  split; [by destruct snippets|].
  change (map ?f ?l) with (f <$> l). apply Forall_fmap.
  by eapply all_snippets_ok.
Qed.
End RecordFacts.

Lemma build_index_records_witness :
  let data :=
    JObj [(py "cursos",
           JArr [JObj [(py "articleId", JStr (py "7"));
                       (py "title", JStr (py "Design"));
                       (py "objetivoComercial", JStr (py "<p>Learn  design.</p>"));
                       (py "comoVouAprender", JStr (py "By doing."))]])] in
  exists fs' records,
    Toy.build_index data DEFAULT_MODEL_NAME (Some (py "Tech")) Toy.no_directory
    = (fs', Some (Ok ()))
    /\ metadata_jsonl fs' = Some (record_lines records)
    /\ Forall (record_ok (Some (py "Tech"))) records.
Proof.
  intros data.
  set (r := Toy.build_index data DEFAULT_MODEL_NAME (Some (py "Tech"))
              Toy.no_directory).
  assert (Hr : r = (r.1, Some (Ok ()))) by (vm_compute; reflexivity).
  destruct (build_index_records Toy.load_model Toy.encode Toy.model_dim
              Toy.uuid4 Toy.py_repr data DEFAULT_MODEL_NAME (Some (py "Tech"))
              Toy.no_directory r.1 Hr)
    as (records & H1 & _ & H3).
  exists r.1, records. repeat split; assumption.
Defined.

(** ** [format_disciplines] *)

Lemma sub_nl_run_pass need repl l x :
  NL ∉ l ->
  sub_nl_run need repl None (l ++ x) = l ++ sub_nl_run need repl None x.
Proof.
  induction l as [|c l IH]; [done|].
  intros [Hc Hl]%not_elem_of_cons. cbn [app sub_nl_run].
  destruct (N.eqb_spec c NL); [done|]. by rewrite IH.
Qed.

Lemma sub_nl_run_one repl c x :
  is_space c = false ->
  sub_nl_run 3 repl None (NL :: c :: x) = NL :: c :: sub_nl_run 3 repl None x
  /\ sub_nl_run 3 repl None (NL :: NL :: c :: x)
     = NL :: NL :: c :: sub_nl_run 3 repl None x.
Proof.
  intros Hc. assert ((c =? NL)%N = false) as Hnl.
  { apply N.eqb_neq. by intros ->. }
  cbn [sub_nl_run]. change (NL =? NL)%N with true. cbv iota.
  rewrite Hnl, Hc. done.
Qed.

Lemma sub_nl_run_entries repl es :
  Forall formatted_entry es ->
  sub_nl_run 3 repl None (join_nl es) = join_nl es
  /\ (es <> [] ->
      sub_nl_run 3 repl None (NL :: join_nl es) = NL :: join_nl es).
Proof.
  induction 1 as [|e es He _ [IH1 IH2]]; [done|].
  destruct He as (l & [(c & l' & -> & Hc) _] & Hnl & He).
  apply not_elem_of_cons in Hnl as [_ Hnl].
  assert (exists rest, join_nl (e :: es) = e ++ rest
                       /\ sub_nl_run 3 repl None rest = rest)
    as (rest & HJ & Hrest).
  { destruct es as [|e' es'].
    - exists []. split; [by rewrite app_nil_r|done].
    - exists (NL :: join_nl (e' :: es')). split; [done|]. by apply IH2. }
  rewrite HJ.
  assert (sub_nl_run 3 repl None (l' ++ rest) = l' ++ rest) as Hy.
  { by rewrite sub_nl_run_pass, Hrest. }
  assert ((c =? NL)%N = false) as Hcnl.
  { apply N.eqb_neq. by intros ->. }
  destruct (sub_nl_run_one repl c (l' ++ rest) Hc) as [H1 H2].
  rewrite Hy in H1, H2.
  destruct He as [->| ->]; cbn [app].
  - split; [|intros _; exact H1].
    cbn [sub_nl_run]. by rewrite Hcnl, Hy.
  - split; [exact H1|intros _; exact H2].
Qed.

Lemma split_on_no_sep d s : Forall (fun l => d ∉ l) (split_on d s).
Proof.
  induction s as [|c r IH]; [repeat constructor; by intros ?%elem_of_nil|].
  simpl. destruct (N.eqb_spec c d) as [->|Hc].
  - constructor; [by intros ?%elem_of_nil|done].
  - destruct (split_on d r) as [|p ps].
    + repeat constructor. by intros ->%list_elem_of_singleton.
    + apply Forall_cons in IH as [Hp Hps]. constructor; [|done].
      by apply not_elem_of_cons.
Qed.

Section DisciplinesFacts.
Variable unescape : pystr -> pystr.
Variable sem_re_match : pystr -> bool.

Lemma format_line_entries line :
  NL ∉ line -> Forall formatted_entry (format_line sem_re_match line).
Proof.
  intros Hnl. unfold format_line.
  destruct (truthy (strip line)) eqn:Ht; [|constructor].
  assert (formatted_entry (strip line) /\ formatted_entry (NL :: strip line))
    as [H1 H2].
  { split; exists (strip line); (split; [|split]);
      try (apply trimmed_strip; by apply truthy_true);
      try (by intros ?%elem_of_strip); [by left|by right]. }
  repeat match goal with
         | |- context [if ?b then _ else _] => destruct b
         end; repeat constructor; done.
Qed.

Lemma formatted_lines_entries text :
  Forall formatted_entry (formatted_lines unescape sem_re_match text).
Proof.
  unfold formatted_lines.
  pose proof (split_on_no_sep NL (clean_html_text unescape text)) as Hl.
  induction Hl as [|l ls Hnl _ IH]; [constructor|].
  cbn [map concat]. apply Forall_app. split; [|done].
  by apply format_line_entries.
Qed.

Lemma format_disciplines_strip_join text :
  format_disciplines unescape sem_re_match text
  = strip (join_nl (formatted_lines unescape sem_re_match text)).
Proof.
  destruct (sub_nl_run_entries [NL; NL] _ (formatted_lines_entries text))
    as [H _].
  unfold format_disciplines.
  destruct text as [|c text]; [done|]. cbn [truthy]. cbv zeta.
  by rewrite H.
Qed.

(** X21. In [format_disciplines] the last substitution, of
    [\n\s*\n\s*\n] by two line feeds, never changes anything: the lines
    joined before it are stripped and not empty, each behind at most one
    added line feed, so that no whitespace run has three line feeds.  The
    result is the joined lines, stripped. *)
Theorem format_disciplines_joined text :
  sub_nl_run 3 [NL; NL] None (join_nl (formatted_lines unescape sem_re_match text))
  = join_nl (formatted_lines unescape sem_re_match text)
  /\ format_disciplines unescape sem_re_match text
     = strip (join_nl (formatted_lines unescape sem_re_match text)).
Proof.
  destruct (sub_nl_run_entries [NL; NL] _ (formatted_lines_entries text))
    as [H _].
  split; [done|]. apply format_disciplines_strip_join.
Qed.

Lemma split_on_concat ls :
  ls <> [] -> split_on NL (join_nl ls) = concat (map (split_on NL) ls).
Proof.
  induction ls as [|l ls IH]; [done|]. intros _.
  destruct ls as [|l' ls'].
  - simpl. by rewrite app_nil_r.
  - change (join_nl (l :: l' :: ls')) with (l ++ NL :: join_nl (l' :: ls')).
    rewrite split_on_app, IH by done. done.
Qed.

Lemma entry_line_eq e l :
  trimmed l -> NL ∉ l -> e = l \/ e = NL :: l -> entry_line e = l.
Proof.
  intros [(c & l' & -> & Hc) _] Hnl [->| ->]; [|done].
  cbn [entry_line].
  by assert ((c =? NL)%N = false) as -> by (apply N.eqb_neq; by intros ->).
Qed.

Lemma entry_lines e :
  formatted_entry e ->
  filter (fun l => truthy l = true) (split_on NL e) = [entry_line e]
  /\ trimmed (entry_line e).
Proof.
  intros (l & Htr & Hnl & He).
  pose proof Htr as [(c & l' & -> & Hc) _].
  assert ((c =? NL)%N = false) as Hcnl.
  { apply N.eqb_neq. by intros ->. }
  destruct He as [->| ->].
  - rewrite split_on_id by done. cbn [entry_line]. rewrite Hcnl.
    rewrite filter_cons, decide_True by done. done.
  - assert (split_on NL (NL :: c :: l') = [] :: split_on NL (c :: l')) as ->
      by reflexivity.
    cbn [entry_line]. change (NL =? NL)%N with true. cbv iota.
    rewrite filter_cons, decide_False by done.
    rewrite (split_on_id NL (c :: l')) by done.
    rewrite filter_cons, decide_True by done. done.
Qed.

Lemma entries_lines es :
  Forall formatted_entry es ->
  filter (fun l => truthy l = true) (concat (map (split_on NL) es))
  = map entry_line es.
Proof.
  induction 1 as [|e es He _ IH]; [done|].
  cbn [map concat]. rewrite filter_app, IH.
  by destruct (entry_lines e He) as [-> _].
Qed.

Lemma last_join_nl l ls d :
  last (default l (last ls)) = Some d -> last (join_nl (l :: ls)) = Some d.
Proof.
  revert l. induction ls as [|l' ls IH]; intros l; [done|].
  change (join_nl (l :: l' :: ls)) with (l ++ NL :: join_nl (l' :: ls)).
  intros H. rewrite last_app.
  assert (last (join_nl (l' :: ls)) = Some d) as Hl.
  { apply IH. destruct ls as [|l'' ls']; [done|].
    rewrite last_cons_cons in H.
    destruct (last (l'' :: ls')) eqn:E; [done|]. by apply last_None in E. }
  destruct (join_nl (l' :: ls)) as [|x y] eqn:E; [done|].
  by rewrite last_cons_cons, Hl.
Qed.

Lemma formatted_entry_last e :
  formatted_entry e -> exists d, last e = Some d /\ is_space d = false.
Proof.
  intros (l & [(c & l' & -> & _) (d & Hd & Hsp)] & _ & [->| ->]).
  - by exists d.
  - exists d. by rewrite last_cons_cons.
Qed.

(** The joined entries, stripped: the leading line feed goes. *)
Lemma strip_join_entries e es :
  Forall formatted_entry (e :: es) ->
  strip (join_nl (e :: es)) = join_nl (entry_line e :: es).
Proof.
  intros [He Hes]%Forall_cons.
  assert (trimmed (join_nl (entry_line e :: es))) as Htr.
  { destruct (entry_lines e He) as [_ [(c & x & Hc & Hsp) Hlast]]. split.
    - rewrite Hc. destruct es as [|e' es']; [by exists c, x|].
      exists c, (x ++ NL :: join_nl (e' :: es')). done.
    - assert (exists d, last (default (entry_line e) (last es)) = Some d
                        /\ is_space d = false) as (d & Hd & Hsp').
      { destruct (last es) as [e'|] eqn:E; [|done]. simpl.
        apply formatted_entry_last.
        eapply Forall_forall in Hes; [exact Hes|].
        apply last_Some in E as [es' ->].
        apply elem_of_app. right. by apply list_elem_of_singleton. }
      exists d. split; [|done]. by apply last_join_nl. }
  destruct He as (l & [(c & l' & -> & Hc) _] & Hnl & [->| ->]).
  - cbn [entry_line] in *.
    assert ((c =? NL)%N = false) as -> by (apply N.eqb_neq; by intros ->).
    assert ((c =? NL)%N = false) as Hcnl by (apply N.eqb_neq; by intros ->).
    rewrite Hcnl in Htr. by apply strip_trimmed.
  - cbn [entry_line] in *. change (NL =? NL)%N with true in *. cbv iota in *.
    apply strip_trimmed in Htr as [Hs _].
    assert (join_nl ((NL :: c :: l') :: es) = NL :: join_nl ((c :: l') :: es))
      as -> by (by destruct es).
    unfold strip in *. cbn [lstrip]. change (is_space NL) with true. done.
Qed.

Lemma kept_entry_lines lines :
  map entry_line (concat (map (format_line sem_re_match) lines))
  = filter kept_line (map strip lines).
Proof.
  induction lines as [|l lines IH]; [done|].
  cbn [map concat]. rewrite map_app, IH, filter_cons. f_equal.
  unfold format_line, kept_line.
  destruct (strip l) as [|c s] eqn:E.
  { cbn [truthy]. rewrite decide_False by (by intros [? _]). done. }
  cbn [truthy].
  assert (is_space c = false) as Hc by (by eapply strip_head).
  assert ((c =? NL)%N = false) as Hcnl by (apply N.eqb_neq; by intros ->).
  repeat case_bool_decide; cbn [orb].
  - rewrite decide_False by (intros (_ & ? & _); done). done.
  - rewrite decide_False by (intros (_ & ? & _); done). done.
  - rewrite decide_False by (intros (_ & _ & ?); done). done.
  - rewrite decide_True by done.
    repeat match goal with
           | |- context [if ?b then _ else _] =>
               lazymatch b with
               | (_ =? _)%N => fail
               | _ => destruct b
               end
           end; cbn [map entry_line]; change (NL =? NL)%N with true;
      by rewrite ?Hcnl.
Qed.

(** X22. The non-empty lines of the text returned by [format_disciplines]
    are the lines of the cleaned text, stripped, that are neither blank nor
    a separator [|] or [||], all of them and in order: the classification
    of the lines only decides where an empty line is put. *)
Theorem format_disciplines_lines text :
  filter (fun l => truthy l = true)
    (split_on NL (format_disciplines unescape sem_re_match text))
  = filter kept_line (map strip (split_on NL (clean_html_text unescape text))).
Proof.
  rewrite format_disciplines_strip_join.
  rewrite <- kept_entry_lines. fold (formatted_lines unescape sem_re_match text).
  pose proof (formatted_lines_entries text) as Hes.
  destruct (formatted_lines unescape sem_re_match text) as [|e es].
  { reflexivity. }
  rewrite (strip_join_entries e es Hes).
  rewrite split_on_concat by done.
  assert (Forall formatted_entry (entry_line e :: es)) as Hes'.
  { apply Forall_cons in Hes as [He Hes]. constructor; [|done].
    destruct He as (l & Htl & Hnl & He).
    rewrite (entry_line_eq e l Htl Hnl He). exists l. split; [done|].
    split; [done|by left]. }
  rewrite (entries_lines _ Hes'). cbn [map]. f_equal.
  destruct (Forall_inv Hes) as (l & Htl & Hnl & He).
  rewrite (entry_line_eq e l Htl Hnl He).
  apply (entry_line_eq l l Htl Hnl). by left.
Qed.
End DisciplinesFacts.

(** ** Reading the bullets back *)

Lemma join_sp_app a b :
  a <> [] -> b <> [] -> join_sp (a ++ b) = join_sp a ++ SP :: join_sp b.
Proof.
  intros Ha Hb. induction a as [|w a IH]; [done|].
  destruct a as [|w' a'].
  - simpl app. by rewrite join_sp_cons.
  - change ((w :: w' :: a') ++ b) with (w :: ((w' :: a') ++ b)).
    rewrite join_sp_cons by done. rewrite IH by done.
    rewrite (join_sp_cons w (w' :: a')) by done. by rewrite <- app_assoc.
Qed.

Lemma join_sp_phrases items :
  Forall phrase items -> join_sp items = join_sp (concat (map split items)).
Proof.
  induction 1 as [|p rest Hp Hrest IH]; [done|].
  destruct (phrase_split p Hp) as (_ & Hne & Hjoin).
  cbn [map concat]. destruct rest as [|q rest'].
  - simpl. by rewrite app_nil_r, Hjoin.
  - rewrite join_sp_cons by done. rewrite join_sp_app, Hjoin, IH; [done|done|].
    apply Forall_cons in Hrest as [Hq _].
    destruct (phrase_split q Hq) as (_ & Hq' & _).
    cbn [map concat]. by destruct (split q).
Qed.

(** X23. The bullets read back as the text: the items of
    [bullets_from_text] (the bullets without their dash), joined by single
    spaces, are the whitespace-collapsed text, and so are the pieces of
    [chunk_to_range]. *)
Theorem bullets_read_back text min_len max_len :
  join_sp (map (drop 2) (bullets_from_text text min_len max_len))
  = collapse_whitespace text
  /\ join_sp (chunk_to_range text min_len max_len) = collapse_whitespace text.
Proof.
  rewrite collapse_whitespace_split. split.
  - destruct (bullets_from_text_inv text min_len max_len)
      as (items & -> & Hph & _ & Hwords & _).
    rewrite map_map.
    rewrite (map_ext (fun x => drop 2 (bullet x)) id), map_id by done.
    by rewrite join_sp_phrases, Hwords.
  - destruct (chunk_to_range_spec text min_len max_len) as (Hph & Hwords & _).
    by rewrite join_sp_phrases, Hwords.
Qed.
(** ** [carregar_cursos] *)

Lemma join_nl_split_on s : join_nl (split_on NL s) = s.
Proof.
  induction s as [|c r IH]; [done|].
  pose proof (split_on_nonnil NL r) as Hne. cbn [split_on].
  destruct (c =? NL)%N eqn:Hc.
  - apply N.eqb_eq in Hc as ->.
    destruct (split_on NL r) as [|p ps]; [done|].
    change (join_nl ([] :: p :: ps)) with ([] ++ NL :: join_nl (p :: ps)).
    by rewrite IH.
  - destruct (split_on NL r) as [|p ps]; [done|].
    destruct ps as [|p' ps'].
    + simpl in *. by rewrite IH.
    + change (join_nl ((c :: p) :: p' :: ps'))
        with (c :: (p ++ NL :: join_nl (p' :: ps'))).
      change (join_nl (p :: p' :: ps'))
        with (p ++ NL :: join_nl (p' :: ps')) in IH.
      by rewrite IH.
Qed.

Lemma split_split_on s : concat (map split (split_on NL s)) = split s.
Proof. by rewrite <- split_join_nl, join_nl_split_on. Qed.

Lemma split_kept_lines ls :
  concat (map split (filter (fun l => truthy l = true) (map strip ls)))
  = concat (map split ls).
Proof.
  induction ls as [|l ls IH]; [done|]. cbn [map].
  rewrite filter_cons. destruct (decide (truthy (strip l) = true)) as [Ht|Ht].
  - cbn [map concat]. by rewrite split_strip, IH.
  - cbn [concat]. rewrite IH.
    apply not_true_is_false, truthy_false in Ht.
    apply strip_nil_inv, split_nil_inv in Ht. by rewrite Ht.
Qed.

(** The item lines of a course keep the words of its text. *)
Lemma linhas_words oq : concat (map split (linhas oq)) = split oq.
Proof. unfold linhas. by rewrite split_kept_lines, split_split_on. Qed.

Lemma linhas_lines oq :
  Forall (fun l => trimmed l /\ NL ∉ l) (linhas oq).
Proof.
  unfold linhas. apply Forall_forall. intros l Hin.
  apply list_elem_of_filter in Hin as [Ht Hin].
  change (map ?f ?x) with (f <$> x) in Hin.
  apply list_elem_of_fmap in Hin as (l' & -> & Hl').
  split.
  - apply trimmed_strip. by apply truthy_true.
  - intros Hnl%elem_of_strip.
    pose proof (split_on_no_sep NL oq) as Hall.
    rewrite Forall_forall in Hall. by apply (Hall l').
Qed.

Lemma get_stripped_cases pairs k :
  (text_or_falsy (default JNull (dict_lookup k pairs))
   /\ exists s, get_stripped (JObj pairs) k = Ok s)
  \/ (~ text_or_falsy (default JNull (dict_lookup k pairs))
      /\ get_stripped (JObj pairs) k = Err AttributeError).
Proof.
  unfold get_stripped, py_get, py_or. cbn [mbind result_bind].
  destruct (json_truthy (default JNull (dict_lookup k pairs))) eqn:Ht.
  - destruct (default JNull (dict_lookup k pairs)) as [|b|z|m e|s|items|ps] eqn:Hv;
      cbn [mbind result_bind str_strip];
      try (right; split; [intros [H|[s' H]]; congruence|reflexivity]).
    left. split; [right; by exists s|by eexists].
  - left. split; [by left|]. by eexists.
Qed.

Section LoaderFacts.
Variable py_repr : json -> pystr.

(** What the loop body appends for a course on which it returns. *)
Lemma curso_docs_inv curso block :
  curso_docs py_repr curso = Ok block ->
  exists pairs title formato duracao url objetivo como posso oq,
    curso = JObj pairs
    /\ get_stripped curso (py "title") = Ok title
    /\ get_stripped curso (py "url") = Ok url
    /\ get_stripped curso (py "oqueVouAprender") = Ok oq
    /\ block
       = doc_geral py_repr (default JNull (dict_lookup (py "articleId") pairs))
           title formato duracao url
           (texto_curso title formato duracao url objetivo como posso oq)
         :: imap (fun i linha =>
                    doc_item py_repr
                      (default JNull (dict_lookup (py "articleId") pairs))
                      title url (Z.of_nat i + 1) linha)
              (linhas oq).
Proof.
  destruct curso as [| | | | | |pairs]; try done.
  unfold curso_docs.
  destruct (get_stripped (JObj pairs) (py "title")) as [title|] eqn:E1; [|done].
  destruct (get_stripped (JObj pairs) (py "formatoName")) as [formato|] eqn:E2;
    [|done].
  destruct (get_stripped (JObj pairs) (py "modalidadeSecundariaDuracao"))
    as [duracao|] eqn:E3; [|done].
  destruct (get_stripped (JObj pairs) (py "url")) as [url|] eqn:E4; [|done].
  destruct (get_stripped (JObj pairs) (py "objetivoComercial"))
    as [objetivo|] eqn:E5; [|done].
  destruct (get_stripped (JObj pairs) (py "comoVouAprender")) as [como|] eqn:E6;
    [|done].
  destruct (get_stripped (JObj pairs) (py "possoFazerEsseCurso"))
    as [posso|] eqn:E7; [|done].
  destruct (get_stripped (JObj pairs) (py "oqueVouAprender")) as [oq|] eqn:E8;
    [|done].
  cbn [mbind result_bind py_get]. intros [= <-].
  by exists pairs, title, formato, duracao, url, objetivo, como, posso, oq.
Qed.

Lemma curso_docs_cases curso :
  (loadable_course curso
   /\ exists block,
        curso_docs py_repr curso = Ok block
        /\ length block = S (length (linhas (course_oq curso))))
  \/ (~ loadable_course curso /\ curso_docs py_repr curso = Err AttributeError).
Proof.
  destruct curso as [| | | | | |pairs];
    try (right; split; [by intros (? & [=] & _)|reflexivity]).
  unfold curso_docs, course_oq.
  assert (Hno : forall k,
    k ∈ LOADER_FIELDS ->
    ~ text_or_falsy (default JNull (dict_lookup k pairs)) ->
    ~ loadable_course (JObj pairs)).
  { intros k Hk Hv (pairs' & [= <-] & HF).
    rewrite Forall_forall in HF. by apply Hv, HF. }
  assert (Hin : forall k, In k LOADER_FIELDS -> k ∈ LOADER_FIELDS)
    by (intros k; apply list_elem_of_In).
  destruct (get_stripped_cases pairs (py "title")) as [[H1 [s1 E1]]|[H1 E1]];
    rewrite E1;
    [|right; split; [apply (Hno (py "title")); [apply Hin; simpl; tauto|exact H1]|reflexivity]].
  destruct (get_stripped_cases pairs (py "formatoName")) as [[H2 [s2 E2]]|[H2 E2]];
    rewrite E2;
    [|right; split; [apply (Hno (py "formatoName")); [apply Hin; simpl; tauto|exact H2]|reflexivity]].
  destruct (get_stripped_cases pairs (py "modalidadeSecundariaDuracao"))
    as [[H3 [s3 E3]]|[H3 E3]]; rewrite E3;
    [|right; split; [apply (Hno (py "modalidadeSecundariaDuracao")); [apply Hin; simpl; tauto|exact H3]|reflexivity]].
  destruct (get_stripped_cases pairs (py "url")) as [[H4 [s4 E4]]|[H4 E4]];
    rewrite E4;
    [|right; split; [apply (Hno (py "url")); [apply Hin; simpl; tauto|exact H4]|reflexivity]].
  destruct (get_stripped_cases pairs (py "objetivoComercial"))
    as [[H5 [s5 E5]]|[H5 E5]]; rewrite E5;
    [|right; split; [apply (Hno (py "objetivoComercial")); [apply Hin; simpl; tauto|exact H5]|reflexivity]].
  destruct (get_stripped_cases pairs (py "comoVouAprender"))
    as [[H6 [s6 E6]]|[H6 E6]]; rewrite E6;
    [|right; split; [apply (Hno (py "comoVouAprender")); [apply Hin; simpl; tauto|exact H6]|reflexivity]].
  destruct (get_stripped_cases pairs (py "possoFazerEsseCurso"))
    as [[H7 [s7 E7]]|[H7 E7]]; rewrite E7;
    [|right; split; [apply (Hno (py "possoFazerEsseCurso")); [apply Hin; simpl; tauto|exact H7]|reflexivity]].
  destruct (get_stripped_cases pairs (py "oqueVouAprender"))
    as [[H8 [s8 E8]]|[H8 E8]]; rewrite E8;
    [|right; split; [apply (Hno (py "oqueVouAprender")); [apply Hin; simpl; tauto|exact H8]|reflexivity]].
  left. split.
  - exists pairs. split; [done|]. unfold LOADER_FIELDS.
    repeat (constructor; [assumption|]). constructor.
  - cbn [mbind result_bind py_get]. eexists. split; [reflexivity|].
    cbn [length]. by rewrite length_imap.
Qed.

Lemma all_docs_Ok docs courses out :
  all_docs py_repr docs courses = Ok out ->
  exists blocks,
    Forall2 (fun curso block => curso_docs py_repr curso = Ok block) courses blocks
    /\ out = docs ++ concat blocks.
Proof.
  revert docs. induction courses as [|c rest IH]; intros docs.
  - intros [= <-]. exists []. split; [constructor|]. by rewrite app_nil_r.
  - cbn [all_docs].
    destruct (curso_docs py_repr c) as [ds|e] eqn:Hc; [|done].
    cbn [mbind result_bind]. intros (blocks & HF & ->)%IH.
    exists (ds :: blocks). split; [by constructor|].
    cbn [concat]. by rewrite app_assoc.
Qed.

Lemma all_docs_cases docs courses :
  (Forall loadable_course courses ->
   exists out,
     all_docs py_repr docs courses = Ok out
     /\ length out
        = (length docs + length courses
           + sum_list (map (fun c => length (linhas (course_oq c))) courses))%nat)
  /\ (~ Forall loadable_course courses ->
      all_docs py_repr docs courses = Err AttributeError).
Proof.
  revert docs. induction courses as [|c rest IH]; intros docs.
  - split.
    + intros _. exists docs. split; [done|]. simpl. lia.
    + intros H. destruct H. constructor.
  - cbn [all_docs].
    destruct (curso_docs_cases c) as [[Hl (b & -> & Hb)]|[Hn ->]].
    + cbn [mbind result_bind]. destruct (IH (docs ++ b)) as [IH1 IH2]. split.
      * intros [_ Hr]%Forall_cons. destruct (IH1 Hr) as (out & -> & Hlen).
        exists out. split; [done|]. rewrite Hlen, length_app, Hb.
        cbn [map sum_list_with length]. unfold id. lia.
      * intros Hnot. apply IH2. intros Hr. apply Hnot. by constructor.
    + split; [|done]. by intros [? _]%Forall_cons.
Qed.

(** X24. [carregar_cursos] on a file whose ["cursos"] is a list (or is
    missing) returns exactly when every course is a JSON object whose eight
    text fields are missing, falsy or strings, and raises [AttributeError]
    otherwise.  When it returns there is one document per course and one
    more per non-blank line of the ["oqueVouAprender"] of each course. *)
Theorem carregar_cursos_returns pairs courses :
  default (JArr []) (dict_lookup (py "cursos") pairs) = JArr courses ->
  (Forall loadable_course courses ->
   exists docs,
     carregar_cursos py_repr (JObj pairs) = Ok docs
     /\ length docs
        = (length courses
           + sum_list (map (fun c => length (linhas (course_oq c))) courses))%nat)
  /\ (~ Forall loadable_course courses ->
      carregar_cursos py_repr (JObj pairs) = Err AttributeError).
Proof.
  intros Hc. unfold carregar_cursos, py_get.
  cbn [mbind result_bind]. rewrite Hc. cbn [py_iter mbind result_bind].
  destruct (all_docs_cases [] courses) as [H1 H2]. split; [|exact H2].
  intros HF. destruct (H1 HF) as (out & -> & Hlen). by exists out.
Qed.

Lemma doc_item_last_line a title url i linha :
  NL ∉ linha ->
  doc_last_line (doc_item py_repr a title url i linha) = Some linha.
Proof.
  intros Hnl. unfold doc_last_line.
  assert (doc_field (doc_item py_repr a title url i linha) (py "text")
          = Some (JStr (texto_disciplina py_repr title i linha))) as ->
    by reflexivity.
  unfold texto_disciplina.
  rewrite !app_assoc. rewrite <- app_assoc.
  change ([NL] ++ linha) with (NL :: linha).
  rewrite split_on_app, (split_on_id NL linha Hnl). apply last_snoc.
Qed.

(** X25. The documents of [carregar_cursos] come course by course, in the
    order of the file: for each course the general document, then one item
    per non-blank line of its ["oqueVouAprender"], numbered from 1 without
    a gap, every one with the article id of the course. *)
Theorem carregar_cursos_layout data docs :
  carregar_cursos py_repr data = Ok docs ->
  exists courses blocks,
    (cursos ← py_get data (py "cursos") (JArr []); py_iter cursos) = Ok courses
    /\ docs = concat blocks
    /\ Forall2 course_block courses blocks.
Proof.
  unfold carregar_cursos.
  destruct (py_get data (py "cursos") (JArr [])) as [cursos|] eqn:Hg; [|done].
  cbn [mbind result_bind].
  destruct (py_iter cursos) as [courses|] eqn:Hi; [|done].
  intros (blocks & HF & ->)%all_docs_Ok.
  exists courses, blocks. split; [done|]. split; [done|].
  eapply Forall2_impl; [exact HF|].
  intros curso block
    (pairs & title & formato & duracao & url & objetivo & como & posso & oq
     & -> & _ & _ & Hoq & ->)%curso_docs_inv.
  set (a := default JNull (dict_lookup (py "articleId") pairs)).
  eexists _, _, a. split; [reflexivity|]. split; [reflexivity|].
  split; [reflexivity|].
  assert (Hitems : forall d,
    d ∈ imap (fun i linha => doc_item py_repr a title url (Z.of_nat i + 1) linha)
          (linhas oq) ->
    exists i linha, d = doc_item py_repr a title url i linha).
  { intros d (i & Hd)%list_elem_of_lookup. rewrite list_lookup_imap in Hd.
    destruct (linhas oq !! i) as [linha|]; [|done].
    injection Hd as <-. by eexists _, _. }
  split; [|split; [|split]].
  - apply Forall_forall. intros d (i & linha & ->)%Hitems. reflexivity.
  - constructor; [reflexivity|].
    apply Forall_forall. intros d (i & linha & ->)%Hitems. reflexivity.
  - apply list_eq. intros i. change (map ?f ?l) with (f <$> l).
    rewrite !list_lookup_fmap, list_lookup_imap, length_imap.
    destruct (linhas oq !! i) as [linha|] eqn:Hl; cbn [fmap option_fmap option_map].
    + rewrite lookup_seq_lt by (by eapply lookup_lt_Some).
      cbn [fmap option_fmap option_map]. do 2 f_equal.
      change (doc_meta (doc_item py_repr a title url (Z.of_nat i + 1) linha)
                (py "item")) with (Some (JInt (Z.of_nat i + 1))).
      do 2 f_equal. lia.
    + rewrite lookup_seq_ge by (by apply lookup_ge_None). done.
  - rewrite length_imap. unfold course_oq. by rewrite Hoq.
Qed.

(** X26. No word of the ["oqueVouAprender"] of a course is lost in its
    items: the text of the [i]-th item ends with the [i]-th non-blank line,
    stripped, on a line of its own, and the words of these lines, in
    order, are the words of the field. *)
Theorem curso_docs_item_lines curso block :
  curso_docs py_repr curso = Ok block ->
  map doc_last_line (tail block) = map Some (linhas (course_oq curso))
  /\ Forall (fun l => trimmed l /\ NL ∉ l) (linhas (course_oq curso))
  /\ concat (map split (linhas (course_oq curso))) = split (course_oq curso).
Proof.
  intros (pairs & title & formato & duracao & url & objetivo & como & posso & oq
          & -> & _ & _ & Hoq & ->)%curso_docs_inv.
  unfold course_oq. rewrite Hoq. cbn [tail].
  split; [|split; [apply linhas_lines|apply linhas_words]].
  apply list_eq. intros i. change (map ?f ?l) with (f <$> l).
  rewrite !list_lookup_fmap, list_lookup_imap.
  destruct (linhas oq !! i) as [linha|] eqn:Hl; [|done].
  cbn [fmap option_fmap option_map]. f_equal.
  apply doc_item_last_line.
  pose proof (linhas_lines oq) as Hall. rewrite Forall_forall in Hall.
  apply (Hall linha). by eapply list_elem_of_lookup_2.
Qed.
End LoaderFacts.

Lemma carregar_cursos_returns_witness :
  let curso :=
    JObj [(py "articleId", JInt 7); (py "title", JStr (py " Design "));
          (py "oqueVouAprender", JStr (py "Logica" ++ NL :: NL :: py " Redes "))] in
  (exists docs,
     carregar_cursos Toy.py_repr (JObj [(py "cursos", JArr [curso])]) = Ok docs
     /\ length docs = 3%nat)
  /\ carregar_cursos Toy.py_repr
       (JObj [(py "cursos", JArr [JObj [(py "title", JInt 3)]])])
     = Err AttributeError.
Proof.
  intros curso. split.
  - destruct (carregar_cursos_returns Toy.py_repr
                [(py "cursos", JArr [curso])] [curso] eq_refl) as [H _].
    destruct H as (docs & Hd & Hl).
    { constructor; [|constructor]. eexists. split; [reflexivity|].
      repeat (constructor;
              [first [left; reflexivity|right; eexists; reflexivity]|]).
      constructor. }
    exists docs. split; [exact Hd|]. rewrite Hl. vm_compute. reflexivity.
  - apply (carregar_cursos_returns Toy.py_repr
             [(py "cursos", JArr [JObj [(py "title", JInt 3)]])]
             [JObj [(py "title", JInt 3)]] eq_refl).
    intros [(pairs & [= <-] & HF) _]%Forall_cons.
    apply Forall_cons in HF as [[H|[s H]] _]; discriminate H.
Defined.

Lemma carregar_cursos_layout_witness :
  let curso :=
    JObj [(py "articleId", JInt 7); (py "title", JStr (py " Design "));
          (py "oqueVouAprender", JStr (py "Logica" ++ NL :: NL :: py " Redes "))] in
  exists docs blocks,
    carregar_cursos Toy.py_repr (JObj [(py "cursos", JArr [curso; curso])])
    = Ok docs
    /\ docs = concat blocks
    /\ Forall2 course_block [curso; curso] blocks.
Proof.
  intros curso.
  set (r := carregar_cursos Toy.py_repr
              (JObj [(py "cursos", JArr [curso; curso])])).
  assert (Hr : r = Ok (match r with Ok l => l | Err _ => [] end))
    by (vm_compute; reflexivity).
  destruct (carregar_cursos_layout Toy.py_repr _ _ Hr)
    as (courses & blocks & Hc & Hd & HF).
  injection Hc as <-.
  eexists _, blocks. split; [exact Hr|]. split; [exact Hd|exact HF].
Defined.

Lemma curso_docs_item_lines_witness :
  let curso :=
    JObj [(py "title", JStr (py " Design "));
          (py "oqueVouAprender", JStr (py "Logica" ++ NL :: NL :: py " Redes "))] in
  exists block,
    curso_docs Toy.py_repr curso = Ok block
    /\ map doc_last_line (tail block) = [Some (py "Logica"); Some (py "Redes")].
Proof.
  intros curso.
  set (r := curso_docs Toy.py_repr curso).
  assert (Hr : r = Ok (match r with Ok l => l | Err _ => [] end))
    by (vm_compute; reflexivity).
  destruct (curso_docs_item_lines Toy.py_repr _ _ Hr) as (H1 & _ & _).
  eexists. split; [exact Hr|]. rewrite H1. vm_compute. reflexivity.
Defined.

(** ** [build_yaml_header] *)

Lemma str_strip_Ok v s : str_strip v = Ok s -> exists x, s = strip x.
Proof. destruct v; try done. intros [= <-]. by eexists. Qed.

Lemma get_either_Ok curso to_display k s :
  get_either curso to_display k = Ok s -> exists x, s = strip x.
Proof.
  unfold get_either, mbind, result_bind.
  destruct (py_get curso k JNull) as [a|]; [|done].
  destruct (py_or a _) as [v|]; [|done]. apply str_strip_Ok.
Qed.

Lemma ensure_absolute_url_value_Ok v u :
  ensure_absolute_url_value v = Ok u -> exists x, u = ensure_absolute_url x.
Proof.
  unfold ensure_absolute_url_value. destruct (json_truthy v).
  - destruct v; try done. intros [= <-]. by eexists.
  - intros [= <-]. by exists [].
Qed.

Lemma stripped_trimmed s : strip s = s -> s <> [] -> trimmed s.
Proof. intros Hs Hne. rewrite <- Hs. apply trimmed_strip. by rewrite Hs. Qed.

Lemma ensure_absolute_url_stripped x :
  strip (ensure_absolute_url x) = ensure_absolute_url x
  /\ ~ py "/" `prefix_of` ensure_absolute_url x.
Proof.
  destruct (ensure_absolute_url_cases x) as [[-> H]|(-> & H1 & H2)].
  - split; [apply strip_strip|]. intros Hp%startswith_true. congruence.
  - split.
    + apply strip_app_trimmed; [by eexists _, _|].
      by eapply startswith_nonempty; [|eassumption].
    + by intros [k [=]].
Qed.

Lemma yaml_entries_filter (kvs : list (pystr * pystr)) :
  concat (map (fun kv => yaml_entry kv.1 kv.2) kvs)
  = map (fun kv => kv.1 ++ py ": " ++ kv.2)
      (filter (fun kv => truthy kv.2 = true) kvs).
Proof.
  induction kvs as [|[k v] kvs IH]; [done|].
  cbn [map concat fst snd]. rewrite filter_cons. cbn [snd].
  unfold yaml_entry at 1. destruct (truthy v) eqn:Hv.
  - rewrite decide_True by done. cbn [map fst snd app]. by rewrite IH.
  - rewrite decide_False by done. by rewrite IH.
Qed.

Section HeaderFacts.
Variable py_repr : json -> pystr.

(** X27. The header of a course is [---course], then at most one line
    [key: value] for each of the six keys, in their fixed order, then
    [---]: a key without value has no line, every value written neither
    starts nor ends with whitespace, and the URL written is never
    site-relative. *)
Theorem build_yaml_header_shape curso h :
  build_yaml_header py_repr curso = Ok h ->
  exists entries : list (pystr * pystr),
    h = join_nl ([py "---course"]
                 ++ map (fun kv => kv.1 ++ py ": " ++ kv.2) entries
                 ++ [py "---"])
    /\ map fst entries `sublist_of` YAML_KEYS
    /\ Forall (fun kv => trimmed kv.2) entries
    /\ (forall v, (py "url", v) ∈ entries -> ~ py "/" `prefix_of` v).
Proof.
  unfold build_yaml_header.
  destruct (py_get curso (py "articleId") JNull) as [a|]; [|done].
  cbn [mbind result_bind].
  destruct (py_or a (Ok (JStr []))) as [a'|]; [|done].
  cbn [mbind result_bind].
  destruct (py_get curso (py "title") JNull) as [t1|]; [|done].
  cbn [mbind result_bind].
  destruct (py_or t1 _) as [t|]; [|done]. cbn [mbind result_bind].
  destruct (str_strip t) as [title|] eqn:Ht; [|done]. cbn [mbind result_bind].
  destruct (py_get curso (py "toDisplay") (JObj [])) as [td|]; [|done].
  cbn [mbind result_bind].
  destruct (py_or td (Ok (JObj []))) as [to_display|]; [|done].
  cbn [mbind result_bind].
  destruct (get_either curso to_display (py "formatoName")) as [formato|] eqn:Hf;
    [|done]. cbn [mbind result_bind].
  destruct (get_either curso to_display (py "modalidadeSecundariaDuracao"))
    as [duracao|] eqn:Hd; [|done]. cbn [mbind result_bind].
  destruct (get_either curso to_display (py "tipoName")) as [tipo|] eqn:Htp;
    [|done]. cbn [mbind result_bind].
  destruct (py_get curso (py "url") JNull) as [u|]; [|done].
  cbn [mbind result_bind].
  destruct (py_or u (Ok (JStr []))) as [u'|]; [|done]. cbn [mbind result_bind].
  destruct (ensure_absolute_url_value u') as [url|] eqn:Hu; [|done].
  cbn [mbind result_bind]. intros [= <-].
  apply str_strip_Ok in Ht as [xt ->].
  apply get_either_Ok in Hf as [xf ->].
  apply get_either_Ok in Hd as [xd ->].
  apply get_either_Ok in Htp as [xp ->].
  apply ensure_absolute_url_value_Ok in Hu as [xu ->].
  set (kvs := [ (py "articleId", strip (py_str py_repr a'));
                (py "nomeCurso", strip xt);
                (py "formatoName", strip xf);
                (py "modalidadeSecundariaDuracao", strip xd);
                (py "tipoName", strip xp);
                (py "url", ensure_absolute_url xu) ]).
  exists (filter (fun kv : pystr * pystr => truthy kv.2 = true) kvs).
  assert (Hstripped : Forall (fun kv : pystr * pystr => strip kv.2 = kv.2) kvs).
  { unfold kvs. repeat (constructor; [apply strip_strip|]).
    constructor; [apply ensure_absolute_url_stripped|constructor]. }
  split; [|split; [|split]].
  - rewrite <- yaml_entries_filter. unfold kvs. cbn [map concat fst snd].
    by rewrite app_nil_r, <- !app_assoc.
  - change (map fst ?l) with (fst <$> l).
    change YAML_KEYS with (fst <$> kvs).
    apply fmap_sublist, sublist_filter.
  - apply Forall_forall. intros kv [Hv Hin]%list_elem_of_filter.
    rewrite Forall_forall in Hstripped.
    apply stripped_trimmed; [by apply Hstripped|by apply truthy_true].
  - intros v [_ Hin]%list_elem_of_filter. unfold kvs in Hin.
    repeat (apply elem_of_cons in Hin as [Hin|Hin];
            [injection Hin as Hk Hv; vm_compute in Hk; discriminate Hk|]).
    apply list_elem_of_singleton in Hin. injection Hin as ->.
    apply ensure_absolute_url_stripped.
Qed.
End HeaderFacts.

Lemma build_yaml_header_shape_witness :
  let curso :=
    JObj [(py "articleId", JStr (py " 7 ")); (py "title", JStr []);
          (py "toDisplay", JObj [(py "title", JStr (py "Design"))]);
          (py "url", JStr (py "/cursos/design "))] in
  exists h entries,
    build_yaml_header Toy.py_repr curso = Ok h
    /\ h = join_nl ([py "---course"]
                    ++ map (fun kv => kv.1 ++ py ": " ++ kv.2) entries
                    ++ [py "---"])
    /\ map fst entries `sublist_of` YAML_KEYS.
Proof.
  intros curso.
  set (r := build_yaml_header Toy.py_repr curso).
  assert (Hr : r = Ok (match r with Ok l => l | Err _ => [] end))
    by (vm_compute; reflexivity).
  destruct (build_yaml_header_shape Toy.py_repr _ _ Hr)
    as (entries & H1 & H2 & _).
  eexists _, entries. split; [exact Hr|]. split; [exact H1|exact H2].
Defined.
